(** * Lucky 7 round engine: a shallow embedding of [GameManager] and of the
    [DatabaseStorage] operations it consumes.

    JavaScript numbers that hold chip amounts, identifiers and countdown
    seconds are integers in the source (integer columns, serial keys,
    a counter decremented from 30) and are modelled as [Z].  Handlers are
    modelled as run-to-completion functions on an explicit world state
    (manager state and database) that return the events they emit. *)

From Stdlib Require Import ZArith List String Lia.
From stdpp Require Import base option list gmap strings pretty fin_maps.
Import ListNotations.

Local Open Scope string_scope.
Local Open Scope list_scope.
Local Open Scope Z_scope.

(** ** JavaScript primitives used by the source *)

(** Truthiness of [number | undefined]: [undefined] and [0] are falsy. *)
Definition truthy (x : option Z) : bool :=
  match x with
  | Some n => negb (n =? 0)
  | None => false
  end.

(** [x || 0] on [number | undefined | null]. *)
Definition orZero (x : option Z) : Z :=
  match x with
  | Some n => n
  | None => 0
  end.

(** [arr[i]]: the element, or [undefined] ([None]) out of range. *)
Definition js_index {A} (arr : list A) (i : Z) : option A :=
  if i <? 0 then None else arr !! Z.to_nat i.

(** [Math.min(...xs)]; [None] stands for [Infinity] on the empty array. *)
Definition Math_min (xs : list Z) : option Z :=
  match xs with
  | [] => None
  | x :: rest => Some (fold_left Z.min rest x)
  end.

(** [arr.includes(x)] on an array of strings. *)
Definition includes (arr : list string) (x : string) : bool :=
  existsb (String.eqb x) arr.

(** Source of entropy behind [crypto.randomInt]: an unbounded supply of raw
    integers, consumed front to back. *)
Definition Rng := nat -> Z.

(** [crypto.randomInt(min, max)]: an integer [n] with [min <= n < max]. *)
Definition randomInt (min max : Z) (g : Rng) : Z * Rng :=
  (min + (g 0%nat) mod (max - min), fun k => g (S k)).

(** ** Data model (interfaces [Card], [Player], [HouseStats], [GameRoom]) *)

Inductive Suit := spades | hearts | diamonds | clubs.
Inductive Color := red | black.
Inductive Status := waiting | countdown | playing | finished.

Record Card := mkCard {
  number : Z;
  suit : Suit;
  color : Color;
  revealed : bool
}.

Record Player := mkPlayer {
  player_id : string;
  player_name : string;
  socketId : string;
  player_chips : option Z;
  dbId : option Z
}.

Record HouseStats := mkHouseStats {
  totalWagered : Z;
  totalPaidOut : Z;
  houseProfitThisRound : Z;
  houseProfitTotal : Z;
  roundCount : Z
}.

(** An element of a [room.activeBets] array.  The arrays hold either the
    inserted [bets] row or the object literal built on re-authentication;
    the manager reads only these three fields of either. *)
Record ActiveBet := mkActiveBet {
  ab_id : Z;
  ab_betType : string;
  ab_betAmount : Z
}.

(** An element of [lockedBets] / [unlockedBets]. *)
Record TrackedBet := mkTrackedBet {
  tb_betType : string;
  tb_amount : Z;
  tb_betId : Z
}.

(** [Map<string, any[]>]: a JavaScript [Map] iterates in insertion order, and
    the settlement loop depends on that order, so the wager index is kept as
    an association list with the [Map] operations written out. *)
Definition BetIndex := list (string * list ActiveBet).

Fixpoint Map_get (m : BetIndex) (k : string) : option (list ActiveBet) :=
  match m with
  | [] => None
  | (k', v) :: rest => if String.eqb k' k then Some v else Map_get rest k
  end.

Fixpoint Map_set (m : BetIndex) (k : string) (v : list ActiveBet) : BetIndex :=
  match m with
  | [] => [(k, v)]
  | (k', v') :: rest =>
      if String.eqb k' k then (k', v) :: rest else (k', v') :: Map_set rest k v
  end.

Fixpoint Map_delete (m : BetIndex) (k : string) : BetIndex :=
  match m with
  | [] => []
  | (k', v') :: rest =>
      if String.eqb k' k then rest else (k', v') :: Map_delete rest k
  end.

Record GameRoom := mkGameRoom {
  room_id : string;
  players : list Player;
  status : Status;
  maxPlayers : Z;
  currentCard : option Card;
  countdownTime : Z;
  gameStartTime : option Z;
  currentGameId : option Z;
  activeBets : option BetIndex;
  roundNumber : option Z;
  houseStats : option HouseStats
}.

Definition Status_eqb (a b : Status) : bool :=
  match a, b with
  | waiting, waiting | countdown, countdown
  | playing, playing | finished, finished => true
  | _, _ => false
  end.

Definition Color_eqb (a b : Color) : bool :=
  match a, b with
  | red, red | black, black => true
  | _, _ => false
  end.

(** [(suit === 'hearts' || suit === 'diamonds') ? 'red' : 'black'] *)
Definition colorOfSuit (s : Suit) : Color :=
  match s with
  | hearts | diamonds => red
  | _ => black
  end.

(** ** Outcome selector *)

Record BetTotals := mkBetTotals {
  lowBetTotal : Z;
  highBetTotal : Z;
  lucky7BetTotal : Z;
  redBetTotal : Z;
  blackBetTotal : Z
}.

(** Body of the inner [bets.forEach] of [generateSmartCard]. *)
Definition addBetTotal (t : BetTotals) (bet : ActiveBet) : BetTotals :=
  let a := ab_betAmount bet in
  let ty := ab_betType bet in
  if String.eqb ty "low" then
    mkBetTotals (lowBetTotal t + a) (highBetTotal t) (lucky7BetTotal t) (redBetTotal t) (blackBetTotal t)
  else if String.eqb ty "high" then
    mkBetTotals (lowBetTotal t) (highBetTotal t + a) (lucky7BetTotal t) (redBetTotal t) (blackBetTotal t)
  else if String.eqb ty "lucky7" then
    mkBetTotals (lowBetTotal t) (highBetTotal t) (lucky7BetTotal t + a) (redBetTotal t) (blackBetTotal t)
  else if String.eqb ty "red" then
    mkBetTotals (lowBetTotal t) (highBetTotal t) (lucky7BetTotal t) (redBetTotal t + a) (blackBetTotal t)
  else if String.eqb ty "black" then
    mkBetTotals (lowBetTotal t) (highBetTotal t) (lucky7BetTotal t) (redBetTotal t) (blackBetTotal t + a)
  else t.

(** The two nested [forEach] loops over [room.activeBets]. *)
Definition betTotals (room : GameRoom) : BetTotals :=
  match activeBets room with
  | Some index =>
      fold_left (fun t entry => fold_left addBetTotal (snd entry) t)
                index (mkBetTotals 0 0 0 0 0)
  | None => mkBetTotals 0 0 0 0 0
  end.

Record Outcome := mkOutcome {
  outcome_type : string;
  totalPayout : Z;
  outcome_color : Color;
  validNumbers : list Z
}.

(** The [outcomes] array literal of [generateSmartCard]. *)
Definition outcomes (t : BetTotals) : list Outcome :=
  [ mkOutcome "red-low" (redBetTotal t * 2 + lowBetTotal t * 2) red [1; 2; 3; 4; 5; 6];
    mkOutcome "red-high" (redBetTotal t * 2 + highBetTotal t * 2) red [8; 9; 10; 11; 12; 13];
    mkOutcome "black-low" (blackBetTotal t * 2 + lowBetTotal t * 2) black [1; 2; 3; 4; 5; 6];
    mkOutcome "black-high" (blackBetTotal t * 2 + highBetTotal t * 2) black [8; 9; 10; 11; 12; 13] ].

Definition minPayout (t : BetTotals) : option Z :=
  Math_min (map totalPayout (outcomes t)).

Definition minPayoutOutcomes (t : BetTotals) : list Outcome :=
  filter (fun o => Some (totalPayout o) = minPayout t) (outcomes t).

Definition totalBets (t : BetTotals) : Z :=
  lowBetTotal t + highBetTotal t + lucky7BetTotal t + redBetTotal t + blackBetTotal t.

Section OutcomeSelector.

(** [crypto.createHash('sha256').update(Buffer.from(seed.toString()))
    .digest().readUInt32BE(0)], as a function of the numeric seed: the
    first four digest bytes read as an unsigned big-endian integer.  The
    hash itself is the platform's, not the repository's. *)
Variable sha256_u32 : Z -> N.

Definition tieBreakSeed (room : GameRoom) : Z :=
  orZero (currentGameId room) + orZero (gameStartTime room).

(** The tie-breaker of [generateSmartCard]; [None] is [undefined]. *)
Definition selectedOutcome (room : GameRoom) : option Outcome :=
  let tied := minPayoutOutcomes (betTotals room) in
  if (Z.of_nat (length tied) =? 1) then js_index tied 0
  else
    let randomIndex :=
      Z.rem (Z.of_N (sha256_u32 (tieBreakSeed room))) (Z.of_nat (length tied)) in
    js_index tied randomIndex.

(** [generateSmartCard]; [None] when an array read yields [undefined]. *)
Definition generateSmartCard (room : GameRoom) (g : Rng) : option Card :=
  if totalBets (betTotals room) =? 0 then
    let suits := [spades; hearts; diamonds; clubs] in
    let '(i, g1) := randomInt 0 (Z.of_nat (length suits)) g in
    s ← js_index suits i;
    let validNumbers := [1; 2; 3; 4; 5; 6; 8; 9; 10; 11; 12; 13] in
    let '(j, _) := randomInt 0 (Z.of_nat (length validNumbers)) g1 in
    n ← js_index validNumbers j;
    Some (mkCard n s (colorOfSuit s) false)
  else
    sel ← selectedOutcome room;
    let '(j, g1) := randomInt 0 (Z.of_nat (length (validNumbers sel))) g in
    n ← js_index (validNumbers sel) j;
    match outcome_color sel with
    | red =>
        let redSuits := [hearts; diamonds] in
        let '(i, _) := randomInt 0 (Z.of_nat (length redSuits)) g1 in
        s ← js_index redSuits i;
        Some (mkCard n s red false)
    | black =>
        let blackSuits := [spades; clubs] in
        let '(i, _) := randomInt 0 (Z.of_nat (length blackSuits)) g1 in
        s ← js_index blackSuits i;
        Some (mkCard n s black false)
    end.

End OutcomeSelector.

(** [generateCardForResult]: the administrative override. *)
Definition generateCardForResult (result : string) (g : Rng) : option Card :=
  let suits := [spades; hearts; diamonds; clubs] in
  let '(suitIndex, g1) := randomInt 0 (Z.of_nat (length suits)) g in
  s ← js_index suits suitIndex;
  if String.eqb result "red" then
    let redNumbers := [1; 2; 3; 4; 5; 6; 8; 9; 10; 11; 12; 13] in
    let '(j, _) := randomInt 0 (Z.of_nat (length redNumbers)) g1 in
    n ← js_index redNumbers j;
    Some (mkCard n s red false)
  else if String.eqb result "black" then
    let blackNumbers := [1; 2; 3; 4; 5; 6; 8; 9; 10; 11; 12; 13] in
    let '(j, _) := randomInt 0 (Z.of_nat (length blackNumbers)) g1 in
    n ← js_index blackNumbers j;
    Some (mkCard n s black false)
  else if String.eqb result "low" then
    let '(n, _) := randomInt 1 7 g1 in
    Some (mkCard n s (colorOfSuit s) false)
  else if String.eqb result "high" then
    let '(n, _) := randomInt 8 14 g1 in
    Some (mkCard n s (colorOfSuit s) false)
  else if String.eqb result "lucky7" then
    Some (mkCard 7 s (colorOfSuit s) false)
  else
    let '(n, _) := randomInt 1 7 g1 in
    Some (mkCard n s (colorOfSuit s) false).

(** ** Win condition and payout *)

(** [isBetWinner(bet, card)]: the [switch] on [bet.betType]. *)
Definition isBetWinner (betType : string) (card : Card) : bool :=
  if String.eqb betType "red" then
    Color_eqb (color card) red && negb (number card =? 7)
  else if String.eqb betType "black" then
    Color_eqb (color card) black && negb (number card =? 7)
  else if String.eqb betType "high" then
    (8 <=? number card)
  else if String.eqb betType "low" then
    (1 <=? number card) && (number card <=? 6)
  else if String.eqb betType "lucky7" then
    (number card =? 7)
  else false.

(** [payoutMultipliers[betType] || 0] *)
Definition payoutMultiplier (betType : string) : Z :=
  if String.eqb betType "red" then 2
  else if String.eqb betType "black" then 2
  else if String.eqb betType "high" then 2
  else if String.eqb betType "low" then 2
  else if String.eqb betType "lucky7" then 12
  else 0.

(** [roundToCents]: [Math.round(amount * 100) / 100].  On an integer amount
    [amount * 100] is an integer, [Math.round] leaves it unchanged and the
    division is exact. *)
Definition roundToCents (amount : Z) : Z :=
  let cents := amount * 100 in
  cents / 100.

(** [calculateWinAmount(bet)] *)
Definition calculateWinAmount (betType : string) (betAmount : Z) : Z :=
  let rawAmount := betAmount * payoutMultiplier betType in
  roundToCents rawAmount.

(** ** Persistence: the tables and the [DatabaseStorage] operations the
    engine calls.  Constraint checks made by the database engine itself
    (foreign keys, column ranges) are outside the model. *)

Record PlayerRow := mkPlayerRow {
  row_id : Z;
  userId : Z;
  row_socketId : string;
  row_name : string;
  chips : Z;
  totalWins : Z;
  totalLosses : Z;
  totalBetsAmount : Z
}.

Record BetRow := mkBetRow {
  bet_id : Z;
  gameId : Z;
  playerId : Z;
  betAmount : Z;
  betType : string;
  betValue : option string;
  won : bool;
  winAmount : Z
}.

Record GameRow := mkGameRow {
  game_id : Z;
  game_roomId : string;
  cardNumber : Z;
  cardColor : Color;
  game_totalBets : Z;
  totalPlayers : Z;
  game_status : string
}.

Record Database := mkDatabase {
  players_table : gmap Z PlayerRow;
  bets_table : gmap Z BetRow;
  games_table : gmap Z GameRow;
  players_serial : Z;
  bets_serial : Z;
  games_serial : Z
}.

(** Outcome of an awaited storage call: a value, or a thrown [Error]. *)
Inductive Result (A : Type) :=
| Ok (a : A)
| Throw (message : string).
Arguments Ok {A} a.
Arguments Throw {A} message.

Definition with_players (db : Database) (t : gmap Z PlayerRow) : Database :=
  mkDatabase t (bets_table db) (games_table db)
             (players_serial db) (bets_serial db) (games_serial db).

Definition with_bets (db : Database) (t : gmap Z BetRow) : Database :=
  mkDatabase (players_table db) t (games_table db)
             (players_serial db) (bets_serial db) (games_serial db).

Definition with_games (db : Database) (t : gmap Z GameRow) : Database :=
  mkDatabase (players_table db) (bets_table db) t
             (players_serial db) (bets_serial db) (games_serial db).

Definition set_chips (p : PlayerRow) (c : Z) : PlayerRow :=
  mkPlayerRow (row_id p) (userId p) (row_socketId p) (row_name p) c
              (totalWins p) (totalLosses p) (totalBetsAmount p).

Definition getPlayer (db : Database) (id : Z) : option PlayerRow :=
  players_table db !! id.

(** [getPlayerByUserId]: [result[0]] of the select on [user_id]. *)
Definition getPlayerByUserId (db : Database) (uid : Z) : option PlayerRow :=
  snd <$> (snd <$> list_find (fun kv => userId (snd kv) = uid)
                             (map_to_list (players_table db))).

Definition createOrUpdatePlayerByUserId (db : Database) (uid : Z)
    (sock name : string) : Database * PlayerRow :=
  match getPlayerByUserId db uid with
  | Some existing =>
      (* the update is keyed on [user_id]: every row of that user is touched *)
      let touch := fun p =>
        if bool_decide (userId p = uid)
        then mkPlayerRow (row_id p) (userId p) sock name (chips p)
                         (totalWins p) (totalLosses p) (totalBetsAmount p)
        else p in
      (with_players db (touch <$> players_table db), touch existing)
  | None =>
      let id := players_serial db in
      let row := mkPlayerRow id uid sock name 0 0 0 0 in
      (mkDatabase (<[id := row]> (players_table db)) (bets_table db)
                  (games_table db) (id + 1) (bets_serial db) (games_serial db),
       row)
  end.

Definition updatePlayerChips (db : Database) (id : Z) (c : Z)
    : Result (Database * option PlayerRow) :=
  if c <? 0 then Throw "Chip balance cannot be negative"
  else
    match players_table db !! id with
    | Some p =>
        let p' := set_chips p c in
        Ok (with_players db (<[id := p']> (players_table db)), Some p')
    | None => Ok (db, None)
    end.

(** [placeBet]: one transaction; a throw rolls everything back, so the
    failing branches return no new database. *)
Definition placeBet (db : Database) (pid : Z) (amount : Z) (ty : string)
    (value : option string) (gid : Z) : Result (Database * BetRow * PlayerRow) :=
  match players_table db !! pid with
  | None => Throw "Player not found"
  | Some p =>
      if chips p <? amount then Throw "Insufficient chips"
      else
        let id := bets_serial db in
        let bet := mkBetRow id gid pid amount ty value false 0 in
        let updated := set_chips p (chips p - amount) in
        Ok (mkDatabase (<[pid := updated]> (players_table db))
                       (<[id := bet]> (bets_table db))
                       (games_table db)
                       (players_serial db) (id + 1) (games_serial db),
            bet, updated)
  end.

(** [resolveBet]: one transaction.  With no row for [betId] the update
    returns nothing and reading [bet[0].playerId] throws. *)
Definition resolveBet (db : Database) (betId : Z) (w : bool) (amount : Z)
    : Result (Database * BetRow * option PlayerRow) :=
  match bets_table db !! betId with
  | None => Throw "Cannot read properties of undefined"
  | Some b =>
      let b' := mkBetRow (bet_id b) (gameId b) (playerId b) (betAmount b)
                         (betType b) (betValue b) w amount in
      let db1 := with_bets db (<[betId := b']> (bets_table db)) in
      match players_table db !! playerId b with
      | None => Ok (db1, b', None)
      | Some p =>
          let p' :=
            if w && (0 <? amount) then
              mkPlayerRow (row_id p) (userId p) (row_socketId p) (row_name p)
                          (chips p + amount) (totalWins p + 1) (totalLosses p)
                          (totalBetsAmount p)
            else
              mkPlayerRow (row_id p) (userId p) (row_socketId p) (row_name p)
                          (chips p) (totalWins p) (totalLosses p + 1)
                          (totalBetsAmount p) in
          Ok (with_players db1 (<[playerId b := p']> (players_table db)), b', Some p')
      end
  end.

Definition deleteBet (db : Database) (betId : Z) : Database :=
  with_bets db (delete betId (bets_table db)).

Definition createGame (db : Database) (roomId : string) (n : Z) (c : Color)
    (total nplayers : Z) : Database * GameRow :=
  let id := games_serial db in
  let row := mkGameRow id roomId n c total nplayers "in_progress" in
  (mkDatabase (players_table db) (bets_table db) (<[id := row]> (games_table db))
              (players_serial db) (bets_serial db) (id + 1),
   row).

Definition updateGameCard (db : Database) (gid : Z) (n : Z) (c : Color) : Database :=
  with_games db
    (alter (fun r => mkGameRow (game_id r) (game_roomId r) n c (game_totalBets r)
                               (totalPlayers r) (game_status r))
           gid (games_table db)).

Definition markGameCompleted (db : Database) (gid : Z) : Database :=
  with_games db
    (alter (fun r => mkGameRow (game_id r) (game_roomId r) (cardNumber r)
                               (cardColor r) (game_totalBets r) (totalPlayers r)
                               "completed")
           gid (games_table db)).

(** ** The manager's state and the events it emits *)

Record GameManager := mkGameManager {
  globalRoom : GameRoom;
  playerRooms : gmap string string;
  countdownIntervals : gset string;
  adminOverrides : gmap Z string;
  lockedBets : gmap Z (list TrackedBet);
  unlockedBets : gmap string (list TrackedBet)
}.

Record World := mkWorld {
  manager : GameManager;
  storage : Database
}.

Inductive Target :=
| ToSocket (socket : string)
| ToRoom (room : string).

(** One constructor per emitted event shape. *)
Inductive Payload :=
| error_event (message : string)
| bet_error_text (message : string)
| bet_error (message : string)
| room_updated (room : GameRoom)
| game_state (st : Status) (time : Z) (card : option Card) (room : GameRoom)
| game_starting (room : GameRoom) (time : Z)
| countdown_tick (time : Z) (room : GameRoom)
| card_revealed (card : option Card) (room : GameRoom)
| round_ended (room : GameRoom)
| bet_placed (bet : BetRow) (balance : Z) (locked : bool)
| bets_locked (bets : list TrackedBet) (balance : Z)
| bets_cancelled (count : nat) (balance : option Z)
| locked_bets_cancelled (count : nat) (balance : option Z).

Definition Emit : Type := Target * Payload.

Definition with_room (m : GameManager) (r : GameRoom) : GameManager :=
  mkGameManager r (playerRooms m) (countdownIntervals m) (adminOverrides m)
                (lockedBets m) (unlockedBets m).

Definition with_players_list (r : GameRoom) (ps : list Player) : GameRoom :=
  mkGameRoom (room_id r) ps (status r) (maxPlayers r) (currentCard r)
             (countdownTime r) (gameStartTime r) (currentGameId r)
             (activeBets r) (roundNumber r) (houseStats r).

Definition with_activeBets (r : GameRoom) (ab : option BetIndex) : GameRoom :=
  mkGameRoom (room_id r) (players r) (status r) (maxPlayers r) (currentCard r)
             (countdownTime r) (gameStartTime r) (currentGameId r)
             ab (roundNumber r) (houseStats r).

Definition with_card (r : GameRoom) (c : option Card) : GameRoom :=
  mkGameRoom (room_id r) (players r) (status r) (maxPlayers r) c
             (countdownTime r) (gameStartTime r) (currentGameId r)
             (activeBets r) (roundNumber r) (houseStats r).

Definition with_status (r : GameRoom) (s : Status) : GameRoom :=
  mkGameRoom (room_id r) (players r) s (maxPlayers r) (currentCard r)
             (countdownTime r) (gameStartTime r) (currentGameId r)
             (activeBets r) (roundNumber r) (houseStats r).

Definition with_countdownTime (r : GameRoom) (t : Z) : GameRoom :=
  mkGameRoom (room_id r) (players r) (status r) (maxPlayers r) (currentCard r)
             t (gameStartTime r) (currentGameId r)
             (activeBets r) (roundNumber r) (houseStats r).

Definition with_houseStats (r : GameRoom) (h : option HouseStats) : GameRoom :=
  mkGameRoom (room_id r) (players r) (status r) (maxPlayers r) (currentCard r)
             (countdownTime r) (gameStartTime r) (currentGameId r)
             (activeBets r) (roundNumber r) h.

(** [room.players.find(p => p.socketId === socket.id)] *)
Definition findPlayer (r : GameRoom) (sock : string) : option Player :=
  find (fun p => String.eqb (socketId p) sock) (players r).

(** [room.players.find(p => p.dbId === id)] *)
Definition findPlayerByDbId (r : GameRoom) (id : Z) : option Player :=
  find (fun p => match dbId p with Some d => d =? id | None => false end)
       (players r).

(** In-place mutation of the object returned by [find]: the first player
    matching [test] is replaced by its image under [f]. *)
Fixpoint updateFirst (test : Player -> bool) (f : Player -> Player)
    (ps : list Player) : list Player :=
  match ps with
  | [] => []
  | p :: rest => if test p then f p :: rest else p :: updateFirst test f rest
  end.

Definition set_player_chips (c : option Z) (p : Player) : Player :=
  mkPlayer (player_id p) (player_name p) (socketId p) c (dbId p).

(** [sanitizeRoomForBroadcast] *)
Definition sanitizeRoomForBroadcast (room : GameRoom) : GameRoom :=
  mkGameRoom (room_id room) (players room) (status room) (maxPlayers room)
    (match currentCard room with
     | Some c =>
         if Status_eqb (status room) playing && revealed c then Some c else None
     | None => None
     end)
    (countdownTime room) (gameStartTime room) (currentGameId room)
    None (roundNumber room) (houseStats room).

(** [findIndex(b => b.id === betId)] followed by [splice(betIndex, 1)]. *)
Fixpoint spliceBet (betId : Z) (bets : list ActiveBet) : list ActiveBet :=
  match bets with
  | [] => []
  | b :: rest => if ab_id b =? betId then rest else b :: spliceBet betId rest
  end.

(** "Remove from active bets": the array stored under [sock] is spliced in
    place, so the entry keeps its position in the [Map]. *)
Definition removeActiveBet (index : option BetIndex) (sock : string) (betId : Z)
    : option BetIndex :=
  match index with
  | Some m =>
      match Map_get m sock with
      | Some playerBets => Some (Map_set m sock (spliceBet betId playerBets))
      | None => Some m
      end
  | None => None
  end.

(** "Remove active bets entry if empty". *)
Definition dropEmptyEntry (index : option BetIndex) (sock : string) : option BetIndex :=
  match index with
  | Some m =>
      match Map_get m sock with
      | Some [] => Some (Map_delete m sock)
      | _ => Some m
      end
  | None => None
  end.

(** The [for (const bet of ...)] loop shared by [leaveRoom], [handleCancelBet]
    and [handleCancelLockedBets]: delete the row, add the stake to
    [totalRefund], splice the bet out of the caller's index entry. *)
Definition cancelLoop (sock : string) (bets : list TrackedBet)
    (db : Database) (index : option BetIndex) : Database * option BetIndex * Z :=
  fold_left
    (fun '(db, index, totalRefund) bet =>
       (deleteBet db (tb_betId bet),
        removeActiveBet index sock (tb_betId bet),
        totalRefund + tb_amount bet))
    bets (db, index, 0).

(** [leaveRoom] *)
Definition leaveRoom (sock : string) (w : World) : World * list Emit :=
  let m := manager w in
  match playerRooms m !! sock with
  | None => (w, [])
  | Some roomId =>
      let rooms := delete sock (playerRooms m) in
      let room := globalRoom m in
      let player := findPlayer room sock in
      let '(db, index, unlocked) :=
        match unlockedBets m !! sock with
        | Some bets =>
            let '(db1, index1, totalRefund) :=
              cancelLoop sock bets (storage w) (activeBets room) in
            let index2 := dropEmptyEntry index1 sock in
            let db2 :=
              match player with
              | Some p =>
                  if truthy (dbId p) && (0 <? totalRefund) then
                    match getPlayer db1 (orZero (dbId p)) with
                    | Some dbPlayer =>
                        match updatePlayerChips db1 (orZero (dbId p))
                                (chips dbPlayer + totalRefund) with
                        | Ok (db', _) => db'
                        | Throw _ => db1
                        end
                    | None => db1
                    end
                  else db1
              | None => db1
              end in
            (db2, index2, delete sock (unlockedBets m))
        | None => (storage w, activeBets room, unlockedBets m)
        end in
      let room1 := with_activeBets room index in
      let room2 :=
        with_players_list room1
          (List.filter (fun p => negb (String.eqb (socketId p) sock)) (players room1)) in
      let m' := mkGameManager room2 rooms (countdownIntervals m)
                  (adminOverrides m) (lockedBets m) unlocked in
      (mkWorld m' db, [(ToRoom "GLOBAL", room_updated (sanitizeRoomForBroadcast room2))])
  end.

(** [joinRoom] *)
Definition joinRoom (sock : string) (w : World) : World * list Emit :=
  let '(w1, out1) := leaveRoom sock w in
  let m := manager w1 in
  let room := globalRoom m in
  let player :=
    mkPlayer sock ("Player " +:+ pretty (Z.of_nat (length (players room)) + 1))
             sock (Some 0) None in
  let room1 := with_players_list room (players room ++ [player]) in
  let m1 := mkGameManager room1 (<[sock := "GLOBAL"]> (playerRooms m))
              (countdownIntervals m) (adminOverrides m)
              (lockedBets m) (unlockedBets m) in
  let sanitizedRoom := sanitizeRoomForBroadcast room1 in
  let currentGameState :=
    game_state (status room1) (countdownTime room1)
      (match currentCard room1 with
       | Some c => if Status_eqb (status room1) playing then Some c else None
       | None => None
       end)
      sanitizedRoom in
  (mkWorld m1 (storage w1),
   out1 ++ [(ToRoom "GLOBAL", room_updated sanitizedRoom);
            (ToSocket sock, currentGameState)] ++
   (if Status_eqb (status room1) countdown
    then [(ToSocket sock, game_starting sanitizedRoom (countdownTime room1))]
    else [])).

(** ** Settlement *)

(** Loop state of [resolveBets]: the locals [processedBetIds],
    [roundWagered], [roundPaidOut], the database and the room's player list
    (whose cached chips the loop refreshes), and the sequence of
    [storage.resolveBet(id, won, winAmount)] calls issued so far. *)
Record Settlement := mkSettlement {
  processedBetIds : gset Z;
  roundWagered : Z;
  roundPaidOut : Z;
  settled_db : Database;
  settled_players : list Player;
  resolveCalls : list (Z * bool * Z)
}.

(** Body of the inner [for (const bet of bets)] loop. *)
Definition resolveOne (card : Card) (sock : string) (acc : Settlement)
    (bet : ActiveBet) : Settlement :=
  if bool_decide (ab_id bet ∈ processedBetIds acc) then acc
  else
    let processed := processedBetIds acc ∪ {[ab_id bet]} in
    let w := isBetWinner (ab_betType bet) card in
    let amount :=
      if w then calculateWinAmount (ab_betType bet) (ab_betAmount bet) else 0 in
    let wagered := roundWagered acc + ab_betAmount bet in
    let paid := roundPaidOut acc + amount in
    let calls := resolveCalls acc ++ [(ab_id bet, w, amount)] in
    match resolveBet (settled_db acc) (ab_id bet) w amount with
    | Ok (db', _, updatedPlayer) =>
        let ps := settled_players acc in
        let bySocket := fun p => String.eqb (socketId p) sock in
        let ps' :=
          match updatedPlayer with
          | Some up =>
              match find bySocket ps with
              | Some _ => updateFirst bySocket (set_player_chips (Some (chips up))) ps
              | None =>
                  updateFirst
                    (fun p => match dbId p with
                              | Some d => d =? row_id up
                              | None => false
                              end)
                    (set_player_chips (Some (chips up))) ps
              end
          | None => ps
          end in
        mkSettlement processed wagered paid db' ps' calls
    | Throw _ =>
        mkSettlement processed wagered paid (settled_db acc) (settled_players acc) calls
    end.

(** The two nested loops over [Array.from(room.activeBets.entries())]. *)
Definition resolveLoop (card : Card) (index : BetIndex) (start : Settlement)
    : Settlement :=
  fold_left
    (fun acc entry => fold_left (resolveOne card (fst entry)) (snd entry) acc)
    index start.

(** [updateHouseStats]; the derived [houseEdgePercent], a floating-point
    ratio of two of these counters, is not represented. *)
Definition updateHouseStats (h : HouseStats) (wagered paid : Z) : HouseStats :=
  let profit := wagered - paid in
  mkHouseStats (totalWagered h + wagered) (totalPaidOut h + paid) profit
               (houseProfitTotal h + profit) (roundCount h + 1).

(** [resolveBets]; the second component is the sequence of
    [storage.resolveBet] calls made. *)
Definition resolveBets (w : World) : World * list (Z * bool * Z) :=
  let m := manager w in
  let room := globalRoom m in
  match activeBets room, currentCard room, houseStats room with
  | Some index, Some card, Some stats =>
      if truthy (currentGameId room) then
        let final :=
          resolveLoop card index
            (mkSettlement ∅ 0 0 (storage w) (players room) []) in
        let room1 :=
          mkGameRoom (room_id room) (settled_players final) (status room)
            (maxPlayers room) (currentCard room) (countdownTime room)
            (gameStartTime room) (currentGameId room) (Some [])
            (roundNumber room)
            (Some (updateHouseStats stats (roundWagered final) (roundPaidOut final))) in
        (mkWorld (mkGameManager room1 (playerRooms m) (countdownIntervals m)
                                (adminOverrides m) ∅ (unlockedBets m))
                 (settled_db final),
         resolveCalls final)
      else (w, [])
  | _, _, _ => (w, [])
  end.

(** [revealCard]; [g] feeds [generateCardForResult] when an override is set. *)
Definition revealCard (g : Rng) (w : World) : World * list Emit :=
  let m := manager w in
  let room := globalRoom m in
  match currentCard room with
  | None => (w, [])
  | Some generated =>
      let '(card, overrides) :=
        match currentGameId room with
        | Some gid =>
            if truthy (Some gid) then
              match adminOverrides m !! gid with
              | Some overrideResult =>
                  (generateCardForResult overrideResult g, delete gid (adminOverrides m))
              | None => (Some generated, adminOverrides m)
              end
            else (Some generated, adminOverrides m)
        | None => (Some generated, adminOverrides m)
        end in
      let card1 :=
        match card with
        | Some c => Some (mkCard (number c) (suit c) (color c) true)
        | None => None
        end in
      let room1 := with_card (with_status room playing) card1 in
      let w1 := mkWorld (mkGameManager room1 (playerRooms m) (countdownIntervals m)
                                       overrides (lockedBets m) (unlockedBets m))
                        (storage w) in
      let '(w2, _) := resolveBets w1 in
      let room2 := globalRoom (manager w2) in
      let db :=
        match currentGameId room2, currentCard room2 with
        | Some gid, Some c =>
            if truthy (Some gid) then
              markGameCompleted (updateGameCard (storage w2) gid (number c) (color c)) gid
            else storage w2
        | _, _ => storage w2
        end in
      (mkWorld (manager w2) db,
       [(ToRoom "GLOBAL", card_revealed (currentCard room2) room2)])
  end.

Section RoundStateMachine.

Variable sha256_u32 : Z -> N.

(** [startGame]; [now] is the value of [Date.now()]. *)
Definition startGame (now : Z) (w : World) : World * list Emit :=
  let m := manager w in
  let room := globalRoom m in
  if negb (Status_eqb (status room) waiting) then (w, [])
  else
    let '(db, gameRecord) :=
      createGame (storage w) "GLOBAL" 0 red 0 (Z.of_nat (length (players room))) in
    let room1 :=
      mkGameRoom (room_id room) (players room) countdown (maxPlayers room)
                 None 30 (Some now) (Some (game_id gameRecord))
                 (activeBets room) (roundNumber room) (houseStats room) in
    (mkWorld (mkGameManager room1 (playerRooms m)
                            (countdownIntervals m ∪ {["GLOBAL"]})
                            (adminOverrides m) (lockedBets m) (unlockedBets m))
             db,
     [(ToRoom "GLOBAL",
       game_starting (sanitizeRoomForBroadcast room1) (countdownTime room1))]).

(** The [setInterval] callback installed by [startGame]. *)
Definition countdownTick (g : Rng) (w : World) : World * list Emit :=
  let m := manager w in
  if negb (bool_decide ("GLOBAL" ∈ countdownIntervals m)) then (w, [])
  else
    let room := globalRoom m in
    let room1 := with_countdownTime room (countdownTime room - 1) in
    let room2 :=
      match currentCard room1 with
      | None =>
          if countdownTime room1 =? 10
          then with_card room1 (generateSmartCard sha256_u32 room1 g)
          else room1
      | Some _ => room1
      end in
    let tick :=
      (ToRoom "GLOBAL",
       countdown_tick (countdownTime room2) (sanitizeRoomForBroadcast room2)) in
    if countdownTime room2 <=? 0 then
      let w1 := mkWorld (mkGameManager room2 (playerRooms m)
                                       (countdownIntervals m ∖ {["GLOBAL"]})
                                       (adminOverrides m) (lockedBets m)
                                       (unlockedBets m))
                        (storage w) in
      let '(w2, out) := revealCard g w1 in
      (w2, tick :: out)
    else
      (mkWorld (with_room m room2) (storage w), [tick]).

(** [startNextRound], the callback of the six-second timer set on reveal. *)
Definition startNextRound (now : Z) (w : World) : World * list Emit :=
  let m := manager w in
  let room := globalRoom m in
  let room1 :=
    mkGameRoom (room_id room) (players room) waiting (maxPlayers room)
               None 30 (gameStartTime room) None
               (match activeBets room with Some _ => Some [] | None => None end)
               (Some ((match roundNumber room with
                       | Some n => if n =? 0 then 1 else n
                       | None => 1
                       end) + 1))
               (houseStats room) in
  let w1 := mkWorld (mkGameManager room1 (playerRooms m) (countdownIntervals m)
                                   (adminOverrides m) ∅ ∅)
                    (storage w) in
  let '(w2, out) := startGame now w1 in
  (w2, (ToRoom "GLOBAL", round_ended (sanitizeRoomForBroadcast room1)) :: out).

End RoundStateMachine.

(** ** Session reconciler *)

(** Body of the loop of [handlePlayerAuth] over a snapshot of the index
    entries: the bets whose id is among the restored locked ids are filtered
    out of the entry; an entry left empty is deleted. *)
Definition removeStaleStep (ids : gset Z) (acc : BetIndex)
    (entry : string * list ActiveBet) : BetIndex :=
  let bets := snd entry in
  let filteredBets :=
    List.filter (fun bet => negb (bool_decide (ab_id bet ∈ ids))) bets in
  if (length filteredBets =? 0)%nat then Map_delete acc (fst entry)
  else if negb (length filteredBets =? length bets)%nat
       then Map_set acc (fst entry) filteredBets
       else acc.

Definition removeStale (ids : gset Z) (index : BetIndex) : BetIndex :=
  fold_left (removeStaleStep ids) index index.

(** [handlePlayerAuth] *)
Definition handlePlayerAuth (sock : string) (uid : Z) (username : string)
    (w : World) : World * list Emit :=
  let m := manager w in
  let room := globalRoom m in
  match findPlayer room sock with
  | None => (w, [])
  | Some _ =>
      let '(db, dbPlayer) :=
        createOrUpdatePlayerByUserId (storage w) uid sock username in
      let ps :=
        updateFirst (fun p => String.eqb (socketId p) sock)
          (fun p => mkPlayer (player_id p) (row_name dbPlayer) (socketId p)
                             (Some (chips dbPlayer)) (Some (row_id dbPlayer)))
          (players room) in
      let room1 := with_players_list room ps in
      let '(room2, out) :=
        match lockedBets m !! row_id dbPlayer with
        | Some locked =>
            let betIdsToRestore : gset Z := list_to_set (map tb_betId locked) in
            let cleaned :=
              match activeBets room1 with
              | Some index => removeStale betIdsToRestore index
              | None => []
              end in
            let fresh :=
              map (fun bet => mkActiveBet (tb_betId bet) (tb_betType bet) (tb_amount bet))
                  locked in
            (with_activeBets room1 (Some (Map_set cleaned sock fresh)),
             [(ToSocket sock, bets_locked locked (chips dbPlayer))])
        | None => (room1, [])
        end in
      (mkWorld (with_room m room2) db,
       out ++ [(ToRoom "GLOBAL", room_updated (sanitizeRoomForBroadcast room2))])
  end.

(** ** Bet tracker *)

Definition validBetTypes : list string := ["red"; "black"; "high"; "low"; "lucky7"].

Definition activeBetOfRow (b : BetRow) : ActiveBet :=
  mkActiveBet (bet_id b) (betType b) (betAmount b).

(** [handlePlaceBet] *)
Definition handlePlaceBet (sock : string) (ty : string) (value : option string)
    (amount : Z) (w : World) : World * list Emit :=
  let m := manager w in
  let room := globalRoom m in
  let reject := fun msg => (w, [(ToSocket sock, bet_error_text msg)]) in
  if negb (Status_eqb (status room) countdown) || (countdownTime room <=? 10) then
    reject "Cannot place bet at this time"
  else
    match findPlayer room sock with
    | None => reject "You must be in the game to place bets"
    | Some playerInRoom =>
        if negb (truthy (dbId playerInRoom)) then
          reject "Authentication required to place bets"
        else
          match getPlayer (storage w) (orZero (dbId playerInRoom)) with
          | None => reject "Player record not found"
          | Some dbPlayer =>
              if negb (includes validBetTypes ty) then reject "Invalid bet type"
              else if (amount <=? 0) || (chips dbPlayer <? amount) then
                reject "Invalid bet amount"
              else if negb (truthy (currentGameId room)) then
                reject "Game not ready for betting"
              else
                match placeBet (storage w) (row_id dbPlayer) amount ty value
                               (orZero (currentGameId room)) with
                | Throw _ => reject "Failed to place bet"
                | Ok (db, bet, updatedPlayer) =>
                    let ps :=
                      updateFirst (fun p => String.eqb (socketId p) sock)
                        (set_player_chips (Some (chips updatedPlayer)))
                        (players room) in
                    let index :=
                      match activeBets room with
                      | Some index => index
                      | None => []
                      end in
                    let playerBets :=
                      match Map_get index sock with
                      | Some bets => bets
                      | None => []
                      end in
                    let index' := Map_set index sock (playerBets ++ [activeBetOfRow bet]) in
                    let unlockedBetsList :=
                      match unlockedBets m !! sock with
                      | Some l => l
                      | None => []
                      end in
                    let room1 :=
                      with_activeBets (with_players_list room ps) (Some index') in
                    let m1 :=
                      mkGameManager room1 (playerRooms m) (countdownIntervals m)
                        (adminOverrides m) (lockedBets m)
                        (<[sock := unlockedBetsList ++ [mkTrackedBet ty amount (bet_id bet)]]>
                           (unlockedBets m)) in
                    (mkWorld m1 db,
                     [(ToRoom "GLOBAL", room_updated (sanitizeRoomForBroadcast room1));
                      (ToSocket sock, bet_placed bet (chips updatedPlayer) false)])
                end
          end
    end.

(** [handleLockBet] *)
Definition handleLockBet (sock : string) (w : World) : World * list Emit :=
  let m := manager w in
  let room := globalRoom m in
  let reject := fun msg => (w, [(ToSocket sock, bet_error msg)]) in
  match findPlayer room sock with
  | None => reject "Player not found"
  | Some player =>
      if negb (truthy (dbId player)) then reject "Player not found"
      else if negb (Status_eqb (status room) countdown) || (countdownTime room <=? 10)
      then reject "Betting window closed"
      else
        match lockedBets m !! orZero (dbId player) with
        | Some _ =>
            reject "You already have locked bets. Locked bets cannot be changed."
        | None =>
            match unlockedBets m !! sock with
            | None | Some [] => reject "No bets to lock. Please place a bet first."
            | Some betsToLock =>
                let m1 :=
                  mkGameManager room (playerRooms m) (countdownIntervals m)
                    (adminOverrides m)
                    (<[orZero (dbId player) := betsToLock]> (lockedBets m))
                    (delete sock (unlockedBets m)) in
                (mkWorld m1 (storage w),
                 [(ToSocket sock, bets_locked betsToLock (orZero (player_chips player)))])
            end
        end
  end.

(** The common tail of the two cancel handlers, after the partition to
    cancel has been fetched: delete and refund inside [try], the catch
    reporting [error.message].  [clear] removes the partition's entry. *)
Definition cancelAndRefund (sock : string) (player : Player) (bets : list TrackedBet)
    (clear : GameManager -> GameManager) (done : nat -> option Z -> Payload)
    (w : World) : World * list Emit :=
  let m := manager w in
  let room := globalRoom m in
  let '(db1, index1, totalRefund) :=
    cancelLoop sock bets (storage w) (activeBets room) in
  let room1 := with_activeBets room (dropEmptyEntry index1 sock) in
  match getPlayer db1 (orZero (dbId player)) with
  | Some dbPlayer =>
      match updatePlayerChips db1 (orZero (dbId player)) (chips dbPlayer + totalRefund) with
      | Ok (db2, _) =>
          let balance := Some (chips dbPlayer + totalRefund) in
          let room2 :=
            with_players_list room1
              (updateFirst (fun p => String.eqb (socketId p) sock)
                           (set_player_chips balance) (players room1)) in
          (mkWorld (clear (with_room m room2)) db2,
           [(ToSocket sock, done (length bets) balance)])
      | Throw message =>
          (mkWorld (with_room m room1) db1, [(ToSocket sock, bet_error message)])
      end
  | None =>
      (mkWorld (clear (with_room m room1)) db1,
       [(ToSocket sock, done (length bets) (player_chips player))])
  end.

(** [handleCancelLockedBets] *)
Definition handleCancelLockedBets (sock : string) (w : World) : World * list Emit :=
  let m := manager w in
  let reject := fun msg => (w, [(ToSocket sock, bet_error msg)]) in
  match findPlayer (globalRoom m) sock with
  | None => reject "Player not found"
  | Some player =>
      if negb (truthy (dbId player)) then reject "Player not found"
      else
        match lockedBets m !! orZero (dbId player) with
        | None | Some [] => reject "No locked bets to cancel"
        | Some locked =>
            cancelAndRefund sock player locked
              (fun m' => mkGameManager (globalRoom m') (playerRooms m')
                           (countdownIntervals m') (adminOverrides m')
                           (delete (orZero (dbId player)) (lockedBets m'))
                           (unlockedBets m'))
              locked_bets_cancelled w
        end
  end.

(** [handleCancelBet] *)
Definition handleCancelBet (sock : string) (cancelLocked : bool) (w : World)
    : World * list Emit :=
  let m := manager w in
  let reject := fun msg => (w, [(ToSocket sock, bet_error msg)]) in
  match findPlayer (globalRoom m) sock with
  | None => reject "Player not found"
  | Some player =>
      if negb (truthy (dbId player)) then reject "Player not found"
      else if cancelLocked then handleCancelLockedBets sock w
      else
        match lockedBets m !! orZero (dbId player) with
        | Some _ =>
            reject "Cannot cancel unlocked bets when you have locked bets. Cancel locked bets first."
        | None =>
            match unlockedBets m !! sock with
            | None | Some [] => reject "No unlocked bets to cancel"
            | Some unlocked =>
                cancelAndRefund sock player unlocked
                  (fun m' => mkGameManager (globalRoom m') (playerRooms m')
                               (countdownIntervals m') (adminOverrides m')
                               (lockedBets m') (delete sock (unlockedBets m')))
                  bets_cancelled w
            end
        end
  end.

(** [setAdminOverride] *)
Definition setAdminOverride (gid : Z) (overrideResult : string) (w : World)
    : World * bool :=
  let m := manager w in
  let room := globalRoom m in
  if negb (Status_eqb (status room) countdown)
     || negb (bool_decide (currentGameId room = Some gid)) then (w, false)
  else if negb (includes ["red"; "black"; "low"; "high"; "lucky7"] overrideResult)
  then (w, false)
  else
    (mkWorld (mkGameManager room (playerRooms m) (countdownIntervals m)
                            (<[gid := overrideResult]> (adminOverrides m))
                            (lockedBets m) (unlockedBets m))
             (storage w),
     true).

(** ** The engine as a transition system *)

(** What the transport layer, the timers and the administrative route can
    deliver to the manager. *)
Inductive Input :=
| join_room (sock : string)
| disconnect (sock : string)
| update_player_auth (sock : string) (uid : Z) (username : string)
| place_bet (sock : string) (ty : string) (value : option string) (amount : Z)
| lock_bet (sock : string)
| cancel_bet (sock : string) (cancelLocked : bool)
| start_timer (now : Z)
| interval_tick (g : Rng)
| next_round_timer (now : Z)
| admin_override (gid : Z) (overrideResult : string).

Section Engine.

Variable sha256_u32 : Z -> N.

Definition step (w : World) (i : Input) : World * list Emit :=
  match i with
  | join_room sock => joinRoom sock w
  | disconnect sock => leaveRoom sock w
  | update_player_auth sock uid username => handlePlayerAuth sock uid username w
  | place_bet sock ty value amount => handlePlaceBet sock ty value amount w
  | lock_bet sock => handleLockBet sock w
  | cancel_bet sock cancelLocked => handleCancelBet sock cancelLocked w
  | start_timer now => startGame now w
  | interval_tick g => countdownTick sha256_u32 g w
  | next_round_timer now => startNextRound now w
  | admin_override gid overrideResult => (fst (setAdminOverride gid overrideResult w), [])
  end.

(** Running a sequence of inputs, collecting everything emitted. *)
Fixpoint run (w : World) (inputs : list Input) : World * list Emit :=
  match inputs with
  | [] => (w, [])
  | i :: rest =>
      let '(w1, out1) := step w i in
      let '(w2, out2) := run w1 rest in
      (w2, out1 ++ out2)
  end.

End Engine.

(** ** Vocabulary of the statements *)

(** The room object carried by a payload, if any. *)
Definition payloadRoom (p : Payload) : option GameRoom :=
  match p with
  | room_updated r | game_starting r _ | countdown_tick _ r
  | round_ended r | game_state _ _ _ r | card_revealed _ r => Some r
  | _ => None
  end.

(** Every card a payload discloses, in a card field or inside its room. *)
Definition payloadCards (p : Payload) : list Card :=
  match p with
  | game_state _ _ c r | card_revealed c r =>
      option_list c ++ option_list (currentCard r)
  | room_updated r | game_starting r _ | countdown_tick _ r | round_ended r =>
      option_list (currentCard r)
  | _ => []
  end.

(** The betting window of [handlePlaceBet] and [handleLockBet]. *)
Definition bettingOpen (room : GameRoom) : Prop :=
  status room = countdown /\ 10 < countdownTime room.

(** A handler rejected the request: the world is unchanged and the only
    event is an error sent to the requesting socket. *)
Definition rejected (sock : string) (w : World) (res : World * list Emit) : Prop :=
  fst res = w /\
  exists msg, snd res = [(ToSocket sock, bet_error msg)]
              \/ snd res = [(ToSocket sock, bet_error_text msg)].

(** All bet ids present in the wager index, with repetitions. *)
Definition indexIds (index : BetIndex) : list Z :=
  concat (map (fun entry => map ab_id (snd entry)) index).

Definition sumAmounts (bets : list TrackedBet) : Z :=
  fold_right (fun b acc => tb_amount b + acc) 0 bets.

(** The room and the manager as the constructor builds them, over a
    database with no rows. *)
Definition emptyDatabase : Database := mkDatabase ∅ ∅ ∅ 1 1 1.

Definition initialRoom : GameRoom :=
  mkGameRoom "GLOBAL" [] waiting 999999 None 30 None None (Some []) (Some 1)
             (Some (mkHouseStats 0 0 0 0 0)).

Definition initialWorld : World :=
  mkWorld (mkGameManager initialRoom ∅ ∅ ∅ ∅ ∅) emptyDatabase.

(** The bets of the wager index, in iteration order. *)
Definition allBets (room : GameRoom) : list ActiveBet :=
  match activeBets room with
  | Some index => concat (map snd index)
  | None => []
  end.

(** What [handlePlaceBet] guarantees of a bet it accepts: an enumerated type
    and a positive stake. *)
Definition admissibleBet (b : ActiveBet) : Prop :=
  includes validBetTypes (ab_betType b) = true /\ 0 < ab_betAmount b.

(** The example round of the specification: 100 on low and 50 on red. *)
Definition exampleRoom : GameRoom :=
  mkGameRoom "GLOBAL" [] countdown 999999 None 10 (Some 1700000000000) (Some 1)
             (Some [("s1", [mkActiveBet 1 "low" 100]); ("s2", [mkActiveBet 2 "red" 50])])
             (Some 1) (Some (mkHouseStats 0 0 0 0 0)).

(** A payload does not leak: if the room it carries is in [countdown], it
    discloses no card. *)
Definition leakFree (p : Payload) : Prop :=
  forall room, payloadRoom p = Some room -> status room = countdown ->
               payloadCards p = [].

(** The bet id of a recorded [storage.resolveBet(id, won, winAmount)] call. *)
Definition callId (c : Z * bool * Z) : Z := fst (fst c).

(** The account a bet row belongs to. *)
Definition owner (db : Database) (id : Z) : option Z :=
  playerId <$> bets_table db !! id.

(** What [resolveBet] adds to the owner's chips for a call. *)
Definition creditOf (c : Z * bool * Z) : Z :=
  if snd (fst c) && (0 <? snd c) then snd c else 0.

(** The calls that concern the bets of account [p]. *)
Definition callsOf (db : Database) (p : Z) (calls : list (Z * bool * Z))
    : list (Z * bool * Z) :=
  filter (fun c => owner db (callId c) = Some p) calls.

Definition sumZ (l : list Z) : Z := foldr Z.add 0 l.

(** The wager index as the settlement loop walks it. *)
Definition flatBets (index : BetIndex) : list (string * ActiveBet) :=
  concat (map (fun entry => map (pair (fst entry)) (snd entry)) index).

(** The settlement guard of [resolveBets] passes. *)
Definition settlementReady (room : GameRoom) : Prop :=
  is_Some (activeBets room) /\ is_Some (currentCard room)
  /\ is_Some (houseStats room) /\ truthy (currentGameId room) = true.


(** The loop invariant of [resolveBets], relative to the database [db0] the
    settlement started from. *)
Definition settleInv (db0 : Database) (acc : Settlement) : Prop :=
  NoDup (map callId (resolveCalls acc))
  /\ (forall id, id ∈ processedBetIds acc <-> id ∈ map callId (resolveCalls acc))
  /\ (forall id, owner (settled_db acc) id = owner db0 id)
  /\ (forall p row,
         players_table db0 !! p = Some row ->
         exists row',
           players_table (settled_db acc) !! p = Some row'
           /\ totalWins row' + totalLosses row'
              = totalWins row + totalLosses row
                + Z.of_nat (length (callsOf db0 p (resolveCalls acc)))
           /\ chips row'
              = chips row + sumZ (map creditOf (callsOf db0 p (resolveCalls acc)))).

(** The filter applied by [handlePlayerAuth] to the bets of one entry. *)
Definition notRestored (ids : gset Z) (bets : list ActiveBet) : list ActiveBet :=
  List.filter (fun bet => negb (bool_decide (ab_id bet ∈ ids))) bets.

(** The index [removeStale] computes, entry by entry: each entry keeps the
    bets that are not being restored, and is dropped when none is left. *)
Definition withoutRestored (ids : gset Z) (index : BetIndex) : BetIndex :=
  flat_map (fun entry =>
              match notRestored ids (snd entry) with
              | [] => []
              | kept => [(fst entry, kept)]
              end)
           index.

(** ** Concrete rounds used in the examples *)

Definition entropy0 : Rng := fun _ => 0.
Definition hash0 : Z -> N := fun _ => 0%N.

Definition annRow (balance losses : Z) : PlayerRow :=
  mkPlayerRow 1 7 "s1" "ann" balance 0 losses 0.

Definition annPlayer (balance : Z) : Player :=
  mkPlayer "s1" "ann" "s1" (Some balance) (Some 1).

Definition noHouseStats : HouseStats := mkHouseStats 0 0 0 0 0.

(** A server with one registered account holding 1000 chips and no round yet. *)
Definition seedWorld : World :=
  mkWorld (mkGameManager initialRoom ∅ ∅ ∅ ∅ ∅)
          (mkDatabase {[ 1 := annRow 1000 0 ]} ∅ ∅ 2 1 1).

(** The round starts, the account joins on socket s1, authenticates and
    stakes 50 on red; then 25 seconds pass. *)
Definition betThenWait : list Input :=
  [ start_timer 1000; join_room "s1"; update_player_auth "s1" 7 "ann";
    place_bet "s1" "red" None 50 ] ++ repeat (interval_tick entropy0) 25.

(** The world reached by [betThenWait]: countdown, 5 seconds left (betting
    closed for 5 seconds, the card already drawn), one unlocked wager. *)
Definition closedWindowWorld : World :=
  mkWorld
    (mkGameManager
       (mkGameRoom "GLOBAL" [annPlayer 950] countdown 999999
                   (Some (mkCard 1 spades black false)) 5 (Some 1000) (Some 1)
                   (Some [("s1", [mkActiveBet 1 "red" 50])]) (Some 1)
                   (Some noHouseStats))
       {[ "s1" := "GLOBAL" ]} {[ "GLOBAL" ]} ∅ ∅
       {[ "s1" := [mkTrackedBet "red" 50 1] ]})
    (mkDatabase {[ 1 := annRow 950 0 ]}
                {[ 1 := mkBetRow 1 1 1 50 "red" None false 0 ]}
                {[ 1 := mkGameRow 1 "GLOBAL" 0 red 0 0 "in_progress" ]}
                2 2 2).

(** Five seconds later: the card is revealed and the wager settled as lost;
    the unlocked partition still lists it. *)
Definition settledWorld : World :=
  mkWorld
    (mkGameManager
       (mkGameRoom "GLOBAL" [annPlayer 950] playing 999999
                   (Some (mkCard 1 spades black true)) 0 (Some 1000) (Some 1)
                   (Some []) (Some 1)
                   (Some (mkHouseStats 50 0 50 50 1)))
       {[ "s1" := "GLOBAL" ]} ∅ ∅ ∅
       {[ "s1" := [mkTrackedBet "red" 50 1] ]})
    (mkDatabase {[ 1 := annRow 950 1 ]}
                {[ 1 := mkBetRow 1 1 1 50 "red" None false 0 ]}
                {[ 1 := mkGameRow 1 "GLOBAL" 1 black 0 0 "completed" ]}
                2 2 2).

(** Countdown expired with no card materialized and one wager pending. *)
Definition noCardWorld : World :=
  mkWorld
    (mkGameManager
       (mkGameRoom "GLOBAL" [annPlayer 950] countdown 999999
                   None 0 (Some 1000) (Some 1)
                   (Some [("s1", [mkActiveBet 1 "red" 50])]) (Some 1)
                   (Some noHouseStats))
       {[ "s1" := "GLOBAL" ]} ∅ ∅ ∅
       {[ "s1" := [mkTrackedBet "red" 50 1] ]})
    (mkDatabase {[ 1 := annRow 950 0 ]}
                {[ 1 := mkBetRow 1 1 1 50 "red" None false 0 ]}
                {[ 1 := mkGameRow 1 "GLOBAL" 0 red 0 0 "in_progress" ]}
                2 2 2).

(** The reading of "a fallback outcome is synthesized and the round still
    resolved" on [revealCard]: started with no card, it ends with a non-7
    card revealed, the round in [playing] and the wager index settled. *)
Definition revealsWithFallback (g : Rng) (w : World) : Prop :=
  currentCard (globalRoom (manager w)) = None ->
  let w' := fst (revealCard g w) in
  exists c, currentCard (globalRoom (manager w')) = Some c
            /\ number c <> 7
            /\ status (globalRoom (manager w')) = playing
            /\ activeBets (globalRoom (manager w')) = Some [].


(** Place 50 on red, then disconnect before locking, then let the round
    run to its reveal. *)
Definition betThenLeave : list Input :=
  [ start_timer 1000; join_room "s1"; update_player_auth "s1" 7 "ann";
    place_bet "s1" "red" None 50; disconnect "s1" ]
  ++ repeat (interval_tick entropy0) 30.

(** Place three wagers, lock them, disconnect, come back on socket s2 and
    authenticate again; then the round runs to its reveal. *)
Definition lockLeaveReturn : list Input :=
  [ start_timer 1000; join_room "s1"; update_player_auth "s1" 7 "ann";
    place_bet "s1" "red" None 50; place_bet "s1" "low" None 100;
    place_bet "s1" "lucky7" None 10; lock_bet "s1"; disconnect "s1";
    join_room "s2"; update_player_auth "s2" 7 "ann" ].

(** ** Administrative operations *)

(** [updatePlayerFunds]: the balance is read from the first row of the
    user, the update is keyed on [user_id] like the upsert above, and
    [result[0]] is the image of the row that was read. *)
Definition updatePlayerFunds (db : Database) (uid : Z) (chipsToAdd : Z)
    : Result (Database * PlayerRow) :=
  match getPlayerByUserId db uid with
  | None => Throw "Player not found"
  | Some player =>
      let newChips := chips player + chipsToAdd in
      if newChips <? 0 then Throw "Cannot reduce chips below zero"
      else
        let touch := fun p =>
          if bool_decide (userId p = uid) then set_chips p newChips else p in
        Ok (with_players db (touch <$> players_table db), touch player)
  end.

(** The [betsByType] object literal of the administrative views. *)
Record BetsByType := mkBetsByType {
  bt_red : Z;
  bt_black : Z;
  bt_low : Z;
  bt_high : Z;
  bt_lucky7 : Z
}.

(** [if (betsByType.hasOwnProperty(bet.betType)) betsByType[bet.betType] += bet.betAmount] *)
Definition addToType (t : BetsByType) (ty : string) (a : Z) : BetsByType :=
  if negb (includes ["red"; "black"; "low"; "high"; "lucky7"] ty) then t
  else if String.eqb ty "red" then
    mkBetsByType (bt_red t + a) (bt_black t) (bt_low t) (bt_high t) (bt_lucky7 t)
  else if String.eqb ty "black" then
    mkBetsByType (bt_red t) (bt_black t + a) (bt_low t) (bt_high t) (bt_lucky7 t)
  else if String.eqb ty "low" then
    mkBetsByType (bt_red t) (bt_black t) (bt_low t + a) (bt_high t) (bt_lucky7 t)
  else if String.eqb ty "high" then
    mkBetsByType (bt_red t) (bt_black t) (bt_low t) (bt_high t + a) (bt_lucky7 t)
  else
    mkBetsByType (bt_red t) (bt_black t) (bt_low t) (bt_high t) (bt_lucky7 t + a).

(** [getLastCompletedGameBettingStats].  Rows carry no timestamp here: the
    most recent completed game is the one with the greatest serial id. *)
Definition getLastCompletedGameBettingStats (db : Database) (roomId : string)
    : option (Z * BetsByType) :=
  let completed :=
    List.filter (fun g => String.eqb (game_roomId g) roomId
                          && String.eqb (game_status g) "completed")
                (map snd (map_to_list (games_table db))) in
  match completed with
  | [] => None
  | g0 :: rest =>
      let latestGame :=
        fold_left (fun best g => if game_id best <? game_id g then g else best)
                  rest g0 in
      let gameBets :=
        List.filter (fun b => gameId b =? game_id latestGame)
                    (map snd (map_to_list (bets_table db))) in
      Some (fold_left
              (fun '(total, byType) b =>
                 (total + betAmount b, addToType byType (betType b) (betAmount b)))
              gameBets (0, mkBetsByType 0 0 0 0 0))
  end.

(** The object returned by [getCurrentRoundData]. *)
Record RoundData := mkRoundData {
  rd_gameId : Z;
  rd_totalBets : Z;
  rd_betsByType : BetsByType;
  rd_status : Status;
  rd_timeRemaining : option Z;
  rd_dataSource : string;
  rd_currentCard : option Card
}.

(** [getCurrentRoundData]; [None] is [null]. *)
Definition getCurrentRoundData (w : World) : option RoundData :=
  let room := globalRoom (manager w) in
  if negb (truthy (currentGameId room)) then None
  else
    let '(totalBets0, betsByType0) :=
      match activeBets room with
      | Some index =>
          fold_left
            (fun acc entry =>
               fold_left
                 (fun '(total, byType) bet =>
                    (total + ab_betAmount bet,
                     addToType byType (ab_betType bet) (ab_betAmount bet)))
                 (snd entry) acc)
            index (0, mkBetsByType 0 0 0 0 0)
      | None => (0, mkBetsByType 0 0 0 0 0)
      end in
    let '(totalBets1, betsByType1, dataSource) :=
      if (totalBets0 =? 0) && Status_eqb (status room) finished then
        match getLastCompletedGameBettingStats (storage w) (room_id room) with
        | Some (total, byType) => (total, byType, "last")
        | None => (totalBets0, betsByType0, "current")
        end
      else (totalBets0, betsByType0, "current") in
    let currentCard1 :=
      match currentCard room with
      | Some c =>
          if Status_eqb (status room) countdown || Status_eqb (status room) playing
          then Some (mkCard (number c) (suit c) (color c) (revealed c))
          else None
      | None => None
      end in
    Some (mkRoundData (orZero (currentGameId room)) totalBets1 betsByType1
                      (status room)
                      (if Status_eqb (status room) countdown
                       then Some (countdownTime room) else None)
                      dataSource currentCard1).

(** ** Betting history *)

(** A row of the combined bet list of [getAllPlayerBetsWithBalance], reduced
    to the columns the balance progression reads. *)
Record HistoryBet := mkHistoryBet {
  hb_betAmount : Z;
  hb_won : bool;
  hb_winAmount : Z
}.

Record HistoryEntry := mkHistoryEntry {
  he_bet : HistoryBet;
  balanceAfter : Z;
  profitLoss : Z
}.

(** The balance progression of [getAllPlayerBetsWithBalance]: the [map] over
    [allBets] (newest first) that threads [currentBalance], starting from
    the player's chips.  The queries producing [allBets] are not modelled. *)
Definition betsWithBalance (playerChips : Z) (allBets : list HistoryBet)
    : list HistoryEntry :=
  snd (fold_left
         (fun '(currentBalance, out) bet =>
            let balanceAfterBet := currentBalance in
            let currentBalance' :=
              if hb_won bet
              then currentBalance + hb_betAmount bet - hb_winAmount bet
              else currentBalance + hb_betAmount bet in
            (currentBalance',
             out ++ [mkHistoryEntry bet balanceAfterBet
                       (if hb_won bet then hb_winAmount bet - hb_betAmount bet
                        else - hb_betAmount bet)]))
         allBets (playerChips, [])).

(** ** The player's client: the betting panel of the [GameRoom] component *)

Module Client.

(** The pieces of component state the betting panel reads. *)
Record Panel := mkPanel {
  gameStatus : string;
  countdownTime : Z;
  playerChips : Z;
  totalBetAmount : Z;
  selectedBetType : string;
  selectedAmount : Z
}.

(** An element of [currentBets]; [betId] is filled in by [bet-placed]. *)
Record Bet := mkBet {
  type : string;
  value : string;
  amount : Z;
  betId : option Z
}.

Record BetResult := mkBetResult {
  br_type : string;
  br_value : string;
  br_amount : Z;
  br_won : bool;
  br_winAmount : Z
}.

(** The client's copy of [isBetWinner]. *)
Definition isBetWinner (betType : string) (card : Card) : bool :=
  if String.eqb betType "red" then
    Color_eqb (color card) red && negb (number card =? 7)
  else if String.eqb betType "black" then
    Color_eqb (color card) black && negb (number card =? 7)
  else if String.eqb betType "high" then
    (8 <=? number card)
  else if String.eqb betType "low" then
    (1 <=? number card) && (number card <=? 6)
  else if String.eqb betType "lucky7" then
    (number card =? 7)
  else false.

(** The client's [calculateWinAmount]: [betAmount * (payoutMultipliers[betType] || 0)],
    with no rounding step. *)
Definition calculateWinAmount (betType : string) (betAmount : Z) : Z :=
  betAmount *
  (if String.eqb betType "red" then 2
   else if String.eqb betType "black" then 2
   else if String.eqb betType "high" then 2
   else if String.eqb betType "low" then 2
   else if String.eqb betType "lucky7" then 12
   else 0).

(** [canPlaceBet], as the truth value the button's [disabled] attribute
    takes of it. *)
Definition canPlaceBet (p : Panel) : bool :=
  let availableBalance := playerChips p - totalBetAmount p in
  String.eqb (gameStatus p) "countdown"
  && (10 <? countdownTime p)
  && negb (String.eqb (selectedBetType p) "")
  && (0 <? selectedAmount p)
  && (selectedAmount p <=? availableBalance).

(** [getPlaceBetButtonText] *)
Definition getPlaceBetButtonText (p : Panel) : string :=
  if String.eqb (selectedBetType p) "" then "SELECT BET TYPE"
  else
    let availableBalance := playerChips p - totalBetAmount p in
    if availableBalance <? selectedAmount p then
      "INSUFFICIENT (" +:+ pretty availableBalance +:+ " available)"
    else if negb (String.eqb (gameStatus p) "countdown") || (countdownTime p <=? 10)
    then "BETTING CLOSED"
    else "PLACE BET (" +:+ pretty (selectedAmount p) +:+ ")".

(** [getBettingStatus] *)
Definition getBettingStatus (p : Panel) : string :=
  if String.eqb (gameStatus p) "countdown" && (10 <? countdownTime p)
  then "BETTING OPEN"
  else if String.eqb (gameStatus p) "countdown" && (countdownTime p <=? 10)
  then "BETTING CLOSED"
  else if String.eqb (gameStatus p) "revealed" then "CARD REVEALED"
  else "WAITING".

(** [showBetResults], as the triple it leaves in [showBetResultPopup],
    [betResults] and [totalWinAmount]; [betsToProcess] is the bet list the
    function picked up. *)
Definition showBetResults (card : Card) (betsToProcess : list Bet)
    : bool * list BetResult * Z :=
  if (length betsToProcess =? 0)%nat then (false, [], 0)
  else
    let results :=
      map (fun bet =>
             let won := isBetWinner (type bet) card in
             let winAmount :=
               if won then calculateWinAmount (type bet) (amount bet) else 0 in
             mkBetResult (type bet) (value bet) (amount bet) won winAmount)
          betsToProcess in
    let totalWin := fold_left (fun sum result => sum + br_winAmount result) results 0 in
    let totalBet := fold_left (fun sum result => sum + br_amount result) results 0 in
    if (0 <? length results)%nat && (0 <? totalBet)
    then (true, results, totalWin)
    else (false, [], 0).

End Client.

(** ** Vocabulary of the further statements *)

(** No stored balance is negative. *)
Definition nonnegBalances (db : Database) : Prop :=
  forall id row, players_table db !! id = Some row -> 0 <= chips row.

(** Serial numbers are ahead of every stored row, and rows sit under their
    own id. *)
Definition serialsAhead (db : Database) : Prop :=
  (forall id row, bets_table db !! id = Some row -> bet_id row = id /\ id < bets_serial db)
  /\ (forall id row, games_table db !! id = Some row -> game_id row = id /\ id < games_serial db)
  /\ (forall id row, players_table db !! id = Some row -> row_id row = id /\ id < players_serial db).

(** The running totals of the house ledger agree with each other. *)
Definition ledgerBalanced (room : GameRoom) : Prop :=
  forall h, houseStats room = Some h ->
            houseProfitTotal h = totalWagered h - totalPaidOut h.

(** The [storage.resolveBet] call the settlement loop makes for a bet. *)
Definition callOf (card : Card) (bet : ActiveBet) : Z * bool * Z :=
  let w := isBetWinner (ab_betType bet) card in
  (ab_id bet, w,
   if w then calculateWinAmount (ab_betType bet) (ab_betAmount bet) else 0).

(** What the outcome of a card costs the house, from the selector's
    per-category totals. *)
Definition outcomePayout (t : BetTotals) (c : Card) : Z :=
  (match color c with red => redBetTotal t | black => blackBetTotal t end) * 2
  + (if number c <=? 6 then lowBetTotal t else highBetTotal t) * 2.

(** A tracked bet with an enumerated type and a positive stake. *)
Definition admissibleTracked (b : TrackedBet) : Prop :=
  includes validBetTypes (tb_betType b) = true /\ 0 < tb_amount b.

(** The bets of an optional wager index, in iteration order. *)
Definition indexBets (index : option BetIndex) : list ActiveBet :=
  concat (map snd (default [] index)).

(** Every wager tracked anywhere in the manager has an enumerated type and a
    positive stake. *)
Definition wagersAdmissible (m : GameManager) : Prop :=
  Forall admissibleBet (indexBets (activeBets (globalRoom m)))
  /\ (forall d l, lockedBets m !! d = Some l -> Forall admissibleTracked l)
  /\ (forall s l, unlockedBets m !! s = Some l -> Forall admissibleTracked l).

(** The client's record of a wager held in the server's index. *)
Definition mirror (b : ActiveBet) : Client.Bet :=
  Client.mkBet (ab_betType b) (ab_betType b) (ab_betAmount b) (Some (ab_id b)).

(** The panel state of a client that has seen the room's latest status and
    countdown and the account's chips. *)
Definition panelOf (room : GameRoom) (chips0 pending : Z) (ty : string) (a : Z)
    : Client.Panel :=
  Client.mkPanel
    (match status room with
     | countdown => "countdown"
     | playing => "revealed"
     | _ => "waiting"
     end)
    (countdownTime room) chips0 pending ty a.

(** The part of the state that belongs to the round itself: phase,
    countdown, card, game identity, house ledger, the timer and the pending
    overrides. *)
Definition roundState (w : World) :=
  let m := manager w in
  let r := globalRoom m in
  (status r, countdownTime r, currentCard r, gameStartTime r, currentGameId r,
   roundNumber r, houseStats r, countdownIntervals m, adminOverrides m).

(** The events that originate from a player's socket. *)
Definition playerInput (i : Input) : bool :=
  match i with
  | join_room _ | disconnect _ | update_player_auth _ _ _
  | place_bet _ _ _ _ | lock_bet _ | cancel_bet _ _ => true
  | _ => false
  end.

(** Every game id the manager refers to has already been issued. *)
Definition gameIdsIssued (w : World) : Prop :=
  (forall gid r, adminOverrides (manager w) !! gid = Some r ->
                 gid < games_serial (storage w))
  /\ (forall gid, currentGameId (globalRoom (manager w)) = Some gid ->
                  gid < games_serial (storage w)).

(** The administrative per-type totals and the selector's totals agree. *)
Definition sameTotals (b : BetsByType) (t : BetTotals) : Prop :=
  bt_red b = redBetTotal t /\ bt_black b = blackBetTotal t
  /\ bt_low b = lowBetTotal t /\ bt_high b = highBetTotal t
  /\ bt_lucky7 b = lucky7BetTotal t.

(** * Properties *)

(** ** JavaScript primitives *)

Lemma randomInt_range (lo hi : Z) (g : Rng) :
  lo < hi -> lo <= fst (randomInt lo hi g) < hi.
Proof.
  intros Hlt. unfold randomInt. simpl.
  pose proof (Z.mod_pos_bound (g 0%nat) (hi - lo)). lia.
Qed.

Lemma js_index_elem {A} (arr : list A) (i : Z) (x : A) :
  js_index arr i = Some x -> x ∈ arr.
Proof.
  unfold js_index. destruct (i <? 0); [discriminate|].
  intros H. eapply list_elem_of_lookup_2. exact H.
Qed.

Lemma js_index_in_range {A} (arr : list A) (i : Z) :
  0 <= i < Z.of_nat (length arr) -> exists x, js_index arr i = Some x /\ x ∈ arr.
Proof.
  intros [H0 H1]. unfold js_index.
  destruct (i <? 0) eqn:E; [apply Z.ltb_lt in E; lia|].
  destruct (lookup_lt_is_Some_2 arr (Z.to_nat i)) as [x Hx]; [lia|].
  exists x. split; [exact Hx|]. eapply list_elem_of_lookup_2. exact Hx.
Qed.

(** [arr[crypto.randomInt(0, arr.length)]] on a non-empty array always reads
    an element of the array. *)
Lemma random_element {A} (arr : list A) (g : Rng) :
  arr <> [] ->
  exists x, js_index arr (fst (randomInt 0 (Z.of_nat (length arr)) g)) = Some x
            /\ x ∈ arr.
Proof.
  intros Hne. apply js_index_in_range.
  apply randomInt_range. destruct arr; [congruence|]. simpl. lia.
Qed.

Lemma fold_left_min_le (l : list Z) (a : Z) :
  fold_left Z.min l a <= a /\ Forall (fun x => fold_left Z.min l a <= x) l.
Proof.
  revert a. induction l as [|x l IH]; intros a; simpl.
  - split; [lia|constructor].
  - destruct (IH (Z.min a x)) as [H1 H2]. split; [lia|].
    constructor; [lia|exact H2].
Qed.

Lemma fold_left_min_attained (l : list Z) (a : Z) :
  fold_left Z.min l a = a \/ fold_left Z.min l a ∈ l.
Proof.
  revert a. induction l as [|x l IH]; intros a; simpl.
  - now left.
  - destruct (IH (Z.min a x)) as [H|H].
    + rewrite H. destruct (Z.min_spec a x) as [[_ ->]|[_ ->]].
      * now left.
      * right. constructor.
    + right. now constructor.
Qed.

Lemma Math_min_spec (xs : list Z) (m : Z) :
  Math_min xs = Some m -> m ∈ xs /\ Forall (fun x => m <= x) xs.
Proof.
  destruct xs as [|x rest]; simpl; [discriminate|].
  intros [= <-]. split.
  - destruct (fold_left_min_attained rest x) as [->|H]; [constructor|now constructor].
  - destruct (fold_left_min_le rest x) as [H1 H2]. now constructor.
Qed.

Lemma filter_ext_elem {A} (P Q : A -> Prop)
    `{forall x, Decision (P x)} `{forall x, Decision (Q x)} (l : list A) :
  (forall x, x ∈ l -> P x <-> Q x) -> filter P l = filter Q l.
Proof.
  induction l as [|a l IH]; intros Hext; [reflexivity|].
  rewrite !filter_cons.
  assert (filter P l = filter Q l) as E
    by (apply IH; intros x Hx; apply Hext; now constructor).
  rewrite E.
  destruct (decide (P a)) as [Hp|Hp], (decide (Q a)) as [Hq|Hq]; try reflexivity;
    exfalso; apply (Hext a (list_elem_of_here a l)) in Hp || apply (Hext a (list_elem_of_here a l)) in Hq; contradiction.
Qed.

(** ** Outcome selector *)

Lemma minPayout_Some (t : BetTotals) : exists m, minPayout t = Some m.
Proof. unfold minPayout, outcomes. simpl. eauto. Qed.

Lemma minPayoutOutcomes_spec (t : BetTotals) (o : Outcome) :
  o ∈ minPayoutOutcomes t <->
  o ∈ outcomes t /\ Forall (fun o' => totalPayout o <= totalPayout o') (outcomes t).
Proof.
  unfold minPayoutOutcomes. rewrite list_elem_of_filter.
  destruct (minPayout_Some t) as [m Hm]. rewrite Hm.
  destruct (Math_min_spec _ _ Hm) as [Hin Hall].
  split.
  - intros [[= ->] Ho]. split; [exact Ho|].
    apply Forall_forall. intros o' Ho'.
    apply (proj1 (Forall_forall _ _) Hall).
    apply list_elem_of_In, in_map, list_elem_of_In, Ho'.
  - intros [Ho Hmin]. split; [|exact Ho]. f_equal.
    apply list_elem_of_In, in_map_iff in Hin. destruct Hin as (om & Hom & Hin).
    pose proof (proj1 (Forall_forall _ _) Hmin) as Hmin'.
    pose proof (proj1 (Forall_forall _ _) Hall) as Hall'.
    assert (totalPayout o <= m) by (rewrite <- Hom; apply Hmin', list_elem_of_In, Hin).
    assert (m <= totalPayout o)
      by (apply Hall', list_elem_of_In, in_map, list_elem_of_In, Ho).
    lia.
Qed.

Lemma minPayoutOutcomes_nonempty (t : BetTotals) : minPayoutOutcomes t <> [].
Proof.
  destruct (minPayout_Some t) as [m Hm].
  destruct (Math_min_spec _ _ Hm) as [Hin Hall].
  apply list_elem_of_In, in_map_iff in Hin. destruct Hin as (om & Hom & Hin).
  assert (om ∈ minPayoutOutcomes t) as Hmem.
  { unfold minPayoutOutcomes. apply list_elem_of_filter.
    split; [congruence|now apply list_elem_of_In]. }
  intros E. rewrite E in Hmem. inversion Hmem.
Qed.

Arguments js_index {A} arr i : simpl never.

(** Reads [arr[i]] for an index that the goal shows to be [_ mod n]. *)
Ltac read_random_element x Hin :=
  match goal with
  | |- context [js_index ?arr ?i] =>
      match i with
      | context [?a mod ?n] =>
          let Hx := fresh "Hx" in
          destruct (js_index_in_range arr i) as (x & Hx & Hin);
          [ pose proof (Z.mod_pos_bound a n ltac:(simpl; lia)); simpl; lia
          | rewrite Hx; simpl ]
      end
  end.

Section OutcomeSelectorFacts.

Variable sha256_u32 : Z -> N.

(** The tie-breaker always reads an element of the tie-set: in both branches
    the index is [hash mod size], which is in range. *)
Lemma selectedOutcome_index (room : GameRoom) :
  let tied := minPayoutOutcomes (betTotals room) in
  selectedOutcome sha256_u32 room =
    tied !! Z.to_nat (Z.of_N (sha256_u32 (tieBreakSeed room)) mod Z.of_nat (length tied))
  /\ exists o, selectedOutcome sha256_u32 room = Some o /\ o ∈ tied.
Proof.
  intros tied.
  pose proof (minPayoutOutcomes_nonempty (betTotals room)) as Hne. fold tied in Hne.
  assert (0 < Z.of_nat (length tied)) as Hlen by (destruct tied; [congruence|simpl; lia]).
  set (h := Z.of_N (sha256_u32 (tieBreakSeed room))).
  assert (0 <= h) as Hh by (unfold h; lia).
  assert (selectedOutcome sha256_u32 room = tied !! Z.to_nat (h mod Z.of_nat (length tied))) as E.
  { unfold selectedOutcome. fold tied. fold h.
    destruct (Z.of_nat (length tied) =? 1) eqn:E1.
    - apply Z.eqb_eq in E1. rewrite E1, Z.mod_1_r. reflexivity.
    - rewrite Z.rem_mod_nonneg by lia. unfold js_index.
      pose proof (Z.mod_pos_bound h _ Hlen).
      destruct (h mod Z.of_nat (length tied) <? 0) eqn:E2; [apply Z.ltb_lt in E2; lia|].
      reflexivity. }
  split; [exact E|]. rewrite E.
  pose proof (Z.mod_pos_bound h _ Hlen).
  destruct (lookup_lt_is_Some_2 tied (Z.to_nat (h mod Z.of_nat (length tied)))) as [o Ho]; [lia|].
  exists o. split; [exact Ho|]. eapply list_elem_of_lookup_2; exact Ho.
Qed.

Lemma outcomes_validNumbers (t : BetTotals) (o : Outcome) :
  o ∈ outcomes t ->
  (outcome_color o = red /\ validNumbers o = [1; 2; 3; 4; 5; 6]) \/
  (outcome_color o = red /\ validNumbers o = [8; 9; 10; 11; 12; 13]) \/
  (outcome_color o = black /\ validNumbers o = [1; 2; 3; 4; 5; 6]) \/
  (outcome_color o = black /\ validNumbers o = [8; 9; 10; 11; 12; 13]).
Proof.
  unfold outcomes. rewrite !elem_of_cons, elem_of_nil.
  intros [->|[->|[->|[->|[]]]]]; simpl; tauto.
Qed.

Lemma not_seven_in (n : Z) (l : list Z) :
  n ∈ l -> Forall (fun x => x <> 7) l -> n <> 7.
Proof. intros Hin Hall. exact (proj1 (Forall_forall _ _) Hall n Hin). Qed.

(** [generateSmartCard] always produces a card; its number is one of the
    valid numbers of the branch taken, its colour agrees with its suit and it
    is not yet revealed. *)
Lemma generateSmartCard_card (room : GameRoom) (g : Rng) :
  exists c, generateSmartCard sha256_u32 room g = Some c
    /\ number c ∈ [1; 2; 3; 4; 5; 6; 8; 9; 10; 11; 12; 13]
    /\ color c = colorOfSuit (suit c)
    /\ revealed c = false
    /\ (totalBets (betTotals room) <> 0 ->
        exists o, selectedOutcome sha256_u32 room = Some o
                  /\ number c ∈ validNumbers o /\ color c = outcome_color o).
Proof.
  unfold generateSmartCard, randomInt.
  destruct (totalBets (betTotals room) =? 0) eqn:Etot.
  - apply Z.eqb_eq in Etot. simpl.
    read_random_element s Hs. read_random_element n Hn.
    eexists. split; [reflexivity|]. simpl. repeat split; auto.
    intros; contradiction.
  - destruct (selectedOutcome_index room) as (_ & o & Ho & Hin).
    rewrite Ho. simpl.
    apply minPayoutOutcomes_spec in Hin. destruct Hin as [Hin _].
    assert (forall s, s ∈ [hearts; diamonds] -> red = colorOfSuit s) as Hred.
    { intros s. rewrite !elem_of_cons, elem_of_nil. intros [->|[->|[]]]; reflexivity. }
    assert (forall s, s ∈ [spades; clubs] -> black = colorOfSuit s) as Hblack.
    { intros s. rewrite !elem_of_cons, elem_of_nil. intros [->|[->|[]]]; reflexivity. }
    destruct (outcomes_validNumbers _ _ Hin) as [[Ec Ev]|[[Ec Ev]|[[Ec Ev]|[Ec Ev]]]];
      rewrite Ev, Ec; simpl;
      read_random_element n Hn; read_random_element s Hs;
      (eexists; split; [reflexivity|]; simpl; repeat split; auto;
       [ repeat match goal with H : _ ∈ _ |- _ => apply list_elem_of_In in H; simpl in H end;
         apply list_elem_of_In; simpl; tauto
       | intros _; exists o; rewrite Ev, Ec; auto ]).
Qed.

End OutcomeSelectorFacts.

Lemma generateCardForResult_card (result : string) (g : Rng) :
  exists c, generateCardForResult result g = Some c
    /\ (number c = 7 <-> result = "lucky7")
    /\ 1 <= number c <= 13
    /\ revealed c = false.
Proof.
  unfold generateCardForResult, randomInt.
  assert (forall n : Z, n ∈ [1; 2; 3; 4; 5; 6; 8; 9; 10; 11; 12; 13] -> n <> 7 /\ 1 <= n <= 13) as H12.
  { intros n Hn. apply list_elem_of_In in Hn. simpl in Hn. lia. }
  simpl.
  destruct (String.eqb result "red") eqn:Ered.
  { apply String.eqb_eq in Ered. subst result.
    read_random_element x Hx. read_random_element y Hy.
    eexists. split; [reflexivity|]. simpl.
    match goal with H : ?n ∈ _ :: _ :: _ :: _ :: _ :: _ |- _ => destruct (H12 n H) end.
    repeat split; try lia; try discriminate. }
  destruct (String.eqb result "black") eqn:Eblack.
  { apply String.eqb_eq in Eblack. subst result.
    read_random_element x Hx. read_random_element y Hy.
    eexists. split; [reflexivity|]. simpl.
    match goal with H : ?n ∈ _ :: _ :: _ :: _ :: _ :: _ |- _ => destruct (H12 n H) end.
    repeat split; try lia; try discriminate. }
  read_random_element s Hs.
  destruct (String.eqb result "low") eqn:Elow.
  { apply String.eqb_eq in Elow. subst result.
    eexists. split; [reflexivity|]. simpl.
    pose proof (Z.mod_pos_bound (g 1%nat) (7 - 1) ltac:(lia)).
    repeat split; try lia; try discriminate. }
  destruct (String.eqb result "high") eqn:Ehigh.
  { apply String.eqb_eq in Ehigh. subst result.
    eexists. split; [reflexivity|]. simpl.
    pose proof (Z.mod_pos_bound (g 1%nat) (14 - 8) ltac:(lia)).
    repeat split; try lia; try discriminate. }
  destruct (String.eqb result "lucky7") eqn:Elucky.
  { apply String.eqb_eq in Elucky. subst result.
    eexists. split; [reflexivity|]. simpl. repeat split; auto; lia. }
  apply String.eqb_neq in Elucky.
  eexists. split; [reflexivity|]. simpl.
  pose proof (Z.mod_pos_bound (g 1%nat) (7 - 1) ltac:(lia)).
  repeat split; try lia; try contradiction.
Qed.

Lemma resolveBets_card (w : World) :
  currentCard (globalRoom (manager (fst (resolveBets w))))
  = currentCard (globalRoom (manager w)).
Proof. unfold resolveBets. repeat case_match; simpl; congruence. Qed.

Lemma countdownTick_never_stores_seven sha256_u32 (w : World) (g : Rng) (c : Card) :
  currentCard (globalRoom (manager w)) = None ->
  currentCard (globalRoom (manager (fst (countdownTick sha256_u32 g w)))) = Some c ->
  number c <> 7.
Proof.
  intros Hnone. unfold countdownTick. cbv zeta.
  destruct (negb (bool_decide ("GLOBAL" ∈ countdownIntervals (manager w))));
    [cbn [fst]; congruence|].
  set (room1 := with_countdownTime (globalRoom (manager w)) _).
  assert (currentCard room1 = None) as Hcard1 by exact Hnone. rewrite Hcard1.
  destruct (countdownTime room1 =? 10) eqn:Hten.
  - apply Z.eqb_eq in Hten.
    destruct (generateSmartCard_card sha256_u32 room1 g) as (c1 & Hc1 & Hn & _).
    rewrite Hc1.
    assert (countdownTime (with_card room1 (Some c1)) = 10) as -> by exact Hten.
    change (10 <=? 0) with false. cbn iota. cbn [fst manager globalRoom with_room].
    intros [= <-]. apply list_elem_of_In in Hn. simpl in Hn. lia.
  - destruct (countdownTime room1 <=? 0).
    + match goal with |- context [revealCard g ?x] =>
        pose proof (C := eq_refl (revealCard g x)); unfold revealCard at 2 in C end.
      cbn [manager globalRoom] in C. rewrite Hcard1 in C.
      rewrite C. cbn [fst manager globalRoom]. congruence.
    + cbn [fst manager globalRoom with_room]. congruence.
Qed.

Lemma revealCard_seven_needs_override (w : World) (g : Rng) (c0 c : Card) :
  currentCard (globalRoom (manager w)) = Some c0 -> number c0 <> 7 ->
  currentCard (globalRoom (manager (fst (revealCard g w)))) = Some c ->
  number c = 7 ->
  exists gid, currentGameId (globalRoom (manager w)) = Some gid
              /\ adminOverrides (manager w) !! gid = Some "lucky7".
Proof.
  intros Hcard Hn0. unfold revealCard. cbv zeta. rewrite Hcard.
  destruct (currentGameId (globalRoom (manager w))) as [gid|] eqn:Hgid.
  - destruct (truthy (Some gid)) eqn:Htruthy.
    + destruct (adminOverrides (manager w) !! gid) as [result|] eqn:Hover.
      * destruct (generateCardForResult_card result g) as (c1 & Hc1 & H7 & _).
        rewrite Hc1.
        match goal with |- context [resolveBets ?x] =>
          pose proof (resolveBets_card x) as Hrc; destruct (resolveBets x) as [w2 calls] end.
        cbn [fst snd manager globalRoom with_card currentCard] in *.
        rewrite Hrc. intros [= <-] H. simpl in H. apply H7 in H. subst result. eauto.
      * match goal with |- context [resolveBets ?x] =>
          pose proof (resolveBets_card x) as Hrc; destruct (resolveBets x) as [w2 calls] end.
        cbn [fst snd manager globalRoom with_card currentCard] in *.
        rewrite Hrc. intros [= <-] H. simpl in H. contradiction.
    + match goal with |- context [resolveBets ?x] =>
        pose proof (resolveBets_card x) as Hrc; destruct (resolveBets x) as [w2 calls] end.
      cbn [fst snd manager globalRoom with_card currentCard] in *.
      rewrite Hrc. intros [= <-] H. simpl in H. contradiction.
  - match goal with |- context [resolveBets ?x] =>
      pose proof (resolveBets_card x) as Hrc; destruct (resolveBets x) as [w2 calls] end.
    cbn [fst snd manager globalRoom with_card currentCard] in *.
    rewrite Hrc. intros [= <-] H. simpl in H. contradiction.
Qed.


(** C1. For every state of the pending wagers and every draw of the random
    source, [generateSmartCard] returns a card and its number is never 7, in
    the branch without wagers and in the payout-minimizing branch alike;
    [generateCardForResult] returns number 7 exactly when the override result
    is 'lucky7'.  In the engine, a countdown tick never stores a 7, and
    [revealCard] turns a non-7 card into a 7 only when an override 'lucky7'
    is registered for the current game. *)
Theorem C1_automatic_selection_never_seven (sha256_u32 : Z -> N) :
  (forall (room : GameRoom) (g : Rng),
      exists c, generateSmartCard sha256_u32 room g = Some c /\ number c <> 7) /\
  (forall (result : string) (g : Rng),
      exists c, generateCardForResult result g = Some c
                /\ (number c = 7 <-> result = "lucky7")) /\
  (forall (w : World) (g : Rng) (c : Card),
      currentCard (globalRoom (manager w)) = None ->
      currentCard (globalRoom (manager (fst (countdownTick sha256_u32 g w)))) = Some c ->
      number c <> 7) /\
  (forall (w : World) (g : Rng) (c0 c : Card),
      currentCard (globalRoom (manager w)) = Some c0 -> number c0 <> 7 ->
      currentCard (globalRoom (manager (fst (revealCard g w)))) = Some c ->
      number c = 7 ->
      exists gid, currentGameId (globalRoom (manager w)) = Some gid
                  /\ adminOverrides (manager w) !! gid = Some "lucky7").
Proof.
  split; [|split; [|split]].
  3: exact (countdownTick_never_stores_seven sha256_u32).
  3: exact revealCard_seven_needs_override.
  - intros room g.
    destruct (generateSmartCard_card sha256_u32 room g) as (c & Hc & Hn & _).
    exists c. split; [exact Hc|].
    apply list_elem_of_In in Hn. simpl in Hn. lia.
  - intros result g.
    destruct (generateCardForResult_card result g) as (c & Hc & H7 & _).
    exists c. auto.
Qed.

(** ** Stakes and the no-wager test *)

Lemma betTotals_flat (index : BetIndex) (t : BetTotals) :
  fold_left (fun t entry => fold_left addBetTotal (snd entry) t) index t
  = fold_left addBetTotal (concat (map snd index)) t.
Proof.
  revert t. induction index as [|e index IH]; intros t; simpl; [reflexivity|].
  rewrite fold_left_app. apply IH.
Qed.

Lemma totalBets_addBetTotal (t : BetTotals) (b : ActiveBet) :
  admissibleBet b -> totalBets (addBetTotal t b) = totalBets t + ab_betAmount b.
Proof.
  intros [Hty _]. unfold addBetTotal, totalBets.
  unfold includes, validBetTypes in Hty. simpl in Hty.
  destruct (String.eqb (ab_betType b) "low"); simpl; [lia|].
  destruct (String.eqb (ab_betType b) "high"); simpl; [lia|].
  destruct (String.eqb (ab_betType b) "lucky7"); simpl; [lia|].
  destruct (String.eqb (ab_betType b) "red"); simpl; [lia|].
  destruct (String.eqb (ab_betType b) "black"); simpl; [lia|].
  simpl in Hty. discriminate.
Qed.

Lemma totalBets_fold (bets : list ActiveBet) (t : BetTotals) :
  Forall admissibleBet bets ->
  totalBets t <= totalBets (fold_left addBetTotal bets t)
  /\ (bets <> [] -> totalBets t < totalBets (fold_left addBetTotal bets t)).
Proof.
  intros Hall. revert t. induction Hall as [|b bets Hb Hall IH]; intros t; simpl.
  - split; [lia|congruence].
  - destruct (IH (addBetTotal t b)) as [Hle _].
    rewrite (totalBets_addBetTotal t b Hb) in Hle.
    destruct Hb as [_ Hpos]. split; [lia|intros _; lia].
Qed.

(** With at least one accepted wager in the index the source's test
    [totalBets === 0] fails, so the payout-minimizing branch runs. *)
Lemma pending_wagers_totalBets (room : GameRoom) :
  Forall admissibleBet (allBets room) -> allBets room <> [] ->
  totalBets (betTotals room) <> 0.
Proof.
  intros Hall Hne. unfold betTotals, allBets in *.
  destruct (activeBets room) as [index|]; [|congruence].
  rewrite betTotals_flat.
  destruct (totalBets_fold _ (mkBetTotals 0 0 0 0 0) Hall) as [_ Hlt].
  specialize (Hlt Hne). unfold totalBets in Hlt at 1. simpl in Hlt. lia.
Qed.

(** C2. With at least one accepted wager pending, the selected category is
    one of exactly four, with payouts 2*(red+low), 2*(red+high),
    2*(black+low), 2*(black+high); its payout is minimal among them; it is
    the element of the tie-set (the minimal categories in their listed order)
    at index hash(currentGameId + gameStartTime) modulo the size of the
    tie-set; the generated card lies in it whatever the random draws are, so
    identical inputs give the same category; and stakes low 100, high 0,
    red 50 select black-high. *)
Theorem C2_minimum_payout_selection (sha256_u32 : Z -> N) (room : GameRoom) :
  Forall admissibleBet (allBets room) -> allBets room <> [] ->
  let t := betTotals room in
  map (fun o => (outcome_type o, totalPayout o)) (outcomes t)
    = [ ("red-low", 2 * (redBetTotal t + lowBetTotal t));
        ("red-high", 2 * (redBetTotal t + highBetTotal t));
        ("black-low", 2 * (blackBetTotal t + lowBetTotal t));
        ("black-high", 2 * (blackBetTotal t + highBetTotal t)) ]
  /\ minPayoutOutcomes t
     = filter (fun o => Forall (fun o' => totalPayout o <= totalPayout o') (outcomes t))
              (outcomes t)
  /\ (exists o,
        selectedOutcome sha256_u32 room = Some o
        /\ o ∈ outcomes t
        /\ Forall (fun o' => totalPayout o <= totalPayout o') (outcomes t)
        /\ minPayoutOutcomes t
             !! Z.to_nat (Z.of_N (sha256_u32 (orZero (currentGameId room)
                                              + orZero (gameStartTime room)))
                          mod Z.of_nat (length (minPayoutOutcomes t)))
           = Some o
        /\ forall g : Rng,
             exists c, generateSmartCard sha256_u32 room g = Some c
                       /\ color c = outcome_color o /\ number c ∈ validNumbers o)
  /\ (t = mkBetTotals 100 0 0 50 0 ->
      outcome_type <$> selectedOutcome sha256_u32 room = Some "black-high").
Proof.
  intros Hall Hne t.
  pose proof (pending_wagers_totalBets room Hall Hne) as Htot. fold t in Htot.
  split; [|split; [|split]].
  - unfold outcomes. simpl. repeat f_equal; lia.
  - unfold minPayoutOutcomes. apply filter_ext_elem. intros o Ho.
    pose proof (minPayoutOutcomes_spec t o) as Hspec.
    unfold minPayoutOutcomes in Hspec. rewrite list_elem_of_filter in Hspec.
    tauto.
  - destruct (selectedOutcome_index sha256_u32 room) as (Eidx & o & Ho & Hin).
    fold t in Eidx, Hin.
    pose proof (proj1 (minPayoutOutcomes_spec t o) Hin) as [Hin' Hmin].
    exists o. repeat split; auto.
    + rewrite <- Ho, Eidx. reflexivity.
    + intros g.
      destruct (generateSmartCard_card sha256_u32 room g) as (c & Hc & _ & _ & _ & Hsel).
      destruct (Hsel Htot) as (o' & Ho' & Hnum & Hcol).
      assert (o' = o) by congruence. subst o'.
      exists c. auto.
  - intros Et. unfold selectedOutcome. fold t. rewrite Et. reflexivity.
Qed.

(** ** Win condition *)

Lemma roundToCents_integer (amount : Z) : roundToCents amount = amount.
Proof. unfold roundToCents. apply Z.div_mul. lia. Qed.

(** C10. A red (black) wager wins exactly when the card is red (black) and
    its number is not 7; low wins exactly on 1..6, high exactly on 8 and
    above, lucky7 exactly on 7.  So on a card numbered 7 a wager wins if and
    only if its type is lucky7, whatever the card's colour, and that wager
    is paid twelve times its stake (the others pay twice). *)
Theorem C10_win_condition (card : Card) :
  (isBetWinner "red" card = true <-> color card = red /\ number card <> 7) /\
  (isBetWinner "black" card = true <-> color card = black /\ number card <> 7) /\
  (isBetWinner "low" card = true <-> 1 <= number card <= 6) /\
  (isBetWinner "high" card = true <-> 8 <= number card) /\
  (isBetWinner "lucky7" card = true <-> number card = 7) /\
  (number card = 7 ->
   forall ty : string, isBetWinner ty card = true <-> ty = "lucky7") /\
  (forall amount : Z,
      calculateWinAmount "lucky7" amount = 12 * amount
      /\ calculateWinAmount "red" amount = 2 * amount
      /\ calculateWinAmount "black" amount = 2 * amount
      /\ calculateWinAmount "low" amount = 2 * amount
      /\ calculateWinAmount "high" amount = 2 * amount).
Proof.
  destruct card as [n s c r].
  unfold isBetWinner, calculateWinAmount. simpl.
  split; [|split; [|split; [|split; [|split; [|split]]]]].
  - destruct c; simpl.
    + rewrite negb_true_iff, Z.eqb_neq. tauto.
    + split; [discriminate|intros [? _]; discriminate].
  - destruct c; simpl.
    + split; [discriminate|intros [? _]; discriminate].
    + rewrite negb_true_iff, Z.eqb_neq. tauto.
  - rewrite andb_true_iff, !Z.leb_le. tauto.
  - apply Z.leb_le.
  - apply Z.eqb_eq.
  - intros -> ty.
    destruct (String.eqb ty "red") eqn:E1;
      [apply String.eqb_eq in E1; subst ty; destruct c; simpl; split; discriminate|].
    destruct (String.eqb ty "black") eqn:E2;
      [apply String.eqb_eq in E2; subst ty; destruct c; simpl; split; discriminate|].
    destruct (String.eqb ty "high") eqn:E3;
      [apply String.eqb_eq in E3; subst ty; simpl; split; discriminate|].
    destruct (String.eqb ty "low") eqn:E4;
      [apply String.eqb_eq in E4; subst ty; simpl; split; discriminate|].
    destruct (String.eqb ty "lucky7") eqn:E.
    + apply String.eqb_eq in E. subst ty. split; reflexivity.
    + apply String.eqb_neq in E. split; [discriminate|contradiction].
  - intros amount. rewrite !roundToCents_integer. unfold payoutMultiplier. simpl. repeat split; lia.
Qed.

(** ** Broadcast sanitization *)

Lemma sanitize_status (room : GameRoom) :
  status (sanitizeRoomForBroadcast room) = status room.
Proof. reflexivity. Qed.

Lemma sanitize_card (room : GameRoom) (c : Card) :
  currentCard (sanitizeRoomForBroadcast room) = Some c ->
  status room = playing /\ revealed c = true /\ currentCard room = Some c.
Proof.
  unfold sanitizeRoomForBroadcast. simpl.
  destruct (currentCard room) as [c0|]; [|discriminate].
  destruct (status room); simpl; try discriminate.
  destruct (revealed c0) eqn:E; [|discriminate].
  intros [= <-]. auto.
Qed.

Lemma sanitize_hidden (room : GameRoom) :
  status room <> playing -> currentCard (sanitizeRoomForBroadcast room) = None.
Proof.
  intros Hs. destruct (currentCard (sanitizeRoomForBroadcast room)) as [c|] eqn:E; [|reflexivity].
  apply sanitize_card in E. tauto.
Qed.

Lemma leakFree_sanitized (room : GameRoom) (t : Z) :
  leakFree (room_updated (sanitizeRoomForBroadcast room))
  /\ leakFree (game_starting (sanitizeRoomForBroadcast room) t)
  /\ leakFree (countdown_tick t (sanitizeRoomForBroadcast room))
  /\ leakFree (round_ended (sanitizeRoomForBroadcast room)).
Proof.
  repeat split; intros r [= <-] Hs;
    change (option_list (currentCard (sanitizeRoomForBroadcast room)) = []);
    rewrite sanitize_hidden; try reflexivity;
    rewrite sanitize_status in Hs; congruence.
Qed.

Lemma leakFree_no_room (p : Payload) : payloadRoom p = None -> leakFree p.
Proof. intros E r Hr. congruence. Qed.

Lemma leakFree_playing (p : Payload) (r : GameRoom) :
  payloadRoom p = Some r -> status r = playing -> leakFree p.
Proof. intros E Hs r' Hr' Hc. congruence. Qed.

Create HintDb leak.
#[local] Hint Resolve leakFree_no_room : leak.
#[local] Hint Extern 1 (leakFree (room_updated (sanitizeRoomForBroadcast ?r))) =>
  apply (leakFree_sanitized r 0) : leak.
#[local] Hint Extern 1 (leakFree (game_starting (sanitizeRoomForBroadcast ?r) ?t)) =>
  apply (leakFree_sanitized r t) : leak.
#[local] Hint Extern 1 (leakFree (countdown_tick ?t (sanitizeRoomForBroadcast ?r))) =>
  apply (leakFree_sanitized r t) : leak.
#[local] Hint Extern 1 (leakFree (round_ended (sanitizeRoomForBroadcast ?r))) =>
  apply (leakFree_sanitized r 0) : leak.

Ltac leak_free := repeat constructor; simpl; auto with leak.

Lemma leaveRoom_leakFree (sock : string) (w : World) :
  Forall (fun e => leakFree (snd e)) (snd (leaveRoom sock w)).
Proof.
  unfold leaveRoom. destruct (playerRooms (manager w) !! sock); [|constructor].
  repeat case_match; leak_free.
Qed.

Lemma joinRoom_leakFree (sock : string) (w : World) :
  Forall (fun e => leakFree (snd e)) (snd (joinRoom sock w)).
Proof.
  unfold joinRoom. pose proof (leaveRoom_leakFree sock w) as Hleave.
  destruct (leaveRoom sock w) as [w1 out1]. cbn [snd fst] in *.
  apply Forall_app. split; [exact Hleave|].
  set (room1 := with_players_list _ _).
  constructor; [leak_free|]. constructor.
  - intros r [= <-] Hs. rewrite sanitize_status in Hs.
    unfold payloadCards. cbn [snd]. rewrite sanitize_hidden by congruence.
    destruct (currentCard room1); [|reflexivity].
    rewrite Hs. reflexivity.
  - destruct (Status_eqb (status room1) countdown); leak_free.
Qed.

Lemma handlePlayerAuth_leakFree (sock : string) (uid : Z) (name : string) (w : World) :
  Forall (fun e => leakFree (snd e)) (snd (handlePlayerAuth sock uid name w)).
Proof.
  unfold handlePlayerAuth. repeat case_match; simpl; try constructor.
  all: apply Forall_app; split; [|leak_free].
  all: match goal with H : (_, _) = (_, _) |- _ => injection H as <- <- end; leak_free.
Qed.

Lemma handlePlaceBet_leakFree sock ty value amount (w : World) :
  Forall (fun e => leakFree (snd e)) (snd (handlePlaceBet sock ty value amount w)).
Proof. unfold handlePlaceBet. repeat case_match; leak_free. Qed.

Lemma handleLockBet_leakFree sock (w : World) :
  Forall (fun e => leakFree (snd e)) (snd (handleLockBet sock w)).
Proof. unfold handleLockBet. repeat case_match; leak_free. Qed.

Lemma cancelAndRefund_leakFree sock player bets clear done (w : World) :
  (forall n c, payloadRoom (done n c) = None) ->
  Forall (fun e => leakFree (snd e)) (snd (cancelAndRefund sock player bets clear done w)).
Proof. intros Hdone. unfold cancelAndRefund. repeat case_match; leak_free. Qed.

Lemma handleCancelLockedBets_leakFree sock (w : World) :
  Forall (fun e => leakFree (snd e)) (snd (handleCancelLockedBets sock w)).
Proof.
  unfold handleCancelLockedBets.
  repeat case_match; try (apply cancelAndRefund_leakFree; reflexivity); leak_free.
Qed.

Lemma handleCancelBet_leakFree sock cancelLocked (w : World) :
  Forall (fun e => leakFree (snd e)) (snd (handleCancelBet sock cancelLocked w)).
Proof.
  unfold handleCancelBet.
  repeat case_match; try (apply cancelAndRefund_leakFree; reflexivity);
    try apply handleCancelLockedBets_leakFree; leak_free.
Qed.

Lemma resolveBets_status (w : World) :
  status (globalRoom (manager (fst (resolveBets w)))) = status (globalRoom (manager w)).
Proof. unfold resolveBets. repeat case_match; reflexivity. Qed.

Lemma revealCard_leakFree (g : Rng) (w : World) :
  Forall (fun e => leakFree (snd e)) (snd (revealCard g w)).
Proof.
  unfold revealCard. destruct (currentCard (globalRoom (manager w))); [|constructor].
  match goal with |- context [let '(card, overrides) := ?x in _] => destruct x as [card overrides] end.
  match goal with |- context [resolveBets ?x] =>
    pose proof (resolveBets_status x) as Hst; destruct (resolveBets x) as [w2 calls] end.
  simpl in *. constructor; [|constructor].
  eapply leakFree_playing; [reflexivity|exact Hst].
Qed.

Lemma startGame_leakFree (now : Z) (w : World) :
  Forall (fun e => leakFree (snd e)) (snd (startGame now w)).
Proof. unfold startGame. repeat case_match; leak_free. Qed.

Lemma countdownTick_leakFree sha256_u32 (g : Rng) (w : World) :
  Forall (fun e => leakFree (snd e)) (snd (countdownTick sha256_u32 g w)).
Proof.
  unfold countdownTick.
  destruct (negb (bool_decide ("GLOBAL" ∈ countdownIntervals (manager w)))); [constructor|].
  match goal with |- context [if ?c then _ else _] => destruct c end.
  - match goal with |- context [revealCard g ?x] =>
      pose proof (revealCard_leakFree g x) as Hr; destruct (revealCard g x) as [w2 out] end.
    simpl in *. constructor; [|exact Hr]. leak_free.
  - leak_free.
Qed.

Lemma startNextRound_leakFree (now : Z) (w : World) :
  Forall (fun e => leakFree (snd e)) (snd (startNextRound now w)).
Proof.
  unfold startNextRound.
  match goal with |- context [startGame now ?x] =>
    pose proof (startGame_leakFree now x) as Hs; destruct (startGame now x) as [w2 out] end.
  simpl in *. constructor; [|exact Hs]. leak_free.
Qed.

Lemma step_leakFree sha256_u32 (w : World) (i : Input) :
  Forall (fun e => leakFree (snd e)) (snd (step sha256_u32 w i)).
Proof.
  destruct i; simpl.
  - apply joinRoom_leakFree.
  - apply leaveRoom_leakFree.
  - apply handlePlayerAuth_leakFree.
  - apply handlePlaceBet_leakFree.
  - apply handleLockBet_leakFree.
  - apply handleCancelBet_leakFree.
  - apply startGame_leakFree.
  - apply countdownTick_leakFree.
  - apply startNextRound_leakFree.
  - constructor.
Qed.

(** ** Bet tracker: placing and locking *)

Lemma Status_eqb_eq (a b : Status) : Status_eqb a b = true <-> a = b.
Proof. destruct a, b; simpl; split; intros; congruence. Qed.

Lemma bettingOpen_test (room : GameRoom) :
  negb (Status_eqb (status room) countdown) || (countdownTime room <=? 10) = false
  <-> bettingOpen room.
Proof.
  unfold bettingOpen. rewrite orb_false_iff, negb_false_iff, Status_eqb_eq, Z.leb_gt.
  tauto.
Qed.

Lemma truthy_Some (x : option Z) :
  truthy x = true <-> exists d, x = Some d /\ d <> 0.
Proof.
  destruct x as [d|]; simpl.
  - rewrite negb_true_iff, Z.eqb_neq. split; [eauto|intros (d' & [= <-] & H); exact H].
  - split; [discriminate|intros (d & H & _); discriminate].
Qed.

Lemma includes_elem (arr : list string) (x : string) :
  includes arr x = true <-> x ∈ arr.
Proof.
  unfold includes. rewrite existsb_exists. split.
  - intros (y & Hy & E). apply String.eqb_eq in E. subst y. now apply list_elem_of_In.
  - intros H. exists x. split; [now apply list_elem_of_In|apply String.eqb_refl].
Qed.

(** [storage.placeBet] is all-or-nothing: it either throws, returning no new
    database, or debits exactly the stake from a balance that covers it and
    inserts the pending bet. *)
Lemma placeBet_atomic (db : Database) (pid amount : Z) (ty : string)
    (value : option string) (gid : Z) :
  match placeBet db pid amount ty value gid with
  | Throw _ =>
      players_table db !! pid = None
      \/ exists row, players_table db !! pid = Some row /\ chips row < amount
  | Ok (db', bet, updated) =>
      exists row,
        players_table db !! pid = Some row
        /\ amount <= chips row
        /\ chips updated = chips row - amount
        /\ 0 <= chips updated
        /\ players_table db' !! pid = Some updated
        /\ (forall q, q <> pid -> players_table db' !! q = players_table db !! q)
        /\ bet = mkBetRow (bets_serial db) gid pid amount ty value false 0
        /\ bets_table db' !! bet_id bet = Some bet
  end.
Proof.
  unfold placeBet. destruct (players_table db !! pid) as [row|] eqn:Hrow; [|now left].
  destruct (chips row <? amount) eqn:Hlt.
  - apply Z.ltb_lt in Hlt. right. eauto.
  - apply Z.ltb_ge in Hlt. exists row. simpl.
    repeat split; auto; try lia.
    + apply lookup_insert_eq.
    + intros q Hq. now apply lookup_insert_ne.
    + apply lookup_insert_eq.
Qed.

(** C4. [handlePlaceBet] either rejects (an error to the caller, the world
    unchanged) or succeeds, and it succeeds only if the round is in countdown
    with more than 10 seconds left, the type is one of red, black, high, low,
    lucky7 and 0 < stake <= the account's balance.  On success the database
    is the result of the one [placeBet] transaction: the balance is debited
    by exactly the stake and stays non-negative, and the pending wager is
    recorded in the bets table, in the unlocked partition of the socket and
    in the wager index.  A request from an authenticated player that meets
    the conditions is not rejected.  An insufficient balance makes [placeBet]
    throw without producing a new database. *)
Theorem C4_place_bet_validation (sock ty : string) (value : option string)
    (amount : Z) (w : World) :
  let room := globalRoom (manager w) in
  let res := handlePlaceBet sock ty value amount w in
  (rejected sock w res
   \/ exists player row bet updated,
        findPlayer room sock = Some player
        /\ getPlayer (storage w) (orZero (dbId player)) = Some row
        /\ bettingOpen room
        /\ ty ∈ ["red"; "black"; "high"; "low"; "lucky7"]
        /\ 0 < amount <= chips row
        /\ placeBet (storage w) (row_id row) amount ty value (orZero (currentGameId room))
           = Ok (storage (fst res), bet, updated)
        /\ players_table (storage (fst res)) !! row_id row = Some updated
        /\ 0 <= chips updated
        /\ bets_table (storage (fst res)) !! bet_id bet
           = Some (mkBetRow (bet_id bet) (orZero (currentGameId room)) (row_id row)
                            amount ty value false 0)
        /\ unlockedBets (manager (fst res)) !! sock
           = Some (default [] (unlockedBets (manager w) !! sock)
                   ++ [mkTrackedBet ty amount (bet_id bet)])
        /\ (exists index,
              activeBets (globalRoom (manager (fst res))) = Some index
              /\ Map_get index sock
                 = Some (default [] (Map_get (default [] (activeBets room)) sock)
                         ++ [mkActiveBet (bet_id bet) ty amount]))
        /\ snd res = [ (ToRoom "GLOBAL",
                        room_updated (sanitizeRoomForBroadcast (globalRoom (manager (fst res)))));
                       (ToSocket sock, bet_placed bet (chips updated) false) ])
  /\ (forall player row,
        findPlayer room sock = Some player ->
        truthy (dbId player) = true ->
        getPlayer (storage w) (orZero (dbId player)) = Some row ->
        row_id row = orZero (dbId player) ->
        bettingOpen room ->
        ty ∈ ["red"; "black"; "high"; "low"; "lucky7"] ->
        0 < amount <= chips row ->
        truthy (currentGameId room) = true ->
        ~ rejected sock w res)
  /\ (forall db pid gid row,
        players_table db !! pid = Some row ->
        (chips row < amount ->
         placeBet db pid amount ty value gid = Throw "Insufficient chips")
        /\ (amount <= chips row ->
            exists db' bet updated,
              placeBet db pid amount ty value gid = Ok (db', bet, updated)
              /\ players_table db' !! pid = Some updated
              /\ chips updated = chips row - amount
              /\ 0 <= chips updated)).
Proof.
  intros room res. split; [|split].
  - unfold res, handlePlaceBet. cbv zeta. fold room.
    assert (forall msg, rejected sock w (w, [(ToSocket sock, bet_error_text msg)])) as Hrej
      by (intros msg; split; [reflexivity|exists msg; now right]).
    destruct (negb (Status_eqb (status room) countdown) || (countdownTime room <=? 10)) eqn:Hopen;
      [left; apply Hrej|].
    apply bettingOpen_test in Hopen.
    destruct (findPlayer room sock) as [player|] eqn:Hfind; [|left; apply Hrej].
    destruct (truthy (dbId player)) eqn:Hauth; cbn [negb]; [|left; apply Hrej].
    destruct (getPlayer (storage w) (orZero (dbId player))) as [row|] eqn:Hrow; [|left; apply Hrej].
    destruct (includes validBetTypes ty) eqn:Hty; cbn [negb]; [|left; apply Hrej].
    apply includes_elem in Hty.
    destruct ((amount <=? 0) || (chips row <? amount)) eqn:Hamt; [left; apply Hrej|].
    apply orb_false_iff in Hamt. destruct Hamt as [Hpos Hle].
    apply Z.leb_gt in Hpos. apply Z.ltb_ge in Hle.
    destruct (truthy (currentGameId room)) eqn:Hgame; cbn [negb]; [|left; apply Hrej].
    pose proof (placeBet_atomic (storage w) (row_id row) amount ty value
                                (orZero (currentGameId room))) as Hatomic.
    destruct (placeBet (storage w) (row_id row) amount ty value
                       (orZero (currentGameId room))) as [[[db bet] updated]|msg] eqn:Hplace;
      [|left; apply Hrej].
    right. destruct Hatomic as (row0 & Hrow0 & Hcover & Hdebit & Hnonneg & Hupd & _ & Hbet & Hins).
    exists player, row, bet, updated. simpl.
    repeat split; auto; try lia.
    + apply Hopen.
    + apply Hopen.
    + rewrite Hins. f_equal. rewrite Hbet. reflexivity.
    + rewrite lookup_insert_eq.
      destruct (unlockedBets (manager w) !! sock); reflexivity.
    + eexists. split; [reflexivity|].
      assert (forall (m : BetIndex) v, Map_get (Map_set m sock v) sock = Some v) as Hgs.
      { induction m as [|[k v'] m IH]; intros v; simpl.
        - now rewrite String.eqb_refl.
        - destruct (String.eqb k sock) eqn:E; simpl; rewrite E; [reflexivity|apply IH]. }
      rewrite Hgs. f_equal. unfold activeBetOfRow. rewrite Hbet. simpl.
      destruct (activeBets room); reflexivity.
  - intros player row Hfind Hauth Hrow Hid Hopen Hty Hamt Hgame.
    unfold res, handlePlaceBet. cbv zeta. fold room.
    apply bettingOpen_test in Hopen. rewrite Hopen, Hfind, Hauth. cbn [negb].
    rewrite Hrow. apply includes_elem in Hty. unfold validBetTypes. rewrite Hty. cbn [negb].
    assert (((amount <=? 0) || (chips row <? amount)) = false) as ->.
    { apply orb_false_iff. split; [apply Z.leb_gt|apply Z.ltb_ge]; lia. }
    rewrite Hgame. cbn [negb].
    unfold placeBet. rewrite Hid. unfold getPlayer in Hrow. rewrite Hrow.
    assert ((chips row <? amount) = false) as -> by (apply Z.ltb_ge; lia).
    intros [_ (msg & [H|H])]; discriminate.
  - intros db pid gid row Hrow. unfold placeBet. rewrite Hrow. split.
    + intros Hlt. apply Z.ltb_lt in Hlt. now rewrite Hlt.
    + intros Hle. apply Z.ltb_ge in Hle. rewrite Hle.
      eexists _, _, _. split; [reflexivity|]. simpl.
      rewrite lookup_insert_eq. repeat split; auto. apply Z.ltb_ge in Hle. lia.
Qed.

(** C7. [handleLockBet] either rejects (an error to the caller, the world
    unchanged) or moves the whole unlocked partition of the socket into the
    locked partition under the player's database id, leaving room and
    database as they were.  It rejects whenever a locked entry already
    exists for that database id, whenever the betting window is closed
    (status other than countdown, or 10 seconds or fewer left) and whenever
    the socket has no unlocked bets; a request outside those cases, from an
    authenticated player, is carried out. *)
Theorem C7_lock_bet_exclusive (sock : string) (w : World) :
  let m := manager w in
  let room := globalRoom m in
  let res := handleLockBet sock w in
  (forall player, findPlayer room sock = Some player ->
                  is_Some (lockedBets m !! orZero (dbId player)) ->
                  rejected sock w res)
  /\ (~ bettingOpen room -> rejected sock w res)
  /\ (unlockedBets m !! sock = None \/ unlockedBets m !! sock = Some [] ->
      rejected sock w res)
  /\ (rejected sock w res
      \/ exists player d betsToLock,
           findPlayer room sock = Some player
           /\ dbId player = Some d /\ d <> 0
           /\ bettingOpen room
           /\ lockedBets m !! d = None
           /\ unlockedBets m !! sock = Some betsToLock
           /\ betsToLock <> []
           /\ lockedBets (manager (fst res)) = <[d := betsToLock]> (lockedBets m)
           /\ unlockedBets (manager (fst res)) = delete sock (unlockedBets m)
           /\ globalRoom (manager (fst res)) = room
           /\ storage (fst res) = storage w
           /\ snd res = [(ToSocket sock,
                          bets_locked betsToLock (orZero (player_chips player)))])
  /\ (forall player d betsToLock,
         findPlayer room sock = Some player ->
         dbId player = Some d -> d <> 0 ->
         bettingOpen room ->
         lockedBets m !! d = None ->
         unlockedBets m !! sock = Some betsToLock -> betsToLock <> [] ->
         ~ rejected sock w res
         /\ lockedBets (manager (fst res)) !! d = Some betsToLock
         /\ unlockedBets (manager (fst res)) !! sock = None).
Proof.
  intros m room res.
  assert (forall msg, rejected sock w (w, [(ToSocket sock, bet_error msg)])) as Hrej
    by (intros msg; split; [reflexivity|exists msg; now left]).
  assert (forall player d betsToLock,
             findPlayer room sock = Some player ->
             dbId player = Some d -> d <> 0 ->
             bettingOpen room ->
             lockedBets m !! d = None ->
             unlockedBets m !! sock = Some betsToLock -> betsToLock <> [] ->
             ~ rejected sock w res
             /\ lockedBets (manager (fst res)) !! d = Some betsToLock
             /\ unlockedBets (manager (fst res)) !! sock = None) as Haccept.
  { intros player d betsToLock Hfind Hd Hd0 Hopen Hlocked Hunlocked Hne.
    unfold res, handleLockBet. cbv zeta. fold m. fold room.
    rewrite Hfind, Hd.
    assert (truthy (Some d) = true) as -> by (apply truthy_Some; eauto).
    apply bettingOpen_test in Hopen. rewrite Hopen. cbn [negb orZero].
    rewrite Hlocked, Hunlocked.
    destruct betsToLock as [|b bets]; [congruence|]. cbn [fst snd manager lockedBets unlockedBets].
    split; [|split; [apply lookup_insert_eq|apply lookup_delete_eq]].
    intros [_ (msg & [H|H])]; discriminate. }
  cut ((forall player, findPlayer room sock = Some player ->
                       is_Some (lockedBets m !! orZero (dbId player)) ->
                       rejected sock w res)
       /\ (~ bettingOpen room -> rejected sock w res)
       /\ (unlockedBets m !! sock = None \/ unlockedBets m !! sock = Some [] ->
           rejected sock w res)
       /\ (rejected sock w res
           \/ exists player d betsToLock,
                findPlayer room sock = Some player
                /\ dbId player = Some d /\ d <> 0
                /\ bettingOpen room
                /\ lockedBets m !! d = None
                /\ unlockedBets m !! sock = Some betsToLock
                /\ betsToLock <> []
                /\ lockedBets (manager (fst res)) = <[d := betsToLock]> (lockedBets m)
                /\ unlockedBets (manager (fst res)) = delete sock (unlockedBets m)
                /\ globalRoom (manager (fst res)) = room
                /\ storage (fst res) = storage w
                /\ snd res = [(ToSocket sock,
                               bets_locked betsToLock (orZero (player_chips player)))])).
  { intros (H1 & H2 & H3 & H4).
    split; [exact H1|]. split; [exact H2|]. split; [exact H3|]. split; [exact H4|exact Haccept]. }
  clear Haccept.
  unfold res, handleLockBet. cbv zeta. fold m. fold room.
  destruct (findPlayer room sock) as [player|] eqn:Hfind.
  2: { repeat split; auto; try (intros; apply Hrej); discriminate. }
  destruct (truthy (dbId player)) eqn:Hauth; cbn [negb].
  2: { repeat split; auto; intros; apply Hrej. }
  apply truthy_Some in Hauth. destruct Hauth as (d & Hd & Hd0).
  destruct (negb (Status_eqb (status room) countdown) || (countdownTime room <=? 10)) eqn:Hopen.
  { repeat split; auto; intros; apply Hrej. }
  apply bettingOpen_test in Hopen.
  destruct (lockedBets m !! orZero (dbId player)) as [locked|] eqn:Hlocked.
  { repeat split; auto; intros; apply Hrej. }
  destruct (unlockedBets m !! sock) as [[|b bets]|] eqn:Hunlocked.
  - repeat split; auto; intros; apply Hrej.
  - split; [|split; [|split]].
    + intros p [= <-] [x Hx]. congruence.
    + intros Hclosed. contradiction.
    + intros [H|H]; discriminate.
    + right. exists player, d, (b :: bets). rewrite Hd in *. simpl in *.
      repeat split; auto; try discriminate; apply Hopen.
  - repeat split; auto; intros; apply Hrej.
Qed.

(** ** Cancelling, and revealing without a card *)

Lemma closedWindowWorld_reached :
  fst (run hash0 seedWorld betThenWait) = closedWindowWorld.
Proof. vm_compute. reflexivity. Qed.

Lemma settledWorld_reached :
  fst (run hash0 closedWindowWorld (repeat (interval_tick entropy0) 5)) = settledWorld.
Proof. vm_compute. reflexivity. Qed.

(** C8 (the code departs from the claim). With the betting window closed
    (countdown with 5 seconds left, then after reveal and settlement),
    [handleCancelBet] on the unlocked partition is not rejected: it deletes
    the wager and refunds the stake, even for a wager already settled as
    lost. *)
Theorem C8_unlocked_cancel_ignores_window :
  (~ bettingOpen (globalRoom (manager closedWindowWorld))
   /\ ~ rejected "s1" closedWindowWorld (handleCancelBet "s1" false closedWindowWorld)
   /\ snd (handleCancelBet "s1" false closedWindowWorld)
      = [(ToSocket "s1", bets_cancelled 1 (Some 1000))]
   /\ storage (fst (handleCancelBet "s1" false closedWindowWorld))
      = mkDatabase {[ 1 := annRow 1000 0 ]} ∅
                   {[ 1 := mkGameRow 1 "GLOBAL" 0 red 0 0 "in_progress" ]} 2 2 2)
  /\
  (~ bettingOpen (globalRoom (manager settledWorld))
   /\ ~ rejected "s1" settledWorld (handleCancelBet "s1" false settledWorld)
   /\ snd (handleCancelBet "s1" false settledWorld)
      = [(ToSocket "s1", bets_cancelled 1 (Some 1000))]
   /\ storage (fst (handleCancelBet "s1" false settledWorld))
      = mkDatabase {[ 1 := annRow 1000 1 ]} ∅
                   {[ 1 := mkGameRow 1 "GLOBAL" 1 black 0 0 "completed" ]} 2 2 2).
Proof.
  split; (split; [|split; [|split]]).
  - intros [_ H]. simpl in H. lia.
  - intros [_ (msg & [H|H])]; vm_compute in H; discriminate.
  - vm_compute. reflexivity.
  - vm_compute. reflexivity.
  - intros [H _]. simpl in H. discriminate.
  - intros [_ (msg & [H|H])]; vm_compute in H; discriminate.
  - vm_compute. reflexivity.
  - vm_compute. reflexivity.
Qed.

(** C9 fails on the code: at [noCardWorld] nothing is synthesized. *)
Lemma C9_no_fallback_counterexample : ~ revealsWithFallback entropy0 noCardWorld.
Proof.
  unfold revealsWithFallback. intros H.
  destruct (H eq_refl) as (c & Hc & _). vm_compute in Hc. discriminate.
Qed.

(** C9 (amended). If reveal is attempted while no outcome has been
    materialized, [revealCard] returns at once: no outcome is synthesized,
    no wager is resolved, nothing is emitted and the world is unchanged, so
    the round stays in its current status. *)
Theorem C9_reveal_without_card_returns (g : Rng) (w : World) :
  currentCard (globalRoom (manager w)) = None ->
  revealCard g w = (w, []).
Proof. intros H. unfold revealCard. rewrite H. reflexivity. Qed.

Lemma C9_reveal_without_card_witness :
  currentCard (globalRoom (manager noCardWorld)) = None
  /\ revealCard entropy0 noCardWorld = (noCardWorld, []).
Proof.
  split; [reflexivity|].
  apply (C9_reveal_without_card_returns entropy0 noCardWorld). reflexivity.
Defined.

(** ** Settlement *)

Lemma resolveLoop_flat (card : Card) (index : BetIndex) (acc : Settlement) :
  resolveLoop card index acc
  = fold_left (fun acc sb => resolveOne card (fst sb) acc (snd sb)) (flatBets index) acc.
Proof.
  unfold resolveLoop, flatBets. revert acc.
  induction index as [|[sock bets] index IH]; intros acc; simpl; [reflexivity|].
  rewrite fold_left_app, IH. f_equal.
  clear IH. revert acc. induction bets as [|b bets IHb]; intros acc; simpl; [reflexivity|].
  apply IHb.
Qed.

Lemma indexIds_flat (index : BetIndex) :
  indexIds index = map (fun sb => ab_id (snd sb)) (flatBets index).
Proof.
  unfold indexIds, flatBets.
  induction index as [|[sock bets] index IH]; simpl; [reflexivity|].
  rewrite map_app, IH. f_equal. rewrite map_map. reflexivity.
Qed.

(** Effect of one [storage.resolveBet] transaction. *)
Lemma resolveBet_effect (db : Database) (id : Z) (w : bool) (amount : Z) :
  match resolveBet db id w amount with
  | Throw _ => owner db id = None
  | Ok (db', _, _) =>
      (forall id', owner db' id' = owner db id')
      /\ forall p row,
           players_table db !! p = Some row ->
           exists row',
             players_table db' !! p = Some row'
             /\ if decide (owner db id = Some p)
                then totalWins row' + totalLosses row'
                       = totalWins row + totalLosses row + 1
                     /\ chips row' = chips row + creditOf (id, w, amount)
                else row' = row
  end.
Proof.
  unfold resolveBet, owner.
  destruct (bets_table db !! id) as [b|] eqn:Hb; [|reflexivity].
  assert (forall (t : gmap Z PlayerRow) id',
           playerId <$> (<[id := mkBetRow (bet_id b) (gameId b) (playerId b) (betAmount b)
                                  (betType b) (betValue b) w amount]> (bets_table db)) !! id'
           = playerId <$> bets_table db !! id') as Howner.
  { intros _ id'. destruct (decide (id = id')) as [<-|Hne].
    - rewrite lookup_insert_eq, Hb. reflexivity.
    - rewrite lookup_insert_ne by exact Hne. reflexivity. }
  destruct (players_table db !! playerId b) as [pr|] eqn:Hpr; simpl.
  - split; [intros id'; apply (Howner ∅)|].
    intros p row Hrow. destruct (decide (Some (playerId b) = Some p)) as [[= <-]|Hne].
    + rewrite lookup_insert_eq. eexists. split; [reflexivity|].
      assert (row = pr) by congruence. subst row.
      unfold creditOf. simpl. destruct (w && (0 <? amount)); simpl; lia.
    + rewrite lookup_insert_ne by congruence. eauto.
  - split; [intros id'; apply (Howner ∅)|].
    intros p row Hrow. exists row. split; [exact Hrow|].
    destruct (decide (Some (playerId b) = Some p)) as [[= <-]|Hne]; [congruence|reflexivity].
Qed.

Lemma sumZ_app (l1 l2 : list Z) : sumZ (l1 ++ l2) = sumZ l1 + sumZ l2.
Proof. unfold sumZ. induction l1 as [|x l1 IH]; simpl; [reflexivity|]. rewrite IH. lia. Qed.

Lemma callsOf_snoc (db : Database) (p : Z) (calls : list (Z * bool * Z)) (c : Z * bool * Z) :
  callsOf db p (calls ++ [c])
  = callsOf db p calls ++ (if decide (owner db (callId c) = Some p) then [c] else []).
Proof.
  unfold callsOf. rewrite filter_app. reflexivity.
Qed.

Lemma resolveOne_inv (db0 : Database) (card : Card) (sock : string)
    (acc : Settlement) (bet : ActiveBet) :
  settleInv db0 acc ->
  settleInv db0 (resolveOne card sock acc bet)
  /\ forall id, id ∈ processedBetIds (resolveOne card sock acc bet)
                <-> id ∈ processedBetIds acc \/ id = ab_id bet.
Proof.
  intros (Hnd & Hproc & Hown & Hrows). unfold resolveOne.
  destruct (bool_decide_reflect (ab_id bet ∈ processedBetIds acc)) as [Hin|Hnin].
  { split; [exact (conj Hnd (conj Hproc (conj Hown Hrows)))|].
    intros id. split; [auto|]. intros [H| ->]; auto. }
  set (won := isBetWinner (ab_betType bet) card).
  set (amount := if won then calculateWinAmount (ab_betType bet) (ab_betAmount bet) else 0).
  set (c := (ab_id bet, won, amount)).
  assert (NoDup (map callId (resolveCalls acc ++ [c]))) as Hnd'.
  { rewrite map_app. apply NoDup_app. split; [exact Hnd|]. split.
    - intros x Hx Hx'. simpl in Hx'. apply list_elem_of_singleton in Hx'. subst x.
      apply Hnin, Hproc, Hx.
    - simpl. apply NoDup_singleton. }
  assert (forall id, id ∈ processedBetIds acc ∪ {[ab_id bet]}
                     <-> id ∈ map callId (resolveCalls acc ++ [c])) as Hproc'.
  { intros id. rewrite elem_of_union, elem_of_singleton, map_app, elem_of_app, Hproc.
    simpl. rewrite list_elem_of_singleton. reflexivity. }
  assert (forall id, id ∈ processedBetIds acc ∪ {[ab_id bet]}
                     <-> id ∈ processedBetIds acc \/ id = ab_id bet) as Hunion.
  { intros id. rewrite elem_of_union, elem_of_singleton. reflexivity. }
  pose proof (resolveBet_effect (settled_db acc) (ab_id bet) won amount) as Heff.
  destruct (resolveBet (settled_db acc) (ab_id bet) won amount)
    as [[[db' b'] updated]|msg] eqn:Hres.
  - destruct Heff as [Hown' Hrows']. split; [|exact Hunion].
    split; [exact Hnd'|]. split; [exact Hproc'|]. simpl. split.
    + intros id. rewrite Hown'. apply Hown.
    + intros p row Hrow. destruct (Hrows p row Hrow) as (row1 & Hrow1 & Htally & Hchips).
      destruct (Hrows' p row1 Hrow1) as (row' & Hrow' & Hcase).
      exists row'. split; [exact Hrow'|].
      rewrite callsOf_snoc, length_app, map_app, sumZ_app.
      change (callId c) with (ab_id bet). rewrite <- (Hown (ab_id bet)).
      destruct (decide (owner (settled_db acc) (ab_id bet) = Some p)).
      * destruct Hcase as [Ht Hc]. fold c in Hc. unfold sumZ in *. simpl. lia.
      * subst row'. unfold sumZ in *. simpl. lia.
  - split; [|exact Hunion].
    split; [exact Hnd'|]. split; [exact Hproc'|]. simpl. split; [exact Hown|].
    intros p row Hrow. destruct (Hrows p row Hrow) as (row1 & Hrow1 & Htally & Hchips).
    exists row1. split; [exact Hrow1|].
    rewrite callsOf_snoc. change (callId c) with (ab_id bet).
    rewrite <- (Hown (ab_id bet)), Heff.
    destruct (decide (None = Some p)); [discriminate|].
    rewrite app_nil_r. auto.
Qed.

Lemma resolveFold_inv (db0 : Database) (card : Card)
    (bets : list (string * ActiveBet)) (acc : Settlement) :
  settleInv db0 acc ->
  let final := fold_left (fun acc sb => resolveOne card (fst sb) acc (snd sb)) bets acc in
  settleInv db0 final
  /\ forall id, id ∈ processedBetIds final
                <-> id ∈ processedBetIds acc \/ id ∈ map (fun sb => ab_id (snd sb)) bets.
Proof.
  revert acc. induction bets as [|[sock bet] bets IH]; intros acc Hinv; simpl.
  - split; [exact Hinv|]. intros id. rewrite elem_of_nil. tauto.
  - destruct (resolveOne_inv db0 card sock acc bet Hinv) as [Hinv1 Hproc1].
    destruct (IH _ Hinv1) as [Hinv2 Hproc2]. split; [exact Hinv2|].
    intros id. rewrite Hproc2, Hproc1, elem_of_cons. tauto.
Qed.

(** What [resolveBets] does, stated on the sequence of [storage.resolveBet]
    calls it issues and on the account rows it leaves behind. *)
Lemma resolveBets_spec (w : World) :
  let room := globalRoom (manager w) in
  let w' := fst (resolveBets w) in
  let calls := snd (resolveBets w) in
  NoDup (map callId calls)
  /\ (forall id, id ∈ map callId calls -> id ∈ indexIds (default [] (activeBets room)))
  /\ (settlementReady room ->
      (forall id, id ∈ indexIds (default [] (activeBets room)) -> id ∈ map callId calls)
      /\ activeBets (globalRoom (manager w')) = Some []
      /\ lockedBets (manager w') = ∅)
  /\ (forall p row,
         players_table (storage w) !! p = Some row ->
         exists row',
           players_table (storage w') !! p = Some row'
           /\ totalWins row' + totalLosses row'
              = totalWins row + totalLosses row
                + Z.of_nat (length (callsOf (storage w) p calls))
           /\ chips row'
              = chips row + sumZ (map creditOf (callsOf (storage w) p calls))).
Proof.
  intros room w' calls.
  assert (settleInv (storage w) (mkSettlement ∅ 0 0 (storage w) (players room) [])) as Hinit.
  { repeat split; simpl; auto.
    - constructor.
    - intros H. apply elem_of_empty in H. contradiction.
    - intros H. apply elem_of_nil in H. contradiction.
    - intros p row Hrow. exists row. unfold callsOf, sumZ. simpl. split; [exact Hrow|lia]. }
  assert (NoDup (map callId [])
          /\ (forall id, id ∈ map callId [] -> id ∈ indexIds (default [] (activeBets room)))
          /\ (forall p row,
                 players_table (storage w) !! p = Some row ->
                 exists row',
                   players_table (storage w) !! p = Some row'
                   /\ totalWins row' + totalLosses row'
                      = totalWins row + totalLosses row
                        + Z.of_nat (length (callsOf (storage w) p []))
                   /\ chips row'
                      = chips row + sumZ (map creditOf (callsOf (storage w) p [])))) as Hskip.
  { split; [constructor|]. split.
    - intros id H. apply elem_of_nil in H. contradiction.
    - intros p row Hrow. exists row. unfold callsOf, sumZ. simpl. split; [exact Hrow|lia]. }
  destruct Hskip as (Hs1 & Hs2 & Hs3).
  unfold settlementReady.
  subst w' calls. unfold resolveBets. fold room.
  destruct (activeBets room) as [index|] eqn:Hidx.
  2: { cbn [fst snd]. split; [exact Hs1|]. split; [exact Hs2|]. split; [|exact Hs3].
       intros ([x Hx] & _). discriminate. }
  destruct (currentCard room) as [card|] eqn:Hcard.
  2: { cbn [fst snd]. split; [exact Hs1|]. split; [exact Hs2|]. split; [|exact Hs3].
       intros (_ & [x Hx] & _). discriminate. }
  destruct (houseStats room) as [stats|] eqn:Hstats.
  2: { cbn [fst snd]. split; [exact Hs1|]. split; [exact Hs2|]. split; [|exact Hs3].
       intros (_ & _ & [x Hx] & _). discriminate. }
  destruct (truthy (currentGameId room)) eqn:Hgame.
  2: { cbn [fst snd]. split; [exact Hs1|]. split; [exact Hs2|]. split; [|exact Hs3].
       intros (_ & _ & _ & Hx). discriminate. }
  clear Hs1 Hs2 Hs3. rewrite resolveLoop_flat. cbn [fst snd].
  destruct (resolveFold_inv (storage w) card (flatBets index) _ Hinit) as [Hinv Hproc].
  destruct Hinv as (Hnd & Hcalls & _ & Hrows).
  simpl default. rewrite indexIds_flat.
  split; [exact Hnd|]. split; [|split].
  - intros id Hid. apply Hcalls, Hproc in Hid. destruct Hid as [Hid|Hid]; [|exact Hid].
    apply elem_of_empty in Hid. contradiction.
  - intros _. split; [|split; reflexivity].
    intros id Hid. apply Hcalls, Hproc. now right.
  - exact Hrows.
Qed.

Lemma filter_none {A} (P : A -> Prop) `{forall x, Decision (P x)} (l : list A) :
  (forall c, c ∈ l -> ~ P c) -> filter P l = [].
Proof.
  induction l as [|a l IH]; intros Hno; [reflexivity|].
  rewrite filter_cons. destruct (decide (P a)) as [Hp|Hp].
  - exfalso. apply (Hno a); [constructor|exact Hp].
  - apply IH. intros c Hc. apply Hno. now constructor.
Qed.

Lemma filter_unique {A} (P : A -> Prop) `{forall x, Decision (P x)}
    (f : A -> Z) (l : list A) (id : Z) :
  NoDup (map f l) ->
  (forall c, c ∈ l -> P c -> f c = id) ->
  (exists c, c ∈ l /\ P c) ->
  exists c, filter P l = [c] /\ f c = id /\ c ∈ l.
Proof.
  induction l as [|a l IH]; intros Hnd Hall (c & Hc & Hp).
  - apply elem_of_nil in Hc. contradiction.
  - simpl in Hnd. apply NoDup_cons in Hnd. destruct Hnd as [Hfresh Hnd].
    rewrite filter_cons. destruct (decide (P a)) as [Hpa|Hpa].
    + exists a. split; [|split; [apply Hall; [constructor|exact Hpa]|constructor]].
      f_equal. apply filter_none. intros c' Hc' Hp'.
      apply Hfresh. rewrite (Hall a (list_elem_of_here a l) Hpa).
      rewrite <- (Hall c' (list_elem_of_further _ _ _ Hc') Hp').
      apply list_elem_of_In, in_map, list_elem_of_In, Hc'.
    + destruct (IH Hnd) as (c0 & Hf & Hid & Hin).
      * intros c' Hc' Hp'. apply Hall; [now constructor|exact Hp'].
      * apply elem_of_cons in Hc. destruct Hc as [->|Hc]; [contradiction|eauto].
      * exists c0. split; [exact Hf|]. split; [exact Hid|now constructor].
Qed.

(** C3. In one run of [resolveBets], [storage.resolveBet] is called at most
    once per bet id, and only for ids present in the wager index; when the
    settlement guard passes it is called exactly once for every id in the
    index, however many entries list that id.  Accordingly an account's
    win/loss counters grow by the number of its distinct settled bets and its
    chips by the payouts of those calls: an account whose only indexed bet is
    [id] has its counter incremented once and its payout credited once.
    Afterwards the index is empty, so settling again resolves nothing. *)
Theorem C3_each_bet_settled_once (w : World) :
  let room := globalRoom (manager w) in
  let index := default [] (activeBets room) in
  let w' := fst (resolveBets w) in
  let calls := snd (resolveBets w) in
  NoDup (map callId calls)
  /\ (forall id, id ∈ map callId calls -> id ∈ indexIds index)
  /\ (settlementReady room ->
      (forall id, id ∈ indexIds index -> id ∈ map callId calls)
      /\ snd (resolveBets w') = [])
  /\ (forall p row,
         players_table (storage w) !! p = Some row ->
         exists row',
           players_table (storage w') !! p = Some row'
           /\ totalWins row' + totalLosses row'
              = totalWins row + totalLosses row
                + Z.of_nat (length (callsOf (storage w) p calls))
           /\ chips row'
              = chips row + sumZ (map creditOf (callsOf (storage w) p calls)))
  /\ (settlementReady room ->
      forall id p row,
        id ∈ indexIds index ->
        owner (storage w) id = Some p ->
        players_table (storage w) !! p = Some row ->
        (forall id', id' ∈ indexIds index -> owner (storage w) id' = Some p -> id' = id) ->
        exists row' c,
          players_table (storage w') !! p = Some row'
          /\ c ∈ calls /\ callId c = id
          /\ totalWins row' + totalLosses row' = totalWins row + totalLosses row + 1
          /\ chips row' = chips row + creditOf c).
Proof.
  intros room index w' calls.
  destruct (resolveBets_spec w) as (Hnd & Hsub & Hready & Hrows).
  fold room in Hsub, Hready. fold w' in Hready, Hrows. fold calls in Hnd, Hsub, Hready, Hrows.
  fold index in Hsub, Hready.
  split; [exact Hnd|]. split; [exact Hsub|]. split; [|split; [exact Hrows|]].
  - intros Hr. destruct (Hready Hr) as (Hall & Hempty & _). split; [exact Hall|].
    unfold resolveBets at 1. rewrite Hempty.
    destruct (currentCard (globalRoom (manager w'))); [|reflexivity].
    destruct (houseStats (globalRoom (manager w'))); [|reflexivity].
    destruct (truthy (currentGameId (globalRoom (manager w')))); reflexivity.
  - intros Hr id p row Hid Hown Hrow Honly.
    destruct (Hready Hr) as (Hall & _).
    destruct (Hrows p row Hrow) as (row' & Hrow' & Htally & Hchips).
    destruct (filter_unique (fun c => owner (storage w) (callId c) = Some p) callId calls id Hnd)
      as (c & Hf & Hcid & Hcin).
    + intros c Hc Hp. apply Honly; [|exact Hp].
      apply Hsub, list_elem_of_In, in_map, list_elem_of_In, Hc.
    + specialize (Hall id Hid). apply list_elem_of_In, in_map_iff in Hall.
      destruct Hall as (c & Hc & Hcin). exists c. split; [now apply list_elem_of_In|].
      rewrite Hc. exact Hown.
    + exists row', c. unfold callsOf in Htally, Hchips. rewrite Hf in Htally, Hchips.
      unfold sumZ in Hchips. simpl in Htally, Hchips.
      repeat split; auto; lia.
Qed.

(** The same bet listed under two sockets is settled once: one call, one
    increment of the loss counter. *)
Example duplicate_entry_settled_once :
  let w := mkWorld
             (mkGameManager
                (mkGameRoom "GLOBAL" [] playing 999999
                            (Some (mkCard 1 spades black true)) 0 (Some 1000) (Some 1)
                            (Some [("old", [mkActiveBet 1 "red" 50]);
                                   ("new", [mkActiveBet 1 "red" 50])])
                            (Some 1) (Some noHouseStats))
                ∅ ∅ ∅ ∅ ∅)
             (mkDatabase {[ 1 := annRow 950 0 ]}
                         {[ 1 := mkBetRow 1 1 1 50 "red" None false 0 ]} ∅ 2 2 2) in
  snd (resolveBets w) = [(1, false, 0)]
  /\ players_table (storage (fst (resolveBets w))) !! 1 = Some (annRow 950 1).
Proof. vm_compute. split; reflexivity. Qed.

(** ** The wager index as a [Map] *)

Lemma Map_get_split (index : BetIndex) (k : string) (e : list ActiveBet) :
  Map_get index k = Some e ->
  exists pre post, index = pre ++ (k, e) :: post /\ k ∉ map fst pre.
Proof.
  induction index as [|[k' e'] index IH]; simpl; [discriminate|].
  destruct (String.eqb k' k) eqn:E.
  - apply String.eqb_eq in E. subst k'. intros [= ->].
    exists [], index. split; [reflexivity|]. simpl. apply not_elem_of_nil.
  - apply String.eqb_neq in E. intros H. destruct (IH H) as (pre & post & -> & Hpre).
    exists ((k', e') :: pre), post. split; [reflexivity|].
    simpl. rewrite not_elem_of_cons. split; [congruence|exact Hpre].
Qed.

Lemma Map_get_None (index : BetIndex) (k : string) :
  Map_get index k = None -> k ∉ map fst index.
Proof.
  induction index as [|[k' e'] index IH]; simpl; [intros _; apply not_elem_of_nil|].
  destruct (String.eqb k' k) eqn:E; [discriminate|].
  apply String.eqb_neq in E. intros H. rewrite not_elem_of_cons. split; [congruence|auto].
Qed.

Lemma Map_ops_split (pre post : BetIndex) (k : string) (e v : list ActiveBet) :
  k ∉ map fst pre ->
  Map_get (pre ++ (k, e) :: post) k = Some e
  /\ Map_set (pre ++ (k, e) :: post) k v = pre ++ (k, v) :: post
  /\ Map_delete (pre ++ (k, e) :: post) k = pre ++ post.
Proof.
  induction pre as [|[k' e'] pre IH]; simpl; intros Hpre.
  - rewrite String.eqb_refl. auto.
  - rewrite not_elem_of_cons in Hpre. destruct Hpre as [Hne Hpre].
    destruct (String.eqb k' k) eqn:E; [apply String.eqb_eq in E; congruence|].
    destruct (IH Hpre) as (-> & -> & ->). auto.
Qed.

Lemma indexIds_app (a b : BetIndex) : indexIds (a ++ b) = indexIds a ++ indexIds b.
Proof. unfold indexIds. rewrite map_app, concat_app. reflexivity. Qed.

Lemma indexIds_cons (k : string) (e : list ActiveBet) (l : BetIndex) :
  indexIds ((k, e) :: l) = map ab_id e ++ indexIds l.
Proof. reflexivity. Qed.

(** ** Splicing cancelled bets out of an index entry *)

Lemma spliceBet_sub (id : Z) (entry : list ActiveBet) (a : ActiveBet) :
  a ∈ spliceBet id entry -> a ∈ entry.
Proof.
  induction entry as [|x entry IH]; simpl; [auto|].
  destruct (ab_id x =? id); intros H; [now constructor|].
  apply elem_of_cons in H. destruct H as [->|H]; [constructor|constructor; auto].
Qed.





(** ** The cancel loop *)

Lemma cancelLoop_from (sock : string) (bets : list TrackedBet)
    (db : Database) (index : option BetIndex) (refund : Z) :
  fold_left
    (fun '(db, index, totalRefund) bet =>
       (deleteBet db (tb_betId bet),
        removeActiveBet index sock (tb_betId bet),
        totalRefund + tb_amount bet))
    bets (db, index, refund)
  = (fold_left (fun db b => deleteBet db (tb_betId b)) bets db,
     fold_left (fun ix b => removeActiveBet ix sock (tb_betId b)) bets index,
     refund + sumAmounts bets).
Proof.
  revert db index refund. induction bets as [|b bets IH]; intros db index refund; simpl.
  - f_equal. lia.
  - rewrite IH. f_equal. lia.
Qed.

Lemma deleteAll_tables (bets : list TrackedBet) (db : Database) :
  let db' := fold_left (fun db b => deleteBet db (tb_betId b)) bets db in
  players_table db' = players_table db
  /\ (forall b, b ∈ bets -> bets_table db' !! tb_betId b = None)
  /\ (forall id, bets_table db !! id = None -> bets_table db' !! id = None).
Proof.
  revert db. induction bets as [|b bets IH]; intros db; simpl.
  - split; [reflexivity|]. split; [|auto]. intros b Hb. apply elem_of_nil in Hb. contradiction.
  - destruct (IH (deleteBet db (tb_betId b))) as (Hp & Hdel & Hnone).
    split; [exact Hp|]. split.
    + intros b' Hb'. apply elem_of_cons in Hb'. destruct Hb' as [->|Hb']; [|auto].
      apply Hnone. simpl. apply lookup_delete_eq.
    + intros id Hid. apply Hnone. simpl.
      destruct (decide (tb_betId b = id)) as [->|Hne];
        [apply lookup_delete_eq|rewrite lookup_delete_ne by exact Hne; exact Hid].
Qed.




(** ** Disconnect *)

Lemma sumAmounts_nonneg (bets : list TrackedBet) :
  Forall (fun b => 0 < tb_amount b) bets ->
  0 <= sumAmounts bets /\ (bets <> [] -> 0 < sumAmounts bets).
Proof.
  induction 1 as [|b bets Hb Hall [IH _]]; simpl.
  - split; [lia|congruence].
  - split; [lia|intros _; lia].
Qed.



(** ** Cancelling the unlocked partition *)

(** What [handleCancelBet] does for an authenticated player without locked
    wagers whose unlocked partition is not empty.  Neither [room.status] nor
    [room.countdownTime] appears among the conditions: the handler never
    reads them. *)
Lemma handleCancelBet_unlocked_effect (sock : string) (w : World)
    (player : Player) (d : Z) (row : PlayerRow) (bets : list TrackedBet) :
  let m := manager w in
  let room := globalRoom m in
  findPlayer room sock = Some player ->
  dbId player = Some d -> d <> 0 ->
  lockedBets m !! d = None ->
  unlockedBets m !! sock = Some bets -> bets <> [] ->
  players_table (storage w) !! d = Some row -> 0 <= chips row ->
  Forall (fun b => 0 < tb_amount b) bets ->
  let res := handleCancelBet sock false w in
  snd res = [(ToSocket sock,
              bets_cancelled (length bets) (Some (chips row + sumAmounts bets)))]
  /\ unlockedBets (manager (fst res)) !! sock = None
  /\ (forall b, b ∈ bets -> bets_table (storage (fst res)) !! tb_betId b = None)
  /\ (exists row', players_table (storage (fst res)) !! d = Some row'
                   /\ chips row' = chips row + sumAmounts bets).
Proof.
  intros m room Hfind Hd Hd0 Hlocked Hunlocked Hne Hrow Hchips Hpos res.
  unfold res, handleCancelBet. cbv zeta. fold m. fold room.
  rewrite Hfind, Hd.
  assert (truthy (Some d) = true) as -> by (apply truthy_Some; eauto).
  cbn [negb orZero]. rewrite Hlocked, Hunlocked.
  destruct bets as [|b0 rest] eqn:Ebets; [congruence|]. rewrite <- Ebets in *.
  unfold cancelAndRefund. cbv zeta. fold m. fold room.
  unfold cancelLoop. rewrite cancelLoop_from. rewrite Z.add_0_l. rewrite Hd. cbn [orZero].
  destruct (deleteAll_tables bets (storage w)) as (Hplayers & Hdeleted & _).
  cbv zeta in Hplayers, Hdeleted.
  set (db1 := fold_left (fun db b => deleteBet db (tb_betId b)) bets (storage w)) in *.
  unfold getPlayer. rewrite Hplayers, Hrow.
  unfold updatePlayerChips. rewrite Hplayers, Hrow.
  destruct (sumAmounts_nonneg bets Hpos) as [Hnn _].
  destruct (chips row + sumAmounts bets <? 0) eqn:Hneg; [apply Z.ltb_lt in Hneg; lia|].
  cbn [fst snd manager storage unlockedBets with_room with_players players_table bets_table].
  split; [reflexivity|]. split; [apply lookup_delete_eq|]. split; [exact Hdeleted|].
  rewrite lookup_insert_eq. eexists. split; reflexivity.
Qed.

(** ** Re-keying locked wagers on re-authentication *)

Lemma filter_same_length {A} (f : A -> bool) (l : list A) :
  length (List.filter f l) = length l -> List.filter f l = l.
Proof.
  induction l as [|a l IH]; simpl; [reflexivity|].
  destruct (f a); simpl; intros H.
  - f_equal. apply IH. lia.
  - pose proof (filter_length_le f l). lia.
Qed.

Lemma withoutRestored_keys (ids : gset Z) (index : BetIndex) (k : string) :
  k ∈ map fst (withoutRestored ids index) -> k ∈ map fst index.
Proof.
  unfold withoutRestored. induction index as [|[k' bets] index IH]; simpl; [auto|].
  rewrite map_app, elem_of_app. intros [H|H].
  - destruct (notRestored ids bets); simpl in H.
    + apply elem_of_nil in H. contradiction.
    + apply list_elem_of_singleton in H. subst. constructor.
  - constructor. auto.
Qed.

Lemma withoutRestored_single (ids : gset Z) (k : string) (bets : list ActiveBet) :
  withoutRestored ids [(k, bets)]
  = match notRestored ids bets with
    | [] => []
    | kept => [(k, kept)]
    end.
Proof. unfold withoutRestored. simpl. apply app_nil_r. Qed.

Lemma withoutRestored_app (ids : gset Z) (a b : BetIndex) :
  withoutRestored ids (a ++ b) = withoutRestored ids a ++ withoutRestored ids b.
Proof. unfold withoutRestored. apply flat_map_app. Qed.

(** The loop of [handlePlayerAuth] over the snapshot, on a [Map] (keys
    pairwise distinct), computes [withoutRestored]. *)
Lemma removeStale_spec (ids : gset Z) (index : BetIndex) :
  NoDup (map fst index) -> removeStale ids index = withoutRestored ids index.
Proof.
  intros Hnd. unfold removeStale.
  assert (forall suf pre,
             NoDup (map fst (pre ++ suf)) ->
             fold_left (removeStaleStep ids) suf (withoutRestored ids pre ++ suf)
             = withoutRestored ids pre ++ withoutRestored ids suf) as Hgen.
  { induction suf as [|[k bets] suf IH]; intros pre Hkeys; [reflexivity|].
    cbn [fold_left].
    assert (k ∉ map fst (withoutRestored ids pre)) as Hfresh.
    { intros Hin. apply withoutRestored_keys in Hin.
      rewrite map_app in Hkeys. apply NoDup_app in Hkeys. destruct Hkeys as (_ & Hdisj & _).
      apply (Hdisj k Hin). simpl. constructor. }
    assert (removeStaleStep ids (withoutRestored ids pre ++ (k, bets) :: suf) (k, bets)
            = withoutRestored ids (pre ++ [(k, bets)]) ++ suf) as Hstep.
    { unfold removeStaleStep. cbn [fst snd]. cbv zeta. fold (notRestored ids bets).
      rewrite withoutRestored_app, withoutRestored_single.
      destruct (Map_ops_split (withoutRestored ids pre) suf k bets (notRestored ids bets) Hfresh)
        as (_ & Hset & Hdel).
      destruct (notRestored ids bets) as [|b kept] eqn:Ekept.
      - cbn [length Nat.eqb]. rewrite Hdel, app_nil_r. reflexivity.
      - change (length (b :: kept) =? 0)%nat with false. cbn iota.
        destruct (length (b :: kept) =? length bets)%nat eqn:Elen; cbn [negb].
        + apply Nat.eqb_eq in Elen. rewrite <- Ekept in Elen.
          apply filter_same_length in Elen. unfold notRestored in Ekept.
          rewrite Elen in Ekept. rewrite Ekept, <- app_assoc. reflexivity.
        + rewrite Hset, <- app_assoc. reflexivity. }
    rewrite Hstep, (IH (pre ++ [(k, bets)])).
    - rewrite withoutRestored_app, <- app_assoc.
      change ((k, bets) :: suf) with ([(k, bets)] ++ suf).
      rewrite (withoutRestored_app ids [(k, bets)] suf). reflexivity.
    - rewrite <- app_assoc. exact Hkeys. }
  apply (Hgen index []). exact Hnd.
Qed.

Lemma notRestored_ids (ids : gset Z) (bets : list ActiveBet) (id : Z) :
  id ∈ map ab_id (notRestored ids bets) <-> id ∈ map ab_id bets /\ id ∉ ids.
Proof.
  unfold notRestored. rewrite !list_elem_of_In, !in_map_iff. split.
  - intros (a & <- & Ha). apply filter_In in Ha. destruct Ha as [Ha Hk].
    apply negb_true_iff, bool_decide_eq_false in Hk. eauto.
  - intros ((a & <- & Ha) & Hk). exists a. split; [reflexivity|].
    apply filter_In. split; [exact Ha|].
    apply negb_true_iff, bool_decide_eq_false, Hk.
Qed.

Lemma withoutRestored_single_ids (ids : gset Z) (k : string) (bets : list ActiveBet) :
  indexIds (withoutRestored ids [(k, bets)]) = map ab_id (notRestored ids bets).
Proof.
  rewrite withoutRestored_single. destruct (notRestored ids bets); [reflexivity|].
  rewrite indexIds_cons. apply app_nil_r.
Qed.

Lemma withoutRestored_ids (ids : gset Z) (index : BetIndex) (id : Z) :
  id ∈ indexIds (withoutRestored ids index) <-> id ∈ indexIds index /\ id ∉ ids.
Proof.
  induction index as [|[k bets] index IH].
  - unfold indexIds. simpl. rewrite elem_of_nil. tauto.
  - change ((k, bets) :: index) with ([(k, bets)] ++ index).
    rewrite withoutRestored_app, !indexIds_app, !elem_of_app, IH.
    rewrite withoutRestored_single_ids, notRestored_ids.
    change (indexIds [(k, bets)]) with (map ab_id bets ++ []). rewrite app_nil_r. tauto.
Qed.

Lemma notRestored_NoDup (ids : gset Z) (bets : list ActiveBet) :
  NoDup (map ab_id bets) -> NoDup (map ab_id (notRestored ids bets)).
Proof.
  unfold notRestored. induction bets as [|a bets IH]; simpl; intros H; [constructor|].
  apply NoDup_cons in H. destruct H as [Ha H].
  destruct (negb (bool_decide (ab_id a ∈ ids))); [|auto].
  simpl. apply NoDup_cons. split; [|auto].
  intros Hin. apply Ha. apply list_elem_of_In, in_map_iff in Hin.
  destruct Hin as (x & Hx & Hin). apply filter_In in Hin.
  rewrite <- Hx. apply list_elem_of_In, in_map, Hin.
Qed.

Lemma withoutRestored_NoDup (ids : gset Z) (index : BetIndex) :
  NoDup (indexIds index) -> NoDup (indexIds (withoutRestored ids index)).
Proof.
  induction index as [|[k bets] index IH]; intros Hids; [constructor|].
  change ((k, bets) :: index) with ([(k, bets)] ++ index) in *.
  rewrite withoutRestored_app, indexIds_app. rewrite indexIds_app in Hids.
  change (indexIds [(k, bets)]) with (map ab_id bets ++ []) in Hids.
  rewrite app_nil_r in Hids.
  apply NoDup_app in Hids. destruct Hids as (H1 & H2 & H3).
  rewrite withoutRestored_single_ids.
  apply NoDup_app. split; [now apply notRestored_NoDup|]. split; [|auto].
  intros id Hin Hin'. apply notRestored_ids in Hin. apply withoutRestored_ids in Hin'.
  apply (H2 id); tauto.
Qed.

(** After [handlePlayerAuth] finds locked wagers for the account, the index
    lists each of them exactly once, under the authenticating socket, and
    lists no bet id twice if it did not before. *)
Lemma handlePlayerAuth_rekeys (sock : string) (uid : Z) (username : string)
    (w : World) (player : Player) (index : BetIndex) (locked : list TrackedBet) :
  let m := manager w in
  let dbPlayer := snd (createOrUpdatePlayerByUserId (storage w) uid sock username) in
  findPlayer (globalRoom m) sock = Some player ->
  lockedBets m !! row_id dbPlayer = Some locked ->
  NoDup (map tb_betId locked) ->
  activeBets (globalRoom m) = Some index ->
  NoDup (map fst index) ->
  NoDup (indexIds index) ->
  exists index',
    activeBets (globalRoom (manager (fst (handlePlayerAuth sock uid username w)))) = Some index'
    /\ Map_get index' sock
       = Some (map (fun b => mkActiveBet (tb_betId b) (tb_betType b) (tb_amount b)) locked)
    /\ NoDup (indexIds index')
    /\ (forall b, b ∈ locked -> tb_betId b ∈ indexIds index').
Proof.
  intros m dbPlayer Hfind Hlocked Hnd_locked Hindex Hkeys Hids.
  unfold handlePlayerAuth. cbv zeta. fold m. rewrite Hfind.
  unfold dbPlayer in Hlocked.
  destruct (createOrUpdatePlayerByUserId (storage w) uid sock username) as [db row].
  cbn [snd] in Hlocked. rewrite Hlocked.
  cbn [fst snd manager globalRoom with_room with_players_list with_activeBets activeBets].
  rewrite Hindex, (removeStale_spec _ _ Hkeys).
  set (ids := list_to_set (map tb_betId locked) : gset Z).
  set (fresh := map (fun b => mkActiveBet (tb_betId b) (tb_betType b) (tb_amount b)) locked).
  set (cleaned := withoutRestored ids index).
  assert (map ab_id fresh = map tb_betId locked) as Hfresh_ids
    by (unfold fresh; rewrite map_map; reflexivity).
  assert (forall id, id ∈ indexIds cleaned -> id ∉ map tb_betId locked) as Hclean.
  { intros id Hid. apply withoutRestored_ids in Hid. destruct Hid as [_ Hno].
    intros Hin. apply Hno. unfold ids. apply elem_of_list_to_set. exact Hin. }
  assert (NoDup (indexIds cleaned)) as Hnd_clean by (apply withoutRestored_NoDup, Hids).
  exists (Map_set cleaned sock fresh). split; [reflexivity|].
  destruct (Map_get cleaned sock) as [entry|] eqn:Hget.
  - destruct (Map_get_split _ _ _ Hget) as (pre & post & Hsplit & Hpre).
    destruct (Map_ops_split pre post sock entry fresh Hpre) as (_ & Hset & _).
    destruct (Map_ops_split pre post sock fresh fresh Hpre) as (Hget' & _).
    rewrite Hsplit, Hset, Hget'. split; [reflexivity|].
    rewrite Hsplit in Hclean, Hnd_clean.
    rewrite indexIds_app, indexIds_cons in Hclean, Hnd_clean.
    rewrite indexIds_app, indexIds_cons, Hfresh_ids.
    apply NoDup_app in Hnd_clean. destruct Hnd_clean as (Hn1 & Hd1 & Hn2).
    apply NoDup_app in Hn2. destruct Hn2 as (_ & _ & Hn3).
    split.
    + apply NoDup_app. split; [exact Hn1|]. split.
      * intros id Hin Hin'. apply elem_of_app in Hin'. destruct Hin' as [Hin'|Hin'].
        -- apply (Hclean id); [apply elem_of_app; now left|exact Hin'].
        -- apply (Hd1 id Hin). apply elem_of_app. now right.
      * apply NoDup_app. split; [exact Hnd_locked|]. split; [|exact Hn3].
        intros id Hin Hin'. apply (Hclean id); [|exact Hin].
        apply elem_of_app. right. apply elem_of_app. now right.
    + intros b Hb. apply elem_of_app. right. apply elem_of_app. left.
      apply list_elem_of_In, in_map, list_elem_of_In, Hb.
  - assert (forall (ix : BetIndex), Map_get ix sock = None ->
                                    Map_set ix sock fresh = ix ++ [(sock, fresh)]) as Happend.
    { induction ix as [|[k e] ix IH]; simpl; [reflexivity|].
      destruct (String.eqb k sock); [discriminate|]. intros H. rewrite IH by exact H. reflexivity. }
    rewrite (Happend cleaned Hget).
    pose proof (Map_get_None _ _ Hget) as Hfresh.
    destruct (Map_ops_split cleaned [] sock fresh fresh Hfresh) as (Hget' & _).
    rewrite Hget'. split; [reflexivity|].
    rewrite indexIds_app, indexIds_cons. unfold indexIds at 2 4. simpl. rewrite !app_nil_r.
    rewrite Hfresh_ids. split.
    + apply NoDup_app. split; [exact Hnd_clean|]. split; [exact Hclean|exact Hnd_locked].
    + intros b Hb. apply elem_of_app. right.
      apply list_elem_of_In, in_map, list_elem_of_In, Hb.
Qed.

(** ** Instances *)

Lemma C2_minimum_payout_witness :
  Forall admissibleBet (allBets exampleRoom)
  /\ allBets exampleRoom <> []
  /\ betTotals exampleRoom = mkBetTotals 100 0 0 50 0
  /\ outcome_type <$> selectedOutcome hash0 exampleRoom = Some "black-high".
Proof.
  assert (Forall admissibleBet (allBets exampleRoom)) as Hall
    by (repeat constructor; simpl; lia).
  assert (allBets exampleRoom <> []) as Hne by (vm_compute; discriminate).
  split; [exact Hall|]. split; [exact Hne|]. split; [reflexivity|].
  destruct (C2_minimum_payout_selection hash0 exampleRoom Hall Hne) as (_ & _ & _ & H).
  apply H. reflexivity.
Defined.


(** A wager placed and abandoned before locking is refunded: the balance is
    back at its pre-bet value, the bets table and the index are empty, and
    the reveal settles nothing for it. *)
Example place_then_disconnect_restores_balance :
  let w := fst (run hash0 seedWorld betThenLeave) in
  players_table (storage w) !! 1 = Some (mkPlayerRow 1 7 "s1" "ann" 1000 0 0 0)
  /\ bets_table (storage w) = ∅
  /\ status (globalRoom (manager w)) = playing
  /\ houseStats (globalRoom (manager w)) = Some (mkHouseStats 0 0 0 0 1).
Proof. vm_compute. repeat split; reflexivity. Qed.

(** Three locked wagers survive a disconnect, are re-keyed under the new
    socket on re-authentication, and the reveal settles each exactly once. *)
Example locked_wagers_survive_reconnect :
  let w := fst (run hash0 seedWorld lockLeaveReturn) in
  activeBets (globalRoom (manager w))
    = Some [("s2", [mkActiveBet 1 "red" 50; mkActiveBet 2 "low" 100;
                    mkActiveBet 3 "lucky7" 10])]
  /\ lockedBets (manager w) !! 1
     = Some [mkTrackedBet "red" 50 1; mkTrackedBet "low" 100 2;
             mkTrackedBet "lucky7" 10 3]
  /\ (let w29 := fst (run hash0 w (repeat (interval_tick entropy0) 29)) in
      let room := globalRoom (manager w29) in
      map callId
          (snd (resolveBets
                  (mkWorld (with_room (manager w29)
                                      (with_card (with_status room playing)
                                                 (Some (mkCard 8 spades black true))))
                           (storage w29))))
      = [1; 2; 3])
  /\ (let w30 := fst (run hash0 w (repeat (interval_tick entropy0) 30)) in
      players_table (storage w30) !! 1
      = Some (mkPlayerRow 1 7 "s2" "ann" 840 0 3 0)).
Proof. vm_compute. repeat split; reflexivity. Qed.

(** ** No card in any payload of a countdown round *)

Lemma run_leakFree sha256_u32 (inputs : list Input) (w : World) :
  Forall (fun e => leakFree (snd e)) (snd (run sha256_u32 w inputs)).
Proof.
  revert w. induction inputs as [|i inputs IH]; intros w; simpl; [constructor|].
  pose proof (step_leakFree sha256_u32 w i) as Hstep.
  destruct (step sha256_u32 w i) as [w1 out1].
  specialize (IH w1). destruct (run sha256_u32 w1 inputs) as [w2 out2].
  simpl in *. apply Forall_app. auto.
Qed.

Lemma tick_at_ten_hides_card sha256_u32 (g : Rng) (w : World) :
  let room := globalRoom (manager w) in
  "GLOBAL" ∈ countdownIntervals (manager w) ->
  status room = countdown -> countdownTime room = 11 -> currentCard room = None ->
  exists c r,
    currentCard (globalRoom (manager (fst (countdownTick sha256_u32 g w)))) = Some c
    /\ snd (countdownTick sha256_u32 g w) = [(ToRoom "GLOBAL", countdown_tick 10 r)]
    /\ currentCard r = None /\ status r = countdown.
Proof.
  intros room Hint Hstatus Htime Hcard. unfold countdownTick. cbv zeta. fold room.
  rewrite bool_decide_eq_true_2 by exact Hint. cbn [negb].
  set (room1 := with_countdownTime room (countdownTime room - 1)).
  assert (currentCard room1 = None) as Hcard1 by exact Hcard.
  assert (countdownTime room1 = 10) as Htime1 by (unfold room1; simpl; lia).
  rewrite Hcard1, Htime1. change (10 =? 10) with true. cbn iota.
  destruct (generateSmartCard_card sha256_u32 room1 g) as (c & Hc & _).
  rewrite Hc.
  assert (countdownTime (with_card room1 (Some c)) = 10) as Htime2 by exact Htime1.
  rewrite Htime2. change (10 <=? 0) with false. cbn iota.
  exists c. eexists. cbn [fst snd manager globalRoom with_room].
  split; [reflexivity|]. split; [reflexivity|].
  split; [|rewrite sanitize_status; exact Hstatus].
  apply sanitize_hidden. simpl. rewrite Hstatus. discriminate.
Qed.

(** C6. [sanitizeRoomForBroadcast] returns no card unless the round is
    playing and the card is revealed.  Whatever sequence of inputs the engine
    processes, a payload whose room is in countdown discloses no card, and
    payloads that carry no room never disclose one.  In particular the tick
    that brings the countdown to 10 materializes the card in the room but
    broadcasts a room without it. *)
Theorem C6_no_card_during_countdown (sha256_u32 : Z -> N) (w : World)
    (inputs : list Input) :
  (forall room,
      status room <> playing
      \/ (forall c, currentCard room = Some c -> revealed c = false) ->
      currentCard (sanitizeRoomForBroadcast room) = None)
  /\ (forall e room,
         e ∈ snd (run sha256_u32 w inputs) ->
         payloadRoom (snd e) = Some room -> status room = countdown ->
         payloadCards (snd e) = [])
  /\ (forall e,
         e ∈ snd (run sha256_u32 w inputs) ->
         payloadRoom (snd e) = None -> payloadCards (snd e) = [])
  /\ (forall g,
         "GLOBAL" ∈ countdownIntervals (manager w) ->
         status (globalRoom (manager w)) = countdown ->
         countdownTime (globalRoom (manager w)) = 11 ->
         currentCard (globalRoom (manager w)) = None ->
         exists c r,
           currentCard (globalRoom (manager (fst (countdownTick sha256_u32 g w)))) = Some c
           /\ snd (countdownTick sha256_u32 g w) = [(ToRoom "GLOBAL", countdown_tick 10 r)]
           /\ currentCard r = None /\ status r = countdown).
Proof.
  split; [|split; [|split]].
  - intros room Hhidden.
    destruct (currentCard (sanitizeRoomForBroadcast room)) as [c|] eqn:E; [|reflexivity].
    apply sanitize_card in E. destruct E as (Hs & Hr & Hc).
    destruct Hhidden as [H|H]; [contradiction|]. specialize (H c Hc). congruence.
  - intros e room He Hroom Hstatus.
    pose proof (run_leakFree sha256_u32 inputs w) as Hall.
    exact (proj1 (Forall_forall _ _) Hall e He room Hroom Hstatus).
  - intros e _ Hnone. destruct (snd e); simpl in *; congruence.
  - intros g. apply tick_at_ten_hides_card.
Qed.

(** * Further properties of the round engine *)

(** ** Cards *)

Lemma resolveBets_overrides (w : World) :
  adminOverrides (manager (fst (resolveBets w))) = adminOverrides (manager w).
Proof. unfold resolveBets. repeat case_match; reflexivity. Qed.

Lemma generateCardForResult_winner (result : string) (g : Rng) :
  includes ["red"; "black"; "low"; "high"; "lucky7"] result = true ->
  exists c, generateCardForResult result g = Some c /\ isBetWinner result c = true.
Proof.
  intros Hvalid. apply includes_elem in Hvalid.
  assert (forall n : Z, n ∈ [1; 2; 3; 4; 5; 6; 8; 9; 10; 11; 12; 13] -> n <> 7) as H12.
  { intros n Hn. apply list_elem_of_In in Hn. simpl in Hn. lia. }
  unfold generateCardForResult, randomInt.
  rewrite !elem_of_cons, elem_of_nil in Hvalid.
  destruct Hvalid as [->|[->|[->|[->|[->|[]]]]]]; simpl.
  - read_random_element x Hx. read_random_element y Hy.
    eexists. split; [reflexivity|]. unfold isBetWinner. simpl.
    apply negb_true_iff, Z.eqb_neq. auto.
  - read_random_element x Hx. read_random_element y Hy.
    eexists. split; [reflexivity|]. unfold isBetWinner. simpl.
    apply negb_true_iff, Z.eqb_neq. auto.
  - read_random_element s Hs.
    eexists. split; [reflexivity|]. unfold isBetWinner. simpl.
    pose proof (Z.mod_pos_bound (g 1%nat) (7 - 1) ltac:(lia)).
    apply andb_true_iff. split; apply Z.leb_le; lia.
  - read_random_element s Hs.
    eexists. split; [reflexivity|]. unfold isBetWinner. simpl.
    pose proof (Z.mod_pos_bound (g 1%nat) (14 - 8) ltac:(lia)).
    apply Z.leb_le; lia.
  - read_random_element s Hs.
    eexists. split; [reflexivity|]. reflexivity.
Qed.

(** X1. The payout-minimizing generator never fails to produce a card:
    every array it reads is read in range, also through the hash-derived
    tie-break index.  The card has a number from 1 to 13 other than 7, is
    face down, and its colour is the colour of its suit. *)
Theorem smart_card_always_defined (sha256_u32 : Z -> N) (room : GameRoom) (g : Rng) :
  exists c, generateSmartCard sha256_u32 room g = Some c
    /\ 1 <= number c <= 13 /\ number c <> 7
    /\ color c = colorOfSuit (suit c)
    /\ revealed c = false.
Proof.
  destruct (generateSmartCard_card sha256_u32 room g) as (c & Hc & Hn & Hcol & Hrev & _).
  exists c. apply list_elem_of_In in Hn. simpl in Hn.
  split; [exact Hc|]. split; [lia|]. split; [lia|]. split; assumption.
Qed.

(** X2. For each of the five results an administrator can force, the card
    [generateCardForResult] builds makes a wager on that very result win
    under [isBetWinner], whatever the random source yields. *)
Theorem override_card_wins_its_category (result : string) (g : Rng) :
  includes ["red"; "black"; "low"; "high"; "lucky7"] result = true ->
  exists c, generateCardForResult result g = Some c /\ isBetWinner result c = true.
Proof. apply generateCardForResult_winner. Qed.

Lemma override_card_wins_witness :
  includes ["red"; "black"; "low"; "high"; "lucky7"] "lucky7" = true
  /\ exists c, generateCardForResult "lucky7" entropy0 = Some c
               /\ isBetWinner "lucky7" c = true.
Proof.
  split; [reflexivity|].
  apply (override_card_wins_its_category "lucky7" entropy0). reflexivity.
Defined.

(** X3. A forced 'red' result fixes the colour but draws the suit from all
    four suits: whenever the suit draw lands on the first suit the card is a
    red spade, so an overridden card's colour can contradict its suit (the
    automatic generator never produces such a card). *)
Theorem override_colour_ignores_suit (g : Rng) :
  g 0%nat mod 4 = 0 ->
  exists c, generateCardForResult "red" g = Some c
    /\ suit c = spades /\ color c = red
    /\ color c <> colorOfSuit (suit c).
Proof.
  intros Hg. unfold generateCardForResult, randomInt. simpl.
  match goal with |- context [js_index [spades; hearts; diamonds; clubs] ?i] =>
    replace i with 0 by (change (Z.of_nat 4 - 0) with 4; lia) end.
  change (js_index [spades; hearts; diamonds; clubs] 0) with (Some spades). simpl.
  read_random_element n Hn.
  eexists. split; [reflexivity|]. simpl. repeat split; discriminate.
Qed.

Lemma override_colour_ignores_suit_witness :
  entropy0 0%nat mod 4 = 0
  /\ exists c, generateCardForResult "red" entropy0 = Some c
       /\ suit c = spades /\ color c = red
       /\ color c <> colorOfSuit (suit c).
Proof.
  split; [reflexivity|].
  apply (override_colour_ignores_suit entropy0). reflexivity.
Defined.

(** ** Administrative override *)

(** X4. An override accepted by [setAdminOverride] decides the reveal: when
    [revealCard] next runs for that game (a card having been generated), the
    card put on the table is face up and makes the forced result win, the
    room is in [playing], and the override is consumed. *)
Theorem override_decides_revealed_card (g : Rng) (w : World) (gid : Z)
    (result : string) :
  gid <> 0 ->
  is_Some (currentCard (globalRoom (manager w))) ->
  snd (setAdminOverride gid result w) = true ->
  let w1 := fst (setAdminOverride gid result w) in
  let w2 := fst (revealCard g w1) in
  exists c, currentCard (globalRoom (manager w2)) = Some c
    /\ revealed c = true
    /\ isBetWinner result c = true
    /\ status (globalRoom (manager w2)) = playing
    /\ adminOverrides (manager w2) !! gid = None.
Proof.
  intros Hgid [c0 Hc0]. unfold setAdminOverride.
  destruct (negb (Status_eqb (status (globalRoom (manager w))) countdown)
            || negb (bool_decide (currentGameId (globalRoom (manager w)) = Some gid)))
    eqn:E1; [simpl; discriminate|].
  destruct (negb (includes ["red"; "black"; "low"; "high"; "lucky7"] result))
    eqn:E2; [simpl; discriminate|].
  intros _. cbn [fst].
  apply orb_false_iff in E1. destruct E1 as [_ E1].
  apply negb_false_iff, bool_decide_eq_true in E1.
  apply negb_false_iff in E2.
  destruct (generateCardForResult_winner result g E2) as (c & Hc & Hwin).
  unfold revealCard. cbv zeta.
  cbn [manager globalRoom storage adminOverrides playerRooms countdownIntervals
       lockedBets unlockedBets].
  rewrite Hc0, E1.
  assert (truthy (Some gid) = true) as Ht.
  { unfold truthy. apply negb_true_iff, Z.eqb_neq. exact Hgid. }
  rewrite Ht, lookup_insert_eq, Hc.
  match goal with |- context [resolveBets ?x] =>
    pose proof (resolveBets_card x) as Hrc;
    pose proof (resolveBets_status x) as Hrs;
    pose proof (resolveBets_overrides x) as Hro;
    destruct (resolveBets x) as [w2 calls] end.
  cbn [fst snd manager globalRoom with_card with_status currentCard status
       adminOverrides] in *.
  exists (mkCard (number c) (suit c) (color c) true).
  split; [exact Hrc|]. split; [reflexivity|].
  split; [exact Hwin|]. split; [exact Hrs|].
  rewrite Hro. apply lookup_delete_eq.
Qed.

Lemma override_decides_revealed_card_witness :
  exists c, currentCard (globalRoom (manager
              (fst (revealCard entropy0
                 (fst (setAdminOverride 1 "lucky7" closedWindowWorld)))))) = Some c
    /\ revealed c = true
    /\ isBetWinner "lucky7" c = true.
Proof.
  destruct (override_decides_revealed_card entropy0 closedWindowWorld 1 "lucky7")
    as (c & H1 & H2 & H3 & _).
  - lia.
  - vm_compute. eexists. reflexivity.
  - vm_compute. reflexivity.
  - exists c. auto.
Defined.

(** ** Invariants of the stored tables

    The manager reaches the tables only through the storage operations: a
    property of the database that each operation keeps is kept by every
    handler, and so by every run of the engine. *)

Section StorageInvariant.

Variable Inv : Database -> Prop.

Hypothesis Inv_updatePlayerChips :
  forall db id c db' r, Inv db -> updatePlayerChips db id c = Ok (db', r) -> Inv db'.
Hypothesis Inv_placeBet :
  forall db pid a ty v gid db' b p,
    Inv db -> placeBet db pid a ty v gid = Ok (db', b, p) -> Inv db'.
Hypothesis Inv_resolveBet :
  forall db id won a db' b p,
    Inv db -> resolveBet db id won a = Ok (db', b, p) -> Inv db'.
Hypothesis Inv_deleteBet : forall db id, Inv db -> Inv (deleteBet db id).
Hypothesis Inv_createGame :
  forall db r n c t np db' row, Inv db -> createGame db r n c t np = (db', row) -> Inv db'.
Hypothesis Inv_updateGameCard : forall db gid n c, Inv db -> Inv (updateGameCard db gid n c).
Hypothesis Inv_markGameCompleted : forall db gid, Inv db -> Inv (markGameCompleted db gid).
Hypothesis Inv_upsert :
  forall db uid s n db' row,
    Inv db -> createOrUpdatePlayerByUserId db uid s n = (db', row) -> Inv db'.

Variable sha256_u32 : Z -> N.

Lemma cancelLoop_storage sock bets db index db1 index1 refund :
  Inv db -> cancelLoop sock bets db index = (db1, index1, refund) -> Inv db1.
Proof.
  intros H. unfold cancelLoop. rewrite cancelLoop_from. intros [= <- _ _].
  revert db H. induction bets as [|b bets IH]; intros db H; simpl; auto.
Qed.

Ltac storage_inv :=
  repeat first
    [ assumption
    | match goal with
      | E : updatePlayerChips _ _ _ = Ok _ |- _ =>
          eapply Inv_updatePlayerChips; [|exact E]
      | E : placeBet _ _ _ _ _ _ = Ok _ |- _ => eapply Inv_placeBet; [|exact E]
      | E : resolveBet _ _ _ _ = Ok _ |- _ => eapply Inv_resolveBet; [|exact E]
      | E : createGame _ _ _ _ _ _ = _ |- _ => eapply Inv_createGame; [|exact E]
      | E : createOrUpdatePlayerByUserId _ _ _ _ = _ |- _ =>
          eapply Inv_upsert; [|exact E]
      | E : cancelLoop _ _ _ _ = _ |- _ => eapply cancelLoop_storage; [|exact E]
      | |- Inv (markGameCompleted _ _) => apply Inv_markGameCompleted
      | |- Inv (updateGameCard _ _ _ _) => apply Inv_updateGameCard
      end ].

Lemma leaveRoom_storage sock w :
  Inv (storage w) -> Inv (storage (fst (leaveRoom sock w))).
Proof.
  intros H. unfold leaveRoom.
  repeat case_match; try exact H; cbn [fst storage];
    repeat match goal with
           | E : (_, _) = (_, _) |- _ => injection E as <- <- <-
           end;
    storage_inv.
Qed.

Lemma joinRoom_storage sock w :
  Inv (storage w) -> Inv (storage (fst (joinRoom sock w))).
Proof.
  intros H. unfold joinRoom. pose proof (leaveRoom_storage sock w H) as Hl.
  destruct (leaveRoom sock w) as [w1 out1]. exact Hl.
Qed.

Lemma handlePlayerAuth_storage sock uid username w :
  Inv (storage w) -> Inv (storage (fst (handlePlayerAuth sock uid username w))).
Proof.
  intros H. unfold handlePlayerAuth.
  repeat case_match; try exact H; cbn [fst storage]; storage_inv.
Qed.

Lemma handlePlaceBet_storage sock ty value amount w :
  Inv (storage w) -> Inv (storage (fst (handlePlaceBet sock ty value amount w))).
Proof.
  intros H. unfold handlePlaceBet.
  repeat case_match; try exact H; cbn [fst storage]; storage_inv.
Qed.

Lemma handleLockBet_storage sock w :
  Inv (storage w) -> Inv (storage (fst (handleLockBet sock w))).
Proof.
  intros H. unfold handleLockBet. repeat case_match; exact H.
Qed.

Lemma cancelAndRefund_storage sock player bets clear done w :
  Inv (storage w) -> Inv (storage (fst (cancelAndRefund sock player bets clear done w))).
Proof.
  intros H. unfold cancelAndRefund.
  repeat case_match; cbn [fst storage]; storage_inv.
Qed.

Lemma handleCancelLockedBets_storage sock w :
  Inv (storage w) -> Inv (storage (fst (handleCancelLockedBets sock w))).
Proof.
  intros H. unfold handleCancelLockedBets.
  repeat case_match; try exact H; auto using cancelAndRefund_storage.
Qed.

Lemma handleCancelBet_storage sock cancelLocked w :
  Inv (storage w) -> Inv (storage (fst (handleCancelBet sock cancelLocked w))).
Proof.
  intros H. unfold handleCancelBet.
  repeat case_match; try exact H;
    auto using cancelAndRefund_storage, handleCancelLockedBets_storage.
Qed.

Lemma resolveOne_storage card sock acc bet :
  Inv (settled_db acc) -> Inv (settled_db (resolveOne card sock acc bet)).
Proof.
  intros H. unfold resolveOne. repeat case_match; try exact H; cbn [settled_db]; storage_inv.
Qed.

Lemma resolveLoop_storage card index acc :
  Inv (settled_db acc) -> Inv (settled_db (resolveLoop card index acc)).
Proof.
  rewrite resolveLoop_flat. revert acc.
  induction (flatBets index) as [|sb l IH]; intros acc H; simpl; auto.
  apply IH, resolveOne_storage, H.
Qed.

Lemma resolveBets_storage w :
  Inv (storage w) -> Inv (storage (fst (resolveBets w))).
Proof.
  intros H. unfold resolveBets. repeat case_match; simpl; auto.
  apply resolveLoop_storage. exact H.
Qed.

Lemma revealCard_storage g w :
  Inv (storage w) -> Inv (storage (fst (revealCard g w))).
Proof.
  intros H. unfold revealCard.
  destruct (currentCard (globalRoom (manager w))); [|exact H].
  match goal with |- context [let '(card, overrides) := ?x in _] =>
    destruct x as [card overrides] end.
  match goal with |- context [resolveBets ?x] =>
    pose proof (resolveBets_storage x H) as Hr; destruct (resolveBets x) as [w2 calls] end.
  cbn [fst snd storage] in *. repeat case_match; storage_inv.
Qed.

Lemma startGame_storage now w :
  Inv (storage w) -> Inv (storage (fst (startGame now w))).
Proof.
  intros H. unfold startGame. repeat case_match; try exact H; cbn [fst storage]; storage_inv.
Qed.

Lemma countdownTick_storage g w :
  Inv (storage w) -> Inv (storage (fst (countdownTick sha256_u32 g w))).
Proof.
  intros H. unfold countdownTick. cbv zeta.
  destruct (negb (bool_decide ("GLOBAL" ∈ countdownIntervals (manager w)))); [exact H|].
  match goal with |- context [if ?b then _ else _] => destruct b end; [|exact H].
  match goal with |- context [revealCard g ?x] =>
    pose proof (revealCard_storage g x H) as Hr; destruct (revealCard g x) as [w2 out] end.
  exact Hr.
Qed.

Lemma startNextRound_storage now w :
  Inv (storage w) -> Inv (storage (fst (startNextRound now w))).
Proof.
  intros H. unfold startNextRound. cbv zeta.
  match goal with |- context [startGame now ?x] =>
    pose proof (startGame_storage now x H) as Hs; destruct (startGame now x) as [w2 out] end.
  exact Hs.
Qed.

Lemma step_storage w i :
  Inv (storage w) -> Inv (storage (fst (step sha256_u32 w i))).
Proof.
  intros H. destruct i; cbn [step].
  - apply joinRoom_storage, H.
  - apply leaveRoom_storage, H.
  - apply handlePlayerAuth_storage, H.
  - apply handlePlaceBet_storage, H.
  - apply handleLockBet_storage, H.
  - apply handleCancelBet_storage, H.
  - apply startGame_storage, H.
  - apply countdownTick_storage, H.
  - apply startNextRound_storage, H.
  - unfold setAdminOverride. repeat case_match; exact H.
Qed.

Lemma run_storage inputs w :
  Inv (storage w) -> Inv (storage (fst (run sha256_u32 w inputs))).
Proof.
  revert w. induction inputs as [|i inputs IH]; intros w H; simpl; [exact H|].
  pose proof (step_storage w i H) as Hstep.
  destruct (step sha256_u32 w i) as [w1 out1].
  specialize (IH w1 Hstep). destruct (run sha256_u32 w1 inputs) as [w2 out2].
  exact IH.
Qed.

End StorageInvariant.

(** *** Balances *)

Lemma nonneg_same (db db' : Database) :
  players_table db' = players_table db -> nonnegBalances db -> nonnegBalances db'.
Proof. intros E H id row. rewrite E. apply H. Qed.

Lemma nonneg_insert (db db' : Database) (id : Z) (row : PlayerRow) :
  players_table db' = <[id := row]> (players_table db) -> 0 <= chips row ->
  nonnegBalances db -> nonnegBalances db'.
Proof.
  intros E Hrow H id' row'. rewrite E.
  destruct (decide (id' = id)) as [->|Hne].
  - rewrite lookup_insert_eq. intros [= <-]. exact Hrow.
  - rewrite lookup_insert_ne by congruence. apply H.
Qed.

Lemma nonneg_updatePlayerChips db id c db' r :
  nonnegBalances db -> updatePlayerChips db id c = Ok (db', r) -> nonnegBalances db'.
Proof.
  intros H. unfold updatePlayerChips.
  destruct (c <? 0) eqn:Ec; [discriminate|]. apply Z.ltb_ge in Ec.
  destruct (players_table db !! id) as [p|]; intros [= <- _]; [|exact H].
  eapply nonneg_insert; [reflexivity| |exact H]. exact Ec.
Qed.

Lemma nonneg_placeBet db pid a ty v gid db' b p :
  nonnegBalances db -> placeBet db pid a ty v gid = Ok (db', b, p) -> nonnegBalances db'.
Proof.
  intros H. unfold placeBet.
  destruct (players_table db !! pid) as [row|]; [|discriminate].
  destruct (chips row <? a) eqn:Ea; [discriminate|]. apply Z.ltb_ge in Ea.
  intros [= <- _ _].
  eapply nonneg_insert; [reflexivity| |exact H]. simpl. lia.
Qed.

Lemma nonneg_resolveBet db id won a db' b p :
  nonnegBalances db -> resolveBet db id won a = Ok (db', b, p) -> nonnegBalances db'.
Proof.
  intros H. unfold resolveBet.
  destruct (bets_table db !! id) as [bet|]; [|discriminate].
  destruct (players_table db !! playerId bet) as [row|] eqn:Erow; intros [= <- _ _].
  - eapply nonneg_insert; [reflexivity| |exact H].
    pose proof (H _ _ Erow).
    destruct (won && (0 <? a)) eqn:Ew; simpl; [|assumption].
    apply andb_true_iff in Ew. destruct Ew as [_ Ew]. apply Z.ltb_lt in Ew. lia.
  - exact H.
Qed.

Lemma nonneg_upsert db uid s n db' row :
  nonnegBalances db -> createOrUpdatePlayerByUserId db uid s n = (db', row) ->
  nonnegBalances db'.
Proof.
  intros H. unfold createOrUpdatePlayerByUserId.
  destruct (getPlayerByUserId db uid); intros [= <- _].
  - intros id r. simpl. rewrite lookup_fmap.
    destruct (players_table db !! id) as [r0|] eqn:E; [|discriminate].
    intros [= <-]. pose proof (H _ _ E). case_bool_decide; simpl; assumption.
  - eapply nonneg_insert; [reflexivity| |exact H]. simpl. lia.
Qed.

(** X5. No sequence of events drives a stored balance below zero: if every
    account holds a non-negative number of chips, the same is true after any
    run of joins, disconnects, sign-ins, bets, locks, cancellations, timer
    ticks and overrides. *)
Theorem balances_never_negative (sha256_u32 : Z -> N) (inputs : list Input)
    (w : World) :
  nonnegBalances (storage w) ->
  nonnegBalances (storage (fst (run sha256_u32 w inputs))).
Proof.
  apply (run_storage nonnegBalances).
  - exact nonneg_updatePlayerChips.
  - exact nonneg_placeBet.
  - exact nonneg_resolveBet.
  - intros db id. apply nonneg_same. reflexivity.
  - intros db r n c t np db' row H [= <- _]. revert H. apply nonneg_same. reflexivity.
  - intros db gid n c. apply nonneg_same. reflexivity.
  - intros db gid. apply nonneg_same. reflexivity.
  - exact nonneg_upsert.
Qed.

Lemma balances_never_negative_witness :
  nonnegBalances (storage seedWorld)
  /\ nonnegBalances (storage (fst (run hash0 seedWorld betThenWait))).
Proof.
  assert (nonnegBalances (storage seedWorld)) as H.
  { intros id row Hl.
    change (players_table (storage seedWorld))
      with ({[ 1 := annRow 1000 0 ]} : gmap Z PlayerRow) in Hl.
    apply lookup_singleton_Some in Hl as [_ <-]. simpl. lia. }
  split; [exact H|].
  apply (balances_never_negative hash0 betThenWait seedWorld). exact H.
Defined.

(** *** Serial numbers *)

Lemma ahead_insert {R} (key : R -> Z) (t : gmap Z R) (s s' id : Z) (row : R) :
  (forall i r, t !! i = Some r -> key r = i /\ i < s) ->
  key row = id -> id < s' -> s <= s' ->
  forall i r, <[id := row]> t !! i = Some r -> key r = i /\ i < s'.
Proof.
  intros H Hk Hid Hs i r. destruct (decide (i = id)) as [->|Hne].
  - rewrite lookup_insert_eq. intros [= <-]. auto.
  - rewrite lookup_insert_ne by congruence. intros Hl.
    destruct (H _ _ Hl). split; [assumption|lia].
Qed.

Lemma ahead_alter {R} (key : R -> Z) (f : R -> R) (t : gmap Z R) (s id : Z) :
  (forall i r, t !! i = Some r -> key r = i /\ i < s) ->
  (forall r, key (f r) = key r) ->
  forall i r, alter f id t !! i = Some r -> key r = i /\ i < s.
Proof.
  intros H Hf i r. rewrite lookup_alter_Some.
  intros [(-> & x & Hx & ->)|[_ Hl]]; [|eauto].
  rewrite Hf. eauto.
Qed.

Lemma ahead_updatePlayerChips db id c db' r :
  serialsAhead db -> updatePlayerChips db id c = Ok (db', r) -> serialsAhead db'.
Proof.
  intros (Hb & Hg & Hp). unfold updatePlayerChips.
  destruct (c <? 0); [discriminate|].
  destruct (players_table db !! id) as [p|] eqn:Ep; intros [= <- _];
    [|exact (conj Hb (conj Hg Hp))].
  destruct (Hp _ _ Ep) as [Hk Hlt].
  split; [exact Hb|]. split; [exact Hg|]. cbn.
  eapply ahead_insert; [exact Hp|exact Hk|exact Hlt|lia].
Qed.

Lemma ahead_placeBet db pid a ty v gid db' b p :
  serialsAhead db -> placeBet db pid a ty v gid = Ok (db', b, p) -> serialsAhead db'.
Proof.
  intros (Hb & Hg & Hp). unfold placeBet.
  destruct (players_table db !! pid) as [row|] eqn:Ep; [|discriminate].
  destruct (chips row <? a); [discriminate|]. intros [= <- _ _].
  destruct (Hp _ _ Ep) as [Hk Hlt].
  split; [|split; [exact Hg|]]; cbn.
  - eapply ahead_insert; [exact Hb|reflexivity|lia|lia].
  - eapply ahead_insert; [exact Hp|exact Hk|exact Hlt|lia].
Qed.

Lemma ahead_resolveBet db id won a db' b p :
  serialsAhead db -> resolveBet db id won a = Ok (db', b, p) -> serialsAhead db'.
Proof.
  intros (Hb & Hg & Hp). unfold resolveBet.
  destruct (bets_table db !! id) as [bet|] eqn:Eb; [|discriminate].
  destruct (Hb _ _ Eb) as [Hbk Hblt].
  destruct (players_table db !! playerId bet) as [row|] eqn:Ep; intros [= <- _ _].
  - destruct (Hp _ _ Ep) as [Hk Hlt].
    split; [|split; [exact Hg|]]; cbn.
    + eapply ahead_insert; [exact Hb|exact Hbk|exact Hblt|lia].
    + eapply ahead_insert; [exact Hp| |exact Hlt|lia].
      destruct (won && (0 <? a)); exact Hk.
  - split; [|split; [exact Hg|exact Hp]]; cbn.
    eapply ahead_insert; [exact Hb|exact Hbk|exact Hblt|lia].
Qed.

Lemma ahead_deleteBet db id : serialsAhead db -> serialsAhead (deleteBet db id).
Proof.
  intros (Hb & Hg & Hp). split; [|split; [exact Hg|exact Hp]]; cbn.
  intros i r. rewrite lookup_delete_Some. intros [_ Hl]. eauto.
Qed.

Lemma ahead_createGame db r n c t np db' row :
  serialsAhead db -> createGame db r n c t np = (db', row) -> serialsAhead db'.
Proof.
  intros (Hb & Hg & Hp) [= <- _].
  split; [exact Hb|]. split; [|exact Hp]. cbn.
  eapply ahead_insert; [exact Hg|reflexivity|lia|lia].
Qed.

Lemma ahead_updateGameCard db gid n c :
  serialsAhead db -> serialsAhead (updateGameCard db gid n c).
Proof.
  intros (Hb & Hg & Hp). split; [exact Hb|]. split; [|exact Hp]. cbn.
  eapply ahead_alter; [exact Hg|reflexivity].
Qed.

Lemma ahead_markGameCompleted db gid :
  serialsAhead db -> serialsAhead (markGameCompleted db gid).
Proof.
  intros (Hb & Hg & Hp). split; [exact Hb|]. split; [|exact Hp]. cbn.
  eapply ahead_alter; [exact Hg|reflexivity].
Qed.

Lemma ahead_upsert db uid s n db' row :
  serialsAhead db -> createOrUpdatePlayerByUserId db uid s n = (db', row) ->
  serialsAhead db'.
Proof.
  intros (Hb & Hg & Hp). unfold createOrUpdatePlayerByUserId.
  destruct (getPlayerByUserId db uid); intros [= <- _];
    (split; [exact Hb|]; split; [exact Hg|]); cbn.
  - intros i r. rewrite lookup_fmap.
    destruct (players_table db !! i) as [r0|] eqn:E; [|discriminate].
    intros [= <-]. destruct (Hp _ _ E). case_bool_decide; auto.
  - eapply ahead_insert; [exact Hp|reflexivity|lia|lia].
Qed.

Lemma ahead_run sha256_u32 (inputs : list Input) (w : World) :
  serialsAhead (storage w) ->
  serialsAhead (storage (fst (run sha256_u32 w inputs))).
Proof.
  apply (run_storage serialsAhead).
  - exact ahead_updatePlayerChips.
  - exact ahead_placeBet.
  - exact ahead_resolveBet.
  - exact ahead_deleteBet.
  - exact ahead_createGame.
  - exact ahead_updateGameCard.
  - exact ahead_markGameCompleted.
  - exact ahead_upsert.
Qed.

Lemma serialsAhead_empty : serialsAhead emptyDatabase.
Proof.
  split; [|split]; intros i r Hl; cbn in Hl; rewrite lookup_empty in Hl; discriminate.
Qed.

(** X6. Row identifiers are never reused.  Starting from the empty database,
    after any run every bet, game and player row is stored under its own id
    and below the table's next serial number; so the id the next [placeBet]
    or [createGame] assigns belongs to no stored row, and a new bet cannot
    overwrite an earlier one. *)
Theorem row_ids_never_reused (sha256_u32 : Z -> N) (inputs : list Input) :
  let db := storage (fst (run sha256_u32 initialWorld inputs)) in
  serialsAhead db
  /\ bets_table db !! bets_serial db = None
  /\ games_table db !! games_serial db = None
  /\ players_table db !! players_serial db = None.
Proof.
  intros db.
  assert (serialsAhead db) as H.
  { apply ahead_run. exact serialsAhead_empty. }
  split; [exact H|]. destruct H as (Hb & Hg & Hp).
  split; [|split].
  - destruct (bets_table db !! bets_serial db) eqn:E; [|reflexivity].
    destruct (Hb _ _ E). lia.
  - destruct (games_table db !! games_serial db) eqn:E; [|reflexivity].
    destruct (Hg _ _ E). lia.
  - destruct (players_table db !! players_serial db) eqn:E; [|reflexivity].
    destruct (Hp _ _ E). lia.
Qed.

(** ** The round state and the events of players *)

Lemma leaveRoom_roundState sock w : roundState (fst (leaveRoom sock w)) = roundState w.
Proof. unfold leaveRoom. repeat case_match; reflexivity. Qed.

Lemma joinRoom_roundState sock w : roundState (fst (joinRoom sock w)) = roundState w.
Proof.
  unfold joinRoom. pose proof (leaveRoom_roundState sock w) as Hl.
  destruct (leaveRoom sock w) as [w1 out1]. exact Hl.
Qed.

Lemma handlePlayerAuth_roundState sock uid username w :
  roundState (fst (handlePlayerAuth sock uid username w)) = roundState w.
Proof. unfold handlePlayerAuth. repeat case_match; simplify_eq; reflexivity. Qed.

Lemma handlePlaceBet_roundState sock ty value amount w :
  roundState (fst (handlePlaceBet sock ty value amount w)) = roundState w.
Proof. unfold handlePlaceBet. repeat case_match; reflexivity. Qed.

Lemma handleLockBet_roundState sock w :
  roundState (fst (handleLockBet sock w)) = roundState w.
Proof. unfold handleLockBet. repeat case_match; reflexivity. Qed.

Lemma handleCancelLockedBets_roundState sock w :
  roundState (fst (handleCancelLockedBets sock w)) = roundState w.
Proof.
  unfold handleCancelLockedBets, cancelAndRefund. repeat case_match; reflexivity.
Qed.

Lemma handleCancelBet_roundState sock cancelLocked w :
  roundState (fst (handleCancelBet sock cancelLocked w)) = roundState w.
Proof.
  unfold handleCancelBet.
  repeat case_match; try reflexivity; try apply handleCancelLockedBets_roundState;
    unfold cancelAndRefund; repeat case_match; reflexivity.
Qed.

Lemma playerInput_roundState sha256_u32 (w : World) (i : Input) :
  playerInput i = true -> roundState (fst (step sha256_u32 w i)) = roundState w.
Proof.
  destruct i; try discriminate; intros _; cbn [step].
  - apply joinRoom_roundState.
  - apply leaveRoom_roundState.
  - apply handlePlayerAuth_roundState.
  - apply handlePlaceBet_roundState.
  - apply handleLockBet_roundState.
  - apply handleCancelBet_roundState.
Qed.

(** X7. Nothing a player can send changes the round itself.  Joining,
    disconnecting, signing in, placing, locking and cancelling bets leave
    the phase, the countdown, the card, the game id and round number, the
    house ledger, the running timer and the pending overrides exactly as
    they were; only the timers and the administrator write them. *)
Theorem player_events_keep_round_state (sha256_u32 : Z -> N) (w : World)
    (inputs : list Input) :
  forallb playerInput inputs = true ->
  roundState (fst (run sha256_u32 w inputs)) = roundState w.
Proof.
  revert w. induction inputs as [|i inputs IH]; intros w Hall; [reflexivity|].
  cbn [forallb] in Hall. apply andb_true_iff in Hall. destruct Hall as [Hi Hall].
  cbn [run].
  pose proof (playerInput_roundState sha256_u32 w i Hi) as Hstep.
  destruct (step sha256_u32 w i) as [w1 out1].
  specialize (IH w1 Hall). destruct (run sha256_u32 w1 inputs) as [w2 out2].
  cbn [fst] in *. congruence.
Qed.

Lemma player_events_keep_round_state_witness :
  forallb playerInput
    [join_room "s1"; update_player_auth "s1" 7 "ann"; place_bet "s1" "red" None 50;
     cancel_bet "s1" false; disconnect "s1"] = true
  /\ roundState (fst (run hash0 closedWindowWorld
       [join_room "s1"; update_player_auth "s1" 7 "ann"; place_bet "s1" "red" None 50;
        cancel_bet "s1" false; disconnect "s1"]))
     = roundState closedWindowWorld.
Proof.
  split; [reflexivity|].
  apply (player_events_keep_round_state hash0 closedWindowWorld). reflexivity.
Defined.

(** ** The round timers *)

Lemma resolveBets_round (w : World) :
  let m := manager w in
  let m' := manager (fst (resolveBets w)) in
  currentGameId (globalRoom m') = currentGameId (globalRoom m)
  /\ countdownTime (globalRoom m') = countdownTime (globalRoom m)
  /\ countdownIntervals m' = countdownIntervals m
  /\ (ledgerBalanced (globalRoom m) -> ledgerBalanced (globalRoom m')).
Proof.
  unfold resolveBets. repeat case_match; cbn; repeat split; auto.
  intros Hl stats' [= <-]. unfold updateHouseStats. cbn.
  match goal with E : houseStats _ = Some ?s |- _ => specialize (Hl s E) end. lia.
Qed.

Lemma revealCard_round (g : Rng) (w : World) :
  let m := manager w in
  let m' := manager (fst (revealCard g w)) in
  currentGameId (globalRoom m') = currentGameId (globalRoom m)
  /\ countdownTime (globalRoom m') = countdownTime (globalRoom m)
  /\ countdownIntervals m' = countdownIntervals m
  /\ (ledgerBalanced (globalRoom m) -> ledgerBalanced (globalRoom m'))
  /\ (forall gid x, adminOverrides m' !! gid = Some x ->
                    adminOverrides m !! gid = Some x)
  /\ (status (globalRoom m') = status (globalRoom m)
      \/ status (globalRoom m') = playing).
Proof.
  unfold revealCard. cbv zeta.
  destruct (currentCard (globalRoom (manager w))) as [c0|]; [|cbn; tauto].
  match goal with |- context [let '(card, overrides) := ?x in _] =>
    assert (forall gid y, snd x !! gid = Some y ->
                          adminOverrides (manager w) !! gid = Some y) as Hov;
    [ repeat case_match; cbn; auto; intros gid y;
      rewrite lookup_delete_Some; tauto
    | destruct x as [card overrides] ] end.
  match goal with |- context [resolveBets ?x] =>
    pose proof (resolveBets_round x) as (H1 & H2 & H3 & H4);
    pose proof (resolveBets_status x) as H5;
    pose proof (resolveBets_overrides x) as H6;
    destruct (resolveBets x) as [w2 calls] end.
  cbn in *. rewrite H1, H2, H3, H5, H6.
  split; [reflexivity|]. split; [reflexivity|]. split; [reflexivity|].
  split; [exact H4|]. split; [exact Hov|]. right. reflexivity.
Qed.

Lemma startGame_round (now : Z) (w : World) :
  let m := manager w in
  let m' := manager (fst (startGame now w)) in
  houseStats (globalRoom m') = houseStats (globalRoom m)
  /\ adminOverrides m' = adminOverrides m
  /\ (status (globalRoom m) <> waiting -> fst (startGame now w) = w)
  /\ (status (globalRoom m) = waiting ->
      status (globalRoom m') = countdown
      /\ countdownTime (globalRoom m') = 30
      /\ currentCard (globalRoom m') = None
      /\ currentGameId (globalRoom m') = Some (games_serial (storage w))
      /\ games_serial (storage (fst (startGame now w))) = games_serial (storage w) + 1
      /\ countdownIntervals m' = countdownIntervals m ∪ {["GLOBAL"]}
      /\ activeBets (globalRoom m') = activeBets (globalRoom m)
      /\ lockedBets m' = lockedBets m /\ unlockedBets m' = unlockedBets m).
Proof.
  unfold startGame. cbv zeta.
  destruct (Status_eqb (status (globalRoom (manager w))) waiting) eqn:E; cbn.
  - apply Status_eqb_eq in E.
    split; [reflexivity|]. split; [reflexivity|].
    split; [intros Hne; contradiction|]. intros _. repeat split; reflexivity.
  - split; [reflexivity|]. split; [reflexivity|].
    split; [reflexivity|]. intros Hw. apply Status_eqb_eq in Hw. congruence.
Qed.

Lemma countdownTick_round sha256_u32 (g : Rng) (w : World) :
  let m := manager w in
  let m' := manager (fst (countdownTick sha256_u32 g w)) in
  currentGameId (globalRoom m') = currentGameId (globalRoom m)
  /\ (ledgerBalanced (globalRoom m) -> ledgerBalanced (globalRoom m'))
  /\ (forall gid x, adminOverrides m' !! gid = Some x ->
                    adminOverrides m !! gid = Some x)
  /\ (status (globalRoom m') = status (globalRoom m)
      \/ status (globalRoom m') = playing).
Proof.
  unfold countdownTick. cbv zeta.
  destruct (negb (bool_decide ("GLOBAL" ∈ countdownIntervals (manager w))));
    [cbn; tauto|].
  set (room := globalRoom (manager w)).
  set (room1 := with_countdownTime room (countdownTime room - 1)).
  set (room2 := match currentCard room1 with
                | Some _ => room1
                | None => _
                end).
  assert (currentGameId room2 = currentGameId room
          /\ houseStats room2 = houseStats room
          /\ status room2 = status room) as (E1 & E2 & E3).
  { unfold room2, room1. repeat case_match; cbn; auto. }
  assert (ledgerBalanced room -> ledgerBalanced room2) as Hl.
  { unfold ledgerBalanced. rewrite E2. auto. }
  destruct (countdownTime room2 <=? 0).
  - match goal with |- context [revealCard g ?x] =>
      pose proof (revealCard_round g x) as (H1 & _ & _ & H4 & H5 & H6);
      destruct (revealCard g x) as [w2 out] end.
    cbn in *. rewrite H1, E1. split; [reflexivity|].
    split; [auto|]. split; [exact H5|]. rewrite <- E3. exact H6.
  - cbn. split; [exact E1|]. split; [exact Hl|]. split; [auto|]. left. exact E3.
Qed.

Lemma startNextRound_round (now : Z) (w : World) :
  let m := manager w in
  let w' := fst (startNextRound now w) in
  let m' := manager w' in
  houseStats (globalRoom m') = houseStats (globalRoom m)
  /\ adminOverrides m' = adminOverrides m
  /\ status (globalRoom m') = countdown
  /\ countdownTime (globalRoom m') = 30
  /\ currentCard (globalRoom m') = None
  /\ currentGameId (globalRoom m') = Some (games_serial (storage w))
  /\ games_serial (storage w') = games_serial (storage w) + 1
  /\ allBets (globalRoom m') = []
  /\ lockedBets m' = ∅ /\ unlockedBets m' = ∅.
Proof.
  unfold startNextRound. cbv zeta.
  match goal with |- context [startGame now ?x] =>
    pose proof (startGame_round now x) as (H1 & H2 & _ & H4);
    destruct (startGame now x) as [w2 out] end.
  cbn in *. destruct (H4 eq_refl) as (G1 & G2 & G3 & G4 & G5 & _ & G7 & G8 & G9).
  rewrite H1, H2, G1, G2, G3, G4, G5, G8, G9.
  repeat (split; [reflexivity|]). split; [|split; reflexivity].
  unfold allBets. rewrite G7. destruct (activeBets (globalRoom (manager w))); reflexivity.
Qed.

(** *** The house ledger *)

Lemma ledger_roundState (w w' : World) :
  roundState w' = roundState w ->
  ledgerBalanced (globalRoom (manager w)) -> ledgerBalanced (globalRoom (manager w')).
Proof.
  unfold roundState, ledgerBalanced. intros [= _ _ _ _ _ _ E _ _]. rewrite E. auto.
Qed.

Lemma ledger_step sha256_u32 (w : World) (i : Input) :
  ledgerBalanced (globalRoom (manager w)) ->
  ledgerBalanced (globalRoom (manager (fst (step sha256_u32 w i)))).
Proof.
  intros H.
  destruct (playerInput i) eqn:Ei.
  { eapply ledger_roundState; [|exact H]. apply playerInput_roundState, Ei. }
  destruct i; try discriminate; cbn [step].
  - destruct (startGame_round now w) as (E & _). unfold ledgerBalanced in *.
    rewrite E. exact H.
  - apply (countdownTick_round sha256_u32 g w), H.
  - destruct (startNextRound_round now w) as (E & _).
    unfold ledgerBalanced in *. rewrite E. exact H.
  - unfold setAdminOverride. repeat case_match; exact H.
Qed.

(** X8. The house ledger stays consistent: if the running profit equals
    total wagered minus total paid out, it still does after any run of the
    engine; each settlement adds the round's stakes to the first, its
    payouts to the second and their difference to the profit, and nothing
    else writes the ledger. *)
Theorem house_ledger_balanced (sha256_u32 : Z -> N) (inputs : list Input)
    (w : World) :
  ledgerBalanced (globalRoom (manager w)) ->
  ledgerBalanced (globalRoom (manager (fst (run sha256_u32 w inputs)))).
Proof.
  revert w. induction inputs as [|i inputs IH]; intros w H; [exact H|].
  cbn [run]. pose proof (ledger_step sha256_u32 w i H) as Hstep.
  destruct (step sha256_u32 w i) as [w1 out1].
  specialize (IH w1 Hstep). destruct (run sha256_u32 w1 inputs) as [w2 out2].
  exact IH.
Qed.

Lemma house_ledger_balanced_witness :
  ledgerBalanced (globalRoom (manager seedWorld))
  /\ ledgerBalanced
       (globalRoom (manager (fst (run hash0 seedWorld
          (betThenWait ++ repeat (interval_tick entropy0) 5))))).
Proof.
  assert (ledgerBalanced (globalRoom (manager seedWorld))) as H.
  { intros h [= <-]. reflexivity. }
  split; [exact H|].
  apply (house_ledger_balanced hash0 _ seedWorld). exact H.
Defined.

(** *** The phase, and the administrator's view of the round *)

Lemma status_step sha256_u32 (w : World) (i : Input) :
  let s := status (globalRoom (manager w)) in
  let s' := status (globalRoom (manager (fst (step sha256_u32 w i)))) in
  s' = s \/ s' = countdown \/ s' = playing.
Proof.
  cbv zeta. destruct (playerInput i) eqn:Ei.
  { left. pose proof (playerInput_roundState sha256_u32 w i Ei) as E.
    unfold roundState in E. congruence. }
  destruct i; try discriminate; cbn [step].
  - destruct (Status_eqb (status (globalRoom (manager w))) waiting) eqn:E.
    + apply Status_eqb_eq in E.
      destruct (startGame_round now w) as (_ & _ & _ & H). destruct (H E) as (-> & _).
      auto.
    + destruct (startGame_round now w) as (_ & _ & H & _). rewrite H; [auto|].
      intros Hw. apply Status_eqb_eq in Hw. congruence.
  - destruct (countdownTick_round sha256_u32 g w) as (_ & _ & _ & [H|H]); auto.
  - destruct (startNextRound_round now w) as (_ & _ & H & _). auto.
  - unfold setAdminOverride. repeat case_match; auto.
Qed.

Lemma status_run sha256_u32 (inputs : list Input) (w : World) :
  status (globalRoom (manager w)) <> finished ->
  status (globalRoom (manager (fst (run sha256_u32 w inputs)))) <> finished.
Proof.
  revert w. induction inputs as [|i inputs IH]; intros w H; [exact H|].
  cbn [run]. pose proof (status_step sha256_u32 w i) as Hstep.
  destruct (step sha256_u32 w i) as [w1 out1].
  specialize (IH w1). destruct (run sha256_u32 w1 inputs) as [w2 out2].
  cbn [fst] in *. apply IH. cbv zeta in Hstep.
  destruct Hstep as [E|[E|E]]; rewrite E; auto; discriminate.
Qed.

Lemma fold_nested_flat {A B} (f : A -> B -> A) (index : list (string * list B)) (a : A) :
  fold_left (fun acc entry => fold_left f (snd entry) acc) index a
  = fold_left f (concat (map snd index)) a.
Proof.
  revert a. induction index as [|e index IH]; intros a; [reflexivity|].
  cbn. rewrite fold_left_app. apply IH.
Qed.

Lemma addToType_addBetTotal (b : BetsByType) (t : BetTotals) (bet : ActiveBet) :
  sameTotals b t ->
  sameTotals (addToType b (ab_betType bet) (ab_betAmount bet)) (addBetTotal t bet).
Proof.
  intros (H1 & H2 & H3 & H4 & H5). unfold addToType, addBetTotal, includes. cbv zeta.
  cbn [existsb].
  destruct (String.eqb (ab_betType bet) "low") eqn:Elow;
  destruct (String.eqb (ab_betType bet) "high") eqn:Ehigh;
  destruct (String.eqb (ab_betType bet) "lucky7") eqn:Elucky;
  destruct (String.eqb (ab_betType bet) "red") eqn:Ered;
  destruct (String.eqb (ab_betType bet) "black") eqn:Eblack;
  repeat match goal with
         | E : String.eqb _ _ = true |- _ => apply String.eqb_eq in E
         end;
  try congruence;
  cbn; unfold sameTotals; cbn; repeat split; congruence.
Qed.

Lemma roundData_fold (bets : list ActiveBet) (total : Z) (b : BetsByType)
    (t : BetTotals) :
  sameTotals b t ->
  let res :=
    fold_left
      (fun '(total, byType) bet =>
         (total + ab_betAmount bet,
          addToType byType (ab_betType bet) (ab_betAmount bet)))
      bets (total, b) in
  fst res = total + sumZ (map ab_betAmount bets)
  /\ sameTotals (snd res) (fold_left addBetTotal bets t).
Proof.
  revert total b t. induction bets as [|bet bets IH]; intros total b t H; cbn.
  - split; [lia|exact H].
  - destruct (IH (total + ab_betAmount bet)
                 (addToType b (ab_betType bet) (ab_betAmount bet))
                 (addBetTotal t bet) (addToType_addBetTotal b t bet H)) as [E1 E2].
    split; [|exact E2]. rewrite E1. unfold sumZ. cbn. lia.
Qed.

(** X9. What the administrator sees is the live round.  A run that does not
    start in the [finished] phase never enters it, so [getCurrentRoundData]
    never substitutes the previous game's statistics: it reports the current
    phase, a total equal to the sum of all stakes in the wager index, and
    per-type totals equal to the ones [generateSmartCard] minimizes over. *)
Theorem round_data_is_live (sha256_u32 : Z -> N) (inputs : list Input)
    (w : World) (d : RoundData) :
  status (globalRoom (manager w)) <> finished ->
  let w' := fst (run sha256_u32 w inputs) in
  let room := globalRoom (manager w') in
  getCurrentRoundData w' = Some d ->
  rd_dataSource d = "current"
  /\ rd_status d = status room /\ rd_status d <> finished
  /\ currentGameId room = Some (rd_gameId d)
  /\ rd_totalBets d = sumZ (map ab_betAmount (allBets room))
  /\ sameTotals (rd_betsByType d) (betTotals room).
Proof.
  intros Hst w' room. pose proof (status_run sha256_u32 inputs w Hst) as Hnf.
  fold w' in Hnf. fold room in Hnf.
  unfold getCurrentRoundData. cbv zeta. fold room.
  destruct (truthy (currentGameId room)) eqn:Hgid; [|discriminate]. cbn [negb].
  apply truthy_Some in Hgid. destruct Hgid as (gid & Hgid & _).
  assert (Status_eqb (status room) finished = false) as Hf.
  { destruct (Status_eqb (status room) finished) eqn:E; [|reflexivity].
    apply Status_eqb_eq in E. contradiction. }
  assert (exists total b,
             match activeBets room with
             | Some index =>
                 fold_left
                   (fun acc entry =>
                      fold_left
                        (fun '(total, byType) bet =>
                           (total + ab_betAmount bet,
                            addToType byType (ab_betType bet) (ab_betAmount bet)))
                        (snd entry) acc)
                   index (0, mkBetsByType 0 0 0 0 0)
             | None => (0, mkBetsByType 0 0 0 0 0)
             end = (total, b)
             /\ total = sumZ (map ab_betAmount (allBets room))
             /\ sameTotals b (betTotals room)) as (total & b & E & Et & Eb).
  { unfold allBets, betTotals. destruct (activeBets room) as [index|].
    - rewrite fold_nested_flat, betTotals_flat.
      pose proof (roundData_fold (concat (map snd index)) 0
                    (mkBetsByType 0 0 0 0 0) (mkBetTotals 0 0 0 0 0)) as H.
      cbv zeta in H.
      destruct (fold_left _ (concat (map snd index)) (0, mkBetsByType 0 0 0 0 0))
        as [total b].
      destruct H as [H1 H2]; [repeat split|]. cbn [fst snd] in *.
      exists total, b. split; [reflexivity|]. split; [lia|exact H2].
    - exists 0, (mkBetsByType 0 0 0 0 0). repeat split. }
  rewrite E, Hf, andb_false_r. intros [= <-]. cbn.
  split; [reflexivity|]. split; [reflexivity|]. split; [exact Hnf|].
  split; [rewrite Hgid; reflexivity|]. split; [exact Et|exact Eb].
Qed.

Lemma round_data_is_live_witness :
  status (globalRoom (manager seedWorld)) <> finished
  /\ exists d, getCurrentRoundData (fst (run hash0 seedWorld betThenWait)) = Some d
       /\ rd_dataSource d = "current" /\ rd_totalBets d = 50.
Proof.
  split; [discriminate|].
  eexists. split; [vm_compute; reflexivity|].
  destruct (round_data_is_live hash0 betThenWait seedWorld
              (mkRoundData 1 50 (mkBetsByType 50 0 0 0 0) countdown (Some 5) "current"
                 (Some (mkCard 1 spades black false))))
    as (H1 & _).
  - discriminate.
  - vm_compute. reflexivity.
  - split; [exact H1|reflexivity].
Defined.

(** *** Game ids and overrides *)

Lemma games_serial_step sha256_u32 (w : World) (i : Input) :
  games_serial (storage w) <= games_serial (storage (fst (step sha256_u32 w i))).
Proof.
  apply (step_storage (fun db => games_serial (storage w) <= games_serial db)).
  - intros db id c db' r H. unfold updatePlayerChips.
    repeat case_match; intros [= <- _]; exact H.
  - intros db pid a ty v gid db' b p H. unfold placeBet.
    repeat case_match; intros [= <- _ _]; exact H.
  - intros db id won a db' b p H. unfold resolveBet.
    repeat case_match; intros [= <- _ _]; exact H.
  - intros db id H. exact H.
  - intros db r n c t np db' row H [= <- _]. cbn. lia.
  - intros db gid n c H. exact H.
  - intros db gid H. exact H.
  - intros db uid s n db' row H. unfold createOrUpdatePlayerByUserId.
    repeat case_match; intros [= <- _]; exact H.
  - lia.
Qed.

Lemma gameIdsIssued_step sha256_u32 (w : World) (i : Input) :
  gameIdsIssued w -> gameIdsIssued (fst (step sha256_u32 w i)).
Proof.
  intros [Ho Hg]. pose proof (games_serial_step sha256_u32 w i) as Hmono.
  destruct (playerInput i) eqn:Ei.
  { pose proof (playerInput_roundState sha256_u32 w i Ei) as E.
    unfold roundState in E. injection E as _ _ _ _ E5 _ _ _ E9.
    unfold gameIdsIssued. rewrite E5, E9. split.
    - intros gid r H. specialize (Ho gid r H). lia.
    - intros gid H. specialize (Hg gid H). lia. }
  destruct i; try discriminate; cbn [step] in *.
  - destruct (startGame_round now w) as (_ & E2 & Hsame & Hstart).
    destruct (Status_eqb (status (globalRoom (manager w))) waiting) eqn:E.
    + apply Status_eqb_eq in E. destruct (Hstart E) as (_ & _ & _ & G4 & G5 & _).
      split.
      * rewrite E2. intros gid r H. specialize (Ho gid r H). lia.
      * rewrite G4. intros gid [= <-]. lia.
    + rewrite Hsame; [exact (conj Ho Hg)|].
      intros Hw. apply Status_eqb_eq in Hw. congruence.
  - destruct (countdownTick_round sha256_u32 g w) as (E1 & _ & Hsub & _). split.
    + intros gid r H. specialize (Ho gid r (Hsub gid r H)). lia.
    + rewrite E1. intros gid H. specialize (Hg gid H). lia.
  - destruct (startNextRound_round now w) as (_ & E2 & _ & _ & _ & G4 & G5 & _). split.
    + rewrite E2. intros gid r H. specialize (Ho gid r H). lia.
    + rewrite G4. intros gid [= <-]. lia.
  - unfold setAdminOverride.
    destruct (negb (Status_eqb (status (globalRoom (manager w))) countdown)
              || negb (bool_decide (currentGameId (globalRoom (manager w)) = Some gid)))
      eqn:E1; [exact (conj Ho Hg)|].
    destruct (negb (includes ["red"; "black"; "low"; "high"; "lucky7"] overrideResult));
      [exact (conj Ho Hg)|].
    apply orb_false_iff in E1. destruct E1 as [_ E1].
    apply negb_false_iff, bool_decide_eq_true in E1.
    split; [|exact Hg]. cbn. intros gid' r.
    destruct (decide (gid' = gid)) as [->|Hne].
    + intros _. apply Hg, E1.
    + rewrite lookup_insert_ne by congruence. apply Ho.
Qed.

Lemma gameIdsIssued_run sha256_u32 (inputs : list Input) (w : World) :
  gameIdsIssued w -> gameIdsIssued (fst (run sha256_u32 w inputs)).
Proof.
  revert w. induction inputs as [|i inputs IH]; intros w H; [exact H|].
  cbn [run]. pose proof (gameIdsIssued_step sha256_u32 w i H) as Hstep.
  destruct (step sha256_u32 w i) as [w1 out1].
  specialize (IH w1 Hstep). destruct (run sha256_u32 w1 inputs) as [w2 out2].
  exact IH.
Qed.

(** X10. An override never leaks into a later round.  Whatever happened
    since the server started, when the next-round timer fires the new round
    is in [countdown] with 30 seconds left, no card, no wagers in the index
    or in either partition, a game id that was never used before, and no
    override registered for it: [setAdminOverride] only ever accepts the id
    of the game in progress, and ids are issued in increasing order. *)
Theorem new_round_starts_clean (sha256_u32 : Z -> N) (inputs : list Input)
    (now : Z) :
  let w := fst (run sha256_u32 initialWorld inputs) in
  let w' := fst (step sha256_u32 w (next_round_timer now)) in
  let room := globalRoom (manager w') in
  exists gid,
    currentGameId room = Some gid
    /\ adminOverrides (manager w') !! gid = None
    /\ games_table (storage w) !! gid = None
    /\ bettingOpen room
    /\ currentCard room = None
    /\ allBets room = []
    /\ lockedBets (manager w') = ∅ /\ unlockedBets (manager w') = ∅.
Proof.
  intros w w' room. subst w' room. cbn [step].
  assert (gameIdsIssued w) as [Ho _].
  { apply gameIdsIssued_run. split; cbn.
    - intros gid r H. rewrite lookup_empty in H. discriminate.
    - discriminate. }
  assert (serialsAhead (storage w)) as (_ & Hg & _).
  { apply ahead_run, serialsAhead_empty. }
  destruct (startNextRound_round now w)
    as (_ & E2 & G1 & G2 & G3 & G4 & _ & G6 & G7 & G8).
  exists (games_serial (storage w)).
  split; [exact G4|]. split; [|split; [|split; [|split; [exact G3|auto]]]].
  - rewrite E2.
    destruct (adminOverrides (manager w) !! games_serial (storage w)) eqn:E;
      [|reflexivity].
    specialize (Ho _ _ E). lia.
  - destruct (games_table (storage w) !! games_serial (storage w)) eqn:E;
      [|reflexivity].
    destruct (Hg _ _ E). lia.
  - split; [exact G1|]. rewrite G2. lia.
Qed.

(** *** The countdown *)

Lemma revealCard_reveals (g : Rng) (w : World) (c0 : Card) :
  currentCard (globalRoom (manager w)) = Some c0 ->
  let room' := globalRoom (manager (fst (revealCard g w))) in
  status room' = playing
  /\ exists c, currentCard room' = Some c /\ revealed c = true
               /\ snd (revealCard g w) = [(ToRoom "GLOBAL", card_revealed (Some c) room')].
Proof.
  intros Hc. unfold revealCard. cbv zeta. rewrite Hc. cbv iota beta.
  match goal with |- context [let '(card, overrides) := ?x in _] =>
    assert (exists c, fst x = Some c) as [c Hx];
    [ repeat case_match; cbn [fst]; eauto;
      match goal with |- context [generateCardForResult ?r g] =>
        destruct (generateCardForResult_card r g) as (c1 & -> & _) end; eauto
    | destruct x as [card overrides] ] end.
  cbn in Hx. subst card.
  match goal with |- context [resolveBets ?x] =>
    pose proof (resolveBets_card x) as H1;
    pose proof (resolveBets_status x) as H2;
    destruct (resolveBets x) as [w2 calls] end.
  cbn in *. split; [exact H2|].
  rewrite H1. eexists. split; [reflexivity|]. split; reflexivity.
Qed.

Lemma countdownTick_running sha256_u32 (g : Rng) (w : World) :
  let m := manager w in
  let room := globalRoom m in
  "GLOBAL" ∈ countdownIntervals m -> 1 < countdownTime room ->
  let m' := manager (fst (countdownTick sha256_u32 g w)) in
  countdownIntervals m' = countdownIntervals m
  /\ status (globalRoom m') = status room
  /\ countdownTime (globalRoom m') = countdownTime room - 1
  /\ currentCard (globalRoom m')
     = match currentCard room with
       | Some c => Some c
       | None =>
           if countdownTime room - 1 =? 10
           then generateSmartCard sha256_u32
                  (with_countdownTime room (countdownTime room - 1)) g
           else None
       end.
Proof.
  intros m room Hint Ht. unfold countdownTick. cbv zeta. fold m. fold room.
  rewrite bool_decide_eq_true_2 by exact Hint. cbn [negb].
  set (room1 := with_countdownTime room (countdownTime room - 1)).
  set (room2 := match currentCard room1 with
                | Some _ => room1
                | None => _
                end).
  assert (countdownTime room2 = countdownTime room - 1) as Et.
  { unfold room2, room1. repeat case_match; reflexivity. }
  assert ((countdownTime room2 <=? 0) = false) as ->.
  { apply Z.leb_gt. lia. }
  cbn. split; [reflexivity|]. split; [|split; [exact Et|]].
  - unfold room2, room1. repeat case_match; reflexivity.
  - unfold room2. change (currentCard room) with (currentCard room1).
    change (countdownTime room1) with (countdownTime room - 1).
    destruct (currentCard room1) eqn:Ec; [exact Ec|].
    destruct (countdownTime room - 1 =? 10); [reflexivity|exact Ec].
Qed.

Lemma countdownTick_last sha256_u32 (g : Rng) (w : World) (c0 : Card) :
  let m := manager w in
  let room := globalRoom m in
  "GLOBAL" ∈ countdownIntervals m -> countdownTime room <= 1 ->
  currentCard room = Some c0 ->
  let m' := manager (fst (countdownTick sha256_u32 g w)) in
  ("GLOBAL" ∉ countdownIntervals m')
  /\ status (globalRoom m') = playing
  /\ exists c, currentCard (globalRoom m') = Some c /\ revealed c = true.
Proof.
  intros m room Hint Ht Hc. unfold countdownTick. cbv zeta. fold m. fold room.
  rewrite bool_decide_eq_true_2 by exact Hint. cbn [negb].
  set (room1 := with_countdownTime room (countdownTime room - 1)).
  set (room2 := match currentCard room1 with
                | Some _ => room1
                | None => _
                end).
  assert (room2 = room1) as E2.
  { unfold room2. change (currentCard room1) with (currentCard room).
    rewrite Hc. reflexivity. }
  clearbody room2. subst room2.
  change (countdownTime room1) with (countdownTime room - 1).
  assert ((countdownTime room - 1 <=? 0) = true) as -> by (apply Z.leb_le; lia).
  match goal with |- context [revealCard g ?x] =>
    pose proof (revealCard_reveals g x c0 Hc) as (H1 & c & H2 & H3 & _);
    pose proof (revealCard_round g x) as (_ & _ & H4 & _);
    destruct (revealCard g x) as [w2 out] end.
  cbn in *. split; [|split; [exact H1|eauto]].
  rewrite H4. intros Hin. apply elem_of_difference in Hin as [_ Hn].
  apply Hn, elem_of_singleton. reflexivity.
Qed.

Lemma countdownTick_time sha256_u32 (g : Rng) (w : World) :
  "GLOBAL" ∈ countdownIntervals (manager w) ->
  countdownTime (globalRoom (manager (fst (countdownTick sha256_u32 g w))))
  = countdownTime (globalRoom (manager w)) - 1.
Proof.
  intros Hint. unfold countdownTick. cbv zeta.
  rewrite bool_decide_eq_true_2 by exact Hint. cbn [negb].
  set (room := globalRoom (manager w)).
  set (room1 := with_countdownTime room (countdownTime room - 1)).
  set (room2 := match currentCard room1 with
                | Some _ => room1
                | None => _
                end).
  assert (countdownTime room2 = countdownTime room - 1) as Et.
  { unfold room2, room1. repeat case_match; reflexivity. }
  destruct (countdownTime room2 <=? 0).
  - match goal with |- context [revealCard g ?x] =>
      pose proof (revealCard_round g x) as (_ & H2 & _);
      destruct (revealCard g x) as [w2 out] end.
    cbn in *. congruence.
  - exact Et.
Qed.

Lemma window_step sha256_u32 (w : World) (i : Input) :
  (bettingOpen (globalRoom (manager w)) ->
   currentCard (globalRoom (manager w)) = None) ->
  bettingOpen (globalRoom (manager (fst (step sha256_u32 w i)))) ->
  currentCard (globalRoom (manager (fst (step sha256_u32 w i)))) = None.
Proof.
  intros H.
  destruct (playerInput i) eqn:Ei.
  { pose proof (playerInput_roundState sha256_u32 w i Ei) as E.
    unfold roundState in E. injection E as E1 E2 E3 _ _ _ _ _ _.
    unfold bettingOpen. rewrite E1, E2, E3. exact H. }
  destruct i; try discriminate; cbn [step].
  - destruct (startGame_round now w) as (_ & _ & Hsame & Hstart).
    destruct (Status_eqb (status (globalRoom (manager w))) waiting) eqn:E.
    + apply Status_eqb_eq in E. destruct (Hstart E) as (_ & _ & G3 & _). auto.
    + rewrite Hsame; [exact H|]. intros Hw. apply Status_eqb_eq in Hw. congruence.
  - destruct (decide ("GLOBAL" ∈ countdownIntervals (manager w))) as [Hint|Hint].
    + pose proof (countdownTick_time sha256_u32 g w Hint) as Et.
      destruct (Z_le_gt_dec (countdownTime (globalRoom (manager w))) 1) as [Hle|Hgt].
      * intros [_ Hopen]. lia.
      * destruct (countdownTick_running sha256_u32 g w Hint ltac:(lia))
          as (_ & Es & _ & Ec).
        intros [Hs Hopen]. rewrite Ec. rewrite Es in Hs. rewrite Et in Hopen.
        rewrite H by (split; [exact Hs|lia]).
        destruct (countdownTime (globalRoom (manager w)) - 1 =? 10) eqn:E10;
          [|reflexivity].
        apply Z.eqb_eq in E10. lia.
    + unfold countdownTick. cbv zeta.
      rewrite bool_decide_eq_false_2 by exact Hint. exact H.
  - destruct (startNextRound_round now w) as (_ & _ & _ & _ & G3 & _). auto.
  - unfold setAdminOverride. repeat case_match; exact H.
Qed.

(** X11. No card exists while bets can still be placed.  In any run from
    the server's initial state, whenever the room is in [countdown] with
    more than 10 seconds left the room holds no card at all: the card is
    only generated by the tick that closes the betting window, after every
    wager of the round is known. *)
Theorem no_card_while_betting_open (sha256_u32 : Z -> N) (inputs : list Input) :
  let room := globalRoom (manager (fst (run sha256_u32 initialWorld inputs))) in
  bettingOpen room -> currentCard room = None.
Proof.
  cbv zeta.
  assert (forall w,
            (bettingOpen (globalRoom (manager w)) ->
             currentCard (globalRoom (manager w)) = None) ->
            bettingOpen (globalRoom (manager (fst (run sha256_u32 w inputs)))) ->
            currentCard (globalRoom (manager (fst (run sha256_u32 w inputs)))) = None)
    as Hrun.
  { induction inputs as [|i inputs IH]; intros w H; [exact H|].
    cbn [run]. pose proof (window_step sha256_u32 w i H) as Hstep.
    destruct (step sha256_u32 w i) as [w1 out1].
    specialize (IH w1 Hstep). destruct (run sha256_u32 w1 inputs) as [w2 out2].
    exact IH. }
  apply Hrun. intros _. reflexivity.
Qed.

Lemma no_card_while_betting_open_witness :
  bettingOpen (globalRoom (manager (fst (run hash0 initialWorld [start_timer 1000]))))
  /\ currentCard (globalRoom (manager (fst (run hash0 initialWorld [start_timer 1000]))))
     = None.
Proof.
  assert (bettingOpen
            (globalRoom (manager (fst (run hash0 initialWorld [start_timer 1000])))))
    as H.
  { split; [reflexivity|]. vm_compute. reflexivity. }
  split; [exact H|].
  apply (no_card_while_betting_open hash0 [start_timer 1000]). exact H.
Defined.

Lemma run_app_fst sha256_u32 (l1 l2 : list Input) (w : World) :
  fst (run sha256_u32 w (l1 ++ l2))
  = fst (run sha256_u32 (fst (run sha256_u32 w l1)) l2).
Proof.
  revert w. induction l1 as [|i l1 IH]; intros w; [reflexivity|].
  cbn [app run]. destruct (step sha256_u32 w i) as [w1 out1].
  specialize (IH w1).
  destruct (run sha256_u32 w1 (l1 ++ l2)) as [w2 out2].
  destruct (run sha256_u32 w1 l1) as [w3 out3]. exact IH.
Qed.

Lemma ticks_countdown sha256_u32 (gs : list Rng) (w : World) :
  let room := globalRoom (manager w) in
  "GLOBAL" ∈ countdownIntervals (manager w) ->
  status room = countdown ->
  Z.of_nat (length gs) < countdownTime room ->
  (10 < countdownTime room -> currentCard room = None) ->
  (countdownTime room <= 10 ->
   exists c, currentCard room = Some c /\ revealed c = false) ->
  let w' := fst (run sha256_u32 w (map interval_tick gs)) in
  let room' := globalRoom (manager w') in
  "GLOBAL" ∈ countdownIntervals (manager w')
  /\ status room' = countdown
  /\ countdownTime room' = countdownTime room - Z.of_nat (length gs)
  /\ (10 < countdownTime room' -> currentCard room' = None)
  /\ (countdownTime room' <= 10 ->
      exists c, currentCard room' = Some c /\ revealed c = false).
Proof.
  revert w. induction gs as [|g gs IH]; intros w; cbv zeta; intros Hint Hs Ht Hhi Hlo.
  - cbn. repeat split; auto; lia.
  - cbn [map run length] in *. set (room := globalRoom (manager w)) in *.
    assert (1 < countdownTime room) as Ht1 by lia.
    destruct (countdownTick_running sha256_u32 g w Hint Ht1) as (E1 & E2 & E3 & E4).
    fold room in E2, E3, E4.
    cbn [step]. destruct (countdownTick sha256_u32 g w) as [w1 out1].
    cbn [fst] in *. specialize (IH w1).
    destruct (run sha256_u32 w1 (map interval_tick gs)) as [w2 out2].
    cbn [fst] in *.
    destruct IH as (G1 & G2 & G3 & G4 & G5).
    + rewrite E1. exact Hint.
    + rewrite E2. exact Hs.
    + rewrite E3. lia.
    + rewrite E3, E4. intros H11. rewrite Hhi by lia.
      destruct (countdownTime room - 1 =? 10) eqn:E10; [|reflexivity].
      apply Z.eqb_eq in E10. lia.
    + rewrite E3, E4. intros H11.
      destruct (Z_le_gt_dec (countdownTime room) 10) as [Hle|Hgt].
      * destruct (Hlo Hle) as (c & -> & Hr). eauto.
      * rewrite Hhi by lia.
        assert ((countdownTime room - 1 =? 10) = true) as -> by (apply Z.eqb_eq; lia).
        destruct (generateSmartCard_card sha256_u32
                    (with_countdownTime room (countdownTime room - 1)) g)
          as (c & -> & _ & _ & Hr & _).
        eauto.
    + split; [exact G1|]. split; [exact G2|]. split; [rewrite G3, E3; lia|].
      split; assumption.
Qed.

(** X12. A round runs its full course.  From the [waiting] phase,
    [startGame] followed by thirty timer ticks ends in [playing] with a
    face-up card on the table and the timer stopped, whatever the random
    source and the hash yield.  Before that, after k < 30 ticks, the room is
    in [countdown] with 30 - k seconds left, and it holds a card exactly
    from the twentieth tick on. *)
Theorem round_reveals_on_thirtieth_tick (sha256_u32 : Z -> N) (now : Z)
    (gs : list Rng) (w : World) :
  status (globalRoom (manager w)) = waiting ->
  length gs = 30%nat ->
  let w0 := fst (startGame now w) in
  (forall k, (k < 30)%nat ->
     let room := globalRoom (manager
                   (fst (run sha256_u32 w0 (map interval_tick (take k gs))))) in
     status room = countdown
     /\ countdownTime room = 30 - Z.of_nat k
     /\ (currentCard room = None <-> (k < 20)%nat))
  /\ let m := manager (fst (run sha256_u32 w0 (map interval_tick gs))) in
     status (globalRoom m) = playing
     /\ (exists c, currentCard (globalRoom m) = Some c /\ revealed c = true)
     /\ "GLOBAL" ∉ countdownIntervals m.
Proof.
  intros Hw Hlen w0.
  destruct (startGame_round now w) as (_ & _ & _ & Hstart).
  destruct (Hstart Hw) as (S1 & S2 & S3 & _ & _ & S6 & _). fold w0 in S1, S2, S3, S6.
  assert (forall k, (k < 30)%nat ->
            let w' := fst (run sha256_u32 w0 (map interval_tick (take k gs))) in
            let room' := globalRoom (manager w') in
            "GLOBAL" ∈ countdownIntervals (manager w')
            /\ status room' = countdown
            /\ countdownTime room' = 30 - Z.of_nat k
            /\ (10 < countdownTime room' -> currentCard room' = None)
            /\ (countdownTime room' <= 10 ->
                exists c, currentCard room' = Some c /\ revealed c = false)) as Hk.
  { intros k Hklt.
    assert (length (take k gs) = k) as Hlk by (rewrite length_take; lia).
    destruct (ticks_countdown sha256_u32 (take k gs) w0)
      as (G1 & G2 & G3 & G4 & G5).
    - rewrite S6. apply elem_of_union_r, elem_of_singleton. reflexivity.
    - exact S1.
    - rewrite S2, Hlk. lia.
    - intros _. exact S3.
    - rewrite S2. lia.
    - rewrite Hlk, S2 in G3. cbv zeta. auto. }
  split.
  - intros k Hklt. destruct (Hk k Hklt) as (_ & G2 & G3 & G4 & G5). cbv zeta.
    split; [exact G2|]. split; [exact G3|]. split.
    + intros Hnone. destruct (Nat.lt_ge_cases k 20) as [Hlt|Hge]; [exact Hlt|].
      destruct G5 as (c & Hc & _); [lia|]. congruence.
    + intros Hlt. apply G4. lia.
  - destruct (Hk 29%nat ltac:(lia)) as (G1 & G2 & G3 & G4 & G5).
    destruct G5 as (c0 & Hc0 & _); [lia|].
    assert (exists g, gs = take 29 gs ++ [g]) as [g Hg].
    { destruct (drop 29 gs) as [|g rest] eqn:Ed.
      - apply (f_equal length) in Ed. rewrite length_drop in Ed. cbn in Ed. lia.
      - exists g. rewrite <- (take_drop 29 gs) at 1. rewrite Ed. f_equal.
        destruct rest; [reflexivity|].
        apply (f_equal length) in Ed. rewrite length_drop in Ed. cbn in Ed. lia. }
    assert (fst (run sha256_u32 w0 (map interval_tick gs))
            = fst (countdownTick sha256_u32 g
                     (fst (run sha256_u32 w0 (map interval_tick (take 29 gs))))))
      as ->.
    { rewrite Hg at 1. rewrite map_app, run_app_fst. cbn [map run step].
      destruct (countdownTick sha256_u32 g _) as [w2 out2]. reflexivity. }
    destruct (countdownTick_last sha256_u32 g
                (fst (run sha256_u32 w0 (map interval_tick (take 29 gs)))) c0
                G1 ltac:(lia) Hc0) as (L1 & L2 & L3).
    cbv zeta. split; [exact L2|]. split; [exact L3|exact L1].
Qed.

Lemma round_reveals_on_thirtieth_tick_witness :
  status (globalRoom (manager initialWorld)) = waiting
  /\ length (repeat entropy0 30) = 30%nat
  /\ status (globalRoom (manager
       (fst (run hash0 (fst (startGame 1000 initialWorld))
               (map interval_tick (repeat entropy0 30)))))) = playing.
Proof.
  split; [reflexivity|]. split; [reflexivity|].
  destruct (round_reveals_on_thirtieth_tick hash0 1000 (repeat entropy0 30) initialWorld)
    as (_ & H & _).
  - reflexivity.
  - reflexivity.
  - exact H.
Defined.

(** ** Settlement and the selector *)

Lemma resolveOne_fresh (card : Card) (sock : string) (acc : Settlement)
    (bet : ActiveBet) :
  ab_id bet ∉ processedBetIds acc ->
  let acc' := resolveOne card sock acc bet in
  processedBetIds acc' = processedBetIds acc ∪ {[ab_id bet]}
  /\ roundWagered acc' = roundWagered acc + ab_betAmount bet
  /\ roundPaidOut acc' = roundPaidOut acc + snd (callOf card bet)
  /\ resolveCalls acc' = resolveCalls acc ++ [callOf card bet].
Proof.
  intros Hfresh. unfold resolveOne, callOf. cbv zeta.
  rewrite bool_decide_eq_false_2 by exact Hfresh.
  destruct (resolveBet _ _ _ _) as [[[db' b'] up]|msg]; cbn; auto.
Qed.

Lemma resolveFold_fresh (card : Card) (bets : list (string * ActiveBet))
    (acc : Settlement) :
  NoDup (map (fun sb => ab_id (snd sb)) bets) ->
  (forall sb, sb ∈ bets -> ab_id (snd sb) ∉ processedBetIds acc) ->
  let final := fold_left (fun acc sb => resolveOne card (fst sb) acc (snd sb)) bets acc in
  roundWagered final
    = roundWagered acc + sumZ (map (fun sb => ab_betAmount (snd sb)) bets)
  /\ roundPaidOut final
     = roundPaidOut acc + sumZ (map (fun sb => snd (callOf card (snd sb))) bets)
  /\ resolveCalls final
     = resolveCalls acc ++ map (fun sb => callOf card (snd sb)) bets.
Proof.
  revert acc. induction bets as [|[sock bet] bets IH]; intros acc Hnd Hfresh.
  - unfold sumZ. cbn. rewrite app_nil_r. split; [lia|]. split; [lia|reflexivity].
  - cbn [map fst snd] in Hnd. apply NoDup_cons in Hnd as [Hnotin Hnd].
    cbn [fold_left fst snd].
    destruct (resolveOne_fresh card sock acc bet) as (E1 & E2 & E3 & E4).
    { apply (Hfresh (sock, bet)). apply list_elem_of_here. }
    destruct (IH (resolveOne card sock acc bet) Hnd) as (G1 & G2 & G3).
    { intros sb Hsb. rewrite E1, elem_of_union, elem_of_singleton.
      intros [Hin|Heq].
      - apply (Hfresh sb); [apply list_elem_of_further, Hsb|exact Hin].
      - apply Hnotin. rewrite <- Heq.
        apply (list_elem_of_fmap_2 (fun sb => ab_id (snd sb))). exact Hsb. }
    cbv zeta. rewrite G1, G2, G3, E2, E3, E4. cbn [map fst snd].
    unfold sumZ. cbn [foldr]. rewrite <- app_assoc. cbn [app].
    split; [lia|]. split; [lia|reflexivity].
Qed.

Lemma outcomePayout_add (t : BetTotals) (bet : ActiveBet) (c : Card) :
  number c <> 7 -> 1 <= number c <= 13 ->
  outcomePayout (addBetTotal t bet) c = outcomePayout t c + snd (callOf c bet).
Proof.
  intros H7 Hrange. destruct bet as [id ty a].
  unfold callOf, addBetTotal, outcomePayout, isBetWinner, calculateWinAmount,
    payoutMultiplier.
  cbv zeta. cbn [ab_betType ab_betAmount ab_id snd].
  rewrite roundToCents_integer.
  destruct (String.eqb ty "low") eqn:Elow;
  destruct (String.eqb ty "high") eqn:Ehigh;
  destruct (String.eqb ty "lucky7") eqn:Elucky;
  destruct (String.eqb ty "red") eqn:Ered;
  destruct (String.eqb ty "black") eqn:Eblack;
  repeat match goal with
         | E : String.eqb _ _ = true |- _ => apply String.eqb_eq in E
         end;
  try congruence;
  destruct (color c); cbn;
  destruct (Z.leb_spec (number c) 6), (Z.leb_spec 8 (number c)),
           (Z.leb_spec 1 (number c)), (Z.eqb_spec (number c) 7);
  cbn; lia.
Qed.

Lemma outcomePayout_fold (bets : list ActiveBet) (t : BetTotals) (c : Card) :
  number c <> 7 -> 1 <= number c <= 13 ->
  outcomePayout (fold_left addBetTotal bets t) c
  = outcomePayout t c + sumZ (map (fun b => snd (callOf c b)) bets).
Proof.
  intros H7 Hrange. revert t.
  induction bets as [|b bets IH]; intros t; cbn [fold_left map].
  - unfold sumZ. cbn [foldr]. lia.
  - rewrite IH, outcomePayout_add by assumption. unfold sumZ. cbn [foldr]. lia.
Qed.

Lemma flatBets_snd (index : BetIndex) :
  map snd (flatBets index) = concat (map snd index).
Proof.
  unfold flatBets. induction index as [|[k e] index IH]; [reflexivity|].
  cbn [map concat fst snd]. rewrite map_app, IH. f_equal.
  rewrite map_map. cbn. apply map_id.
Qed.

Lemma outcomePayout_outcome (t : BetTotals) (c : Card) :
  exists o, o ∈ outcomes t /\ totalPayout o = outcomePayout t c.
Proof.
  unfold outcomes, outcomePayout.
  destruct (color c); destruct (number c <=? 6).
  - exists (mkOutcome "red-low" (redBetTotal t * 2 + lowBetTotal t * 2) red
                      [1; 2; 3; 4; 5; 6]).
    split; [apply list_elem_of_In; cbn; tauto|reflexivity].
  - exists (mkOutcome "red-high" (redBetTotal t * 2 + highBetTotal t * 2) red
                      [8; 9; 10; 11; 12; 13]).
    split; [apply list_elem_of_In; cbn; tauto|reflexivity].
  - exists (mkOutcome "black-low" (blackBetTotal t * 2 + lowBetTotal t * 2) black
                      [1; 2; 3; 4; 5; 6]).
    split; [apply list_elem_of_In; cbn; tauto|reflexivity].
  - exists (mkOutcome "black-high" (blackBetTotal t * 2 + highBetTotal t * 2) black
                      [8; 9; 10; 11; 12; 13]).
    split; [apply list_elem_of_In; cbn; tauto|reflexivity].
Qed.

Lemma outcome_of_card (t : BetTotals) (o : Outcome) (c : Card) :
  o ∈ outcomes t -> number c ∈ validNumbers o -> color c = outcome_color o ->
  totalPayout o = outcomePayout t c.
Proof.
  unfold outcomes, outcomePayout. intros Ho Hn Hc.
  apply list_elem_of_In in Ho. cbn in Ho.
  destruct Ho as [<-|[<-|[<-|[<-|[]]]]]; cbn in *; rewrite Hc;
    apply list_elem_of_In in Hn; cbn in Hn;
    destruct (Z.leb_spec (number c) 6); try reflexivity; lia.
Qed.

(** X13. Settlement pays what the selector minimized.  When the card on the
    table is the one [generateSmartCard] draws for the wagers now in the
    index (each bet id occurring once), [resolveBets] adds to the ledger's
    paid-out total exactly twice the stakes on the card's colour plus twice
    the stakes on its half; this amount is the minimum over the four
    outcomes the selector compares, so no other card without a 7 would have
    cost the house less.  The ledger's wagered total grows by the sum of all
    stakes in the index. *)
Theorem settlement_pays_the_minimum (sha256_u32 : Z -> N) (g : Rng) (w : World)
    (index : BetIndex) (stats : HouseStats) (c0 : Card) :
  let room := globalRoom (manager w) in
  activeBets room = Some index -> NoDup (indexIds index) ->
  houseStats room = Some stats -> truthy (currentGameId room) = true ->
  totalBets (betTotals room) <> 0 ->
  generateSmartCard sha256_u32 room g = Some c0 ->
  currentCard room = Some (mkCard (number c0) (suit c0) (color c0) true) ->
  exists stats',
    houseStats (globalRoom (manager (fst (resolveBets w)))) = Some stats'
    /\ totalWagered stats'
       = totalWagered stats + sumZ (map ab_betAmount (allBets room))
    /\ totalPaidOut stats' = totalPaidOut stats + outcomePayout (betTotals room) c0
    /\ minPayout (betTotals room) = Some (outcomePayout (betTotals room) c0)
    /\ forall c, outcomePayout (betTotals room) c0 <= outcomePayout (betTotals room) c.
Proof.
  intros room Hidx Hnd Hstats Hgid Htot Hgen Hcard.
  destruct (generateSmartCard_card sha256_u32 room g) as (c & Hc & Hnum & _ & _ & Hsel).
  rewrite Hgen in Hc. injection Hc as <-.
  destruct (Hsel Htot) as (o & Ho & Hon & Hoc).
  destruct (selectedOutcome_index sha256_u32 room) as (_ & o' & Ho' & Hin).
  cbv zeta in Hin. rewrite Ho in Ho'. injection Ho' as <-.
  pose proof Hin as Hfil. apply minPayoutOutcomes_spec in Hin as [Hout Hmin].
  pose proof (outcome_of_card _ _ _ Hout Hon Hoc) as Hpay.
  assert (1 <= number c0 <= 13 /\ number c0 <> 7) as [Hrange H7].
  { apply list_elem_of_In in Hnum. cbn in Hnum. lia. }
  assert (betTotals room
          = fold_left addBetTotal (concat (map snd index)) (mkBetTotals 0 0 0 0 0)) as Hbt.
  { unfold betTotals. rewrite Hidx. apply betTotals_flat. }
  unfold resolveBets. cbv zeta. fold room. rewrite Hidx, Hcard, Hstats, Hgid.
  cbn [fst manager globalRoom houseStats].
  eexists. split; [reflexivity|].
  rewrite resolveLoop_flat.
  match goal with |- context [fold_left _ (flatBets index) ?a] =>
    destruct (resolveFold_fresh (mkCard (number c0) (suit c0) (color c0) true)
                (flatBets index) a) as (G1 & G2 & _) end.
  { rewrite <- indexIds_flat. exact Hnd. }
  { intros sb _. cbn. apply not_elem_of_empty. }
  cbv zeta in G1, G2. unfold updateHouseStats. cbn [totalWagered totalPaidOut].
  rewrite G1, G2. cbn [roundWagered roundPaidOut].
  split; [|split; [|split]].
  - unfold allBets. rewrite Hidx, <- flatBets_snd, map_map. lia.
  - rewrite Hbt, outcomePayout_fold by assumption.
    rewrite <- flatBets_snd, map_map.
    assert (outcomePayout (mkBetTotals 0 0 0 0 0) c0 = 0) as ->.
    { unfold outcomePayout. cbn. destruct (color c0), (number c0 <=? 6); reflexivity. }
    reflexivity.
  - rewrite <- Hpay. unfold minPayoutOutcomes in Hfil.
    apply list_elem_of_filter in Hfil as [Hf _]. symmetry. exact Hf.
  - intros c. destruct (outcomePayout_outcome (betTotals room) c) as (oc & Hoc1 & Hoc2).
    rewrite <- Hpay, <- Hoc2.
    exact (proj1 (Forall_forall _ _) Hmin oc Hoc1).
Qed.

Lemma settlement_pays_the_minimum_witness :
  let w := mkWorld (mkGameManager
                      (with_card exampleRoom (Some (mkCard 8 spades black true)))
                      ∅ ∅ ∅ ∅ ∅) emptyDatabase in
  generateSmartCard hash0 (globalRoom (manager w)) entropy0
    = Some (mkCard 8 spades black false)
  /\ exists stats',
       houseStats (globalRoom (manager (fst (resolveBets w)))) = Some stats'
       /\ totalWagered stats' = 150 /\ totalPaidOut stats' = 0.
Proof.
  intros w. split; [vm_compute; reflexivity|].
  destruct (settlement_pays_the_minimum hash0 entropy0 w
              [("s1", [mkActiveBet 1 "low" 100]); ("s2", [mkActiveBet 2 "red" 50])]
              (mkHouseStats 0 0 0 0 0) (mkCard 8 spades black false))
    as (stats' & H1 & H2 & H3 & _).
  - reflexivity.
  - apply (bool_decide_unpack _). vm_compute. reflexivity.
  - reflexivity.
  - reflexivity.
  - vm_compute. discriminate.
  - vm_compute. reflexivity.
  - reflexivity.
  - exists stats'. split; [exact H1|]. split.
    + rewrite H2. vm_compute. reflexivity.
    + rewrite H3. vm_compute. reflexivity.
Defined.

(** ** Placing a wager *)

Lemma find_updateFirst (test : Player -> bool) (f : Player -> Player)
    (ps : list Player) :
  (forall p, test (f p) = test p) ->
  find test (updateFirst test f ps) = f <$> find test ps.
Proof.
  intros Hf. induction ps as [|p ps IH]; [reflexivity|].
  cbn. destruct (test p) eqn:E; cbn.
  - rewrite Hf, E. reflexivity.
  - rewrite E. exact IH.
Qed.

(** The world an accepted [place-bet] produces. *)
Lemma handlePlaceBet_world (sock ty : string) (value : option string) (amount : Z)
    (w : World) (player : Player) (d : Z) (row : PlayerRow) :
  let m := manager w in
  let room := globalRoom m in
  let db0 := storage w in
  bettingOpen room ->
  findPlayer room sock = Some player -> dbId player = Some d -> d <> 0 ->
  players_table db0 !! d = Some row -> row_id row = d ->
  includes validBetTypes ty = true -> 0 < amount <= chips row ->
  truthy (currentGameId room) = true ->
  let bet := mkBetRow (bets_serial db0) (orZero (currentGameId room)) d amount ty
                      value false 0 in
  let room1 :=
    with_activeBets
      (with_players_list room
         (updateFirst (fun p => String.eqb (socketId p) sock)
                      (set_player_chips (Some (chips row - amount))) (players room)))
      (Some (Map_set (default [] (activeBets room)) sock
               (default [] (Map_get (default [] (activeBets room)) sock)
                ++ [mkActiveBet (bets_serial db0) ty amount]))) in
  handlePlaceBet sock ty value amount w
  = (mkWorld
       (mkGameManager room1 (playerRooms m) (countdownIntervals m) (adminOverrides m)
          (lockedBets m)
          (<[sock := default [] (unlockedBets m !! sock)
                     ++ [mkTrackedBet ty amount (bets_serial db0)]]> (unlockedBets m)))
       (mkDatabase (<[d := set_chips row (chips row - amount)]> (players_table db0))
                   (<[bets_serial db0 := bet]> (bets_table db0))
                   (games_table db0) (players_serial db0) (bets_serial db0 + 1)
                   (games_serial db0)),
     [(ToRoom "GLOBAL", room_updated (sanitizeRoomForBroadcast room1));
      (ToSocket sock, bet_placed bet (chips row - amount) false)]).
Proof.
  intros m room db0 [Hs Ht] Hp Hd Hd0 Hrow Hrid Hty [Ha1 Ha2] Hgid bet room1.
  unfold handlePlaceBet. cbv zeta. fold m. fold room. fold db0.
  rewrite Hs. cbn [Status_eqb negb orb].
  assert ((countdownTime room <=? 10) = false) as -> by (apply Z.leb_gt; lia).
  rewrite Hp, Hd. cbn [orZero].
  assert (truthy (Some d) = true) as ->.
  { unfold truthy. apply negb_true_iff, Z.eqb_neq. exact Hd0. }
  cbn [negb]. unfold getPlayer. rewrite Hrow, Hty. cbn [negb].
  assert ((amount <=? 0) = false) as -> by (apply Z.leb_gt; lia).
  assert ((chips row <? amount) = false) as Hlt by (apply Z.ltb_ge; lia).
  rewrite Hlt, Hgid. cbn [negb orb].
  unfold placeBet. rewrite Hrid, Hrow, Hlt.
  subst room1 bet. cbn [bet_id chips set_chips]. unfold activeBetOfRow. cbn.
  destruct (activeBets room) as [index|]; cbn;
    [destruct (Map_get index sock)|]; destruct (unlockedBets m !! sock); reflexivity.
Qed.

(** X14. Placing and then cancelling is a round trip.  After an accepted
    [place-bet], a [cancel-bet] from the same socket (no locked bets on the
    account) deletes the new bet row together with every other unlocked one,
    empties the socket's unlocked partition, and leaves the account with its
    balance from before the bet plus the stakes of the bets that were
    already pending: the stake just debited is returned in full. *)
Theorem place_then_cancel_round_trip (sock ty : string) (value : option string)
    (amount : Z) (w : World) (player : Player) (d : Z) (row : PlayerRow) :
  let m := manager w in
  let room := globalRoom m in
  let pending := default [] (unlockedBets m !! sock) in
  bettingOpen room ->
  findPlayer room sock = Some player -> dbId player = Some d -> d <> 0 ->
  players_table (storage w) !! d = Some row -> row_id row = d ->
  includes validBetTypes ty = true -> 0 < amount <= chips row ->
  truthy (currentGameId room) = true ->
  lockedBets m !! d = None ->
  Forall (fun b => 0 < tb_amount b) pending ->
  let w1 := fst (handlePlaceBet sock ty value amount w) in
  let w2 := fst (handleCancelBet sock false w1) in
  (exists row1, players_table (storage w1) !! d = Some row1
                /\ chips row1 = chips row - amount)
  /\ (exists row2, players_table (storage w2) !! d = Some row2
                   /\ chips row2 = chips row + sumAmounts pending)
  /\ bets_table (storage w2) !! bets_serial (storage w) = None
  /\ (forall b, b ∈ pending -> bets_table (storage w2) !! tb_betId b = None)
  /\ unlockedBets (manager w2) !! sock = None.
Proof.
  intros m room pending Hopen Hp Hd Hd0 Hrow Hrid Hty Ha Hgid Hlock Hpos w1 w2.
  subst w2 w1.
  rewrite (handlePlaceBet_world sock ty value amount w player d row
             Hopen Hp Hd Hd0 Hrow Hrid Hty Ha Hgid).
  cbn [fst]. fold m. fold room. fold pending.
  split.
  { eexists. split; [cbn; apply lookup_insert_eq|]. reflexivity. }
  match goal with |- context [handleCancelBet sock false ?x] => set (w1 := x) end.
  destruct (handleCancelBet_unlocked_effect sock w1
              (set_player_chips (Some (chips row - amount)) player) d
              (set_chips row (chips row - amount))
              (pending ++ [mkTrackedBet ty amount (bets_serial (storage w))]))
    as (_ & H2 & H3 & row2 & H4 & H5).
  - unfold findPlayer, w1. cbn. rewrite find_updateFirst by reflexivity.
    fold (findPlayer room sock). rewrite Hp. reflexivity.
  - exact Hd.
  - exact Hd0.
  - exact Hlock.
  - unfold w1. cbn. apply lookup_insert_eq.
  - intros E. apply (f_equal length) in E. rewrite length_app in E. cbn in E. lia.
  - unfold w1. cbn. apply lookup_insert_eq.
  - cbn. lia.
  - apply Forall_app. split; [exact Hpos|]. constructor; [cbn; lia|constructor].
  - split.
    + exists row2. split; [exact H4|]. rewrite H5. cbn.
      assert (forall l x, sumAmounts (l ++ [x]) = sumAmounts l + tb_amount x) as Hsum.
      { unfold sumAmounts.
        induction l as [|y l IH]; intros x; cbn [app fold_right]; [lia|].
        rewrite IH. lia. }
      rewrite Hsum. cbn [tb_amount]. lia.
    + split; [|split; [|exact H2]].
      * apply (H3 (mkTrackedBet ty amount (bets_serial (storage w)))).
        apply elem_of_app. right. apply list_elem_of_here.
      * intros b Hb. apply H3. apply elem_of_app. left. exact Hb.
Qed.

Lemma place_then_cancel_round_trip_witness :
  let w := fst (run hash0 seedWorld
                  [start_timer 1000; join_room "s1"; update_player_auth "s1" 7 "ann"]) in
  let w2 := fst (handleCancelBet "s1" false
                   (fst (handlePlaceBet "s1" "red" None 50 w))) in
  bettingOpen (globalRoom (manager w))
  /\ exists row2, players_table (storage w2) !! 1 = Some row2 /\ chips row2 = 1000.
Proof.
  intros w w2.
  assert (bettingOpen (globalRoom (manager w))) as Hopen.
  { split; [reflexivity|]. vm_compute. reflexivity. }
  split; [exact Hopen|].
  destruct (place_then_cancel_round_trip "s1" "red" None 50 w
              (annPlayer 1000) 1 (annRow 1000 0))
    as (_ & (row2 & H1 & H2) & _).
  - exact Hopen.
  - vm_compute. reflexivity.
  - reflexivity.
  - lia.
  - vm_compute. reflexivity.
  - reflexivity.
  - reflexivity.
  - cbn. lia.
  - reflexivity.
  - vm_compute. reflexivity.
  - vm_compute. constructor.
  - exists row2. split; [exact H1|]. rewrite H2. vm_compute. reflexivity.
Defined.

(** ** The client's betting panel *)

Lemma canPlaceBet_true (p : Client.Panel) :
  Client.canPlaceBet p = true <->
  Client.gameStatus p = "countdown" /\ 10 < Client.countdownTime p
  /\ Client.selectedBetType p <> "" /\ 0 < Client.selectedAmount p
  /\ Client.selectedAmount p <= Client.playerChips p - Client.totalBetAmount p.
Proof.
  unfold Client.canPlaceBet. cbv zeta.
  rewrite !andb_true_iff, negb_true_iff, String.eqb_eq, String.eqb_neq,
    !Z.ltb_lt, Z.leb_le.
  tauto.
Qed.

(** X15. The client's gate is at least as strict as the server's.  If the
    panel of a signed-in player shows the room's phase and countdown and the
    account's chips, and [canPlaceBet] enables the button for an enumerated
    bet type, then the button reads PLACE BET with the stake, the status
    line reads BETTING OPEN, and the server accepts the [place-bet] the
    click emits, debiting exactly the selected amount. *)
Theorem client_gate_implies_server_accepts (sock ty : string)
    (value : option string) (amount pending : Z) (w : World) (player : Player)
    (d : Z) (row : PlayerRow) :
  let room := globalRoom (manager w) in
  let panel := panelOf room (chips row) pending ty amount in
  findPlayer room sock = Some player -> dbId player = Some d -> d <> 0 ->
  players_table (storage w) !! d = Some row -> row_id row = d ->
  includes validBetTypes ty = true ->
  truthy (currentGameId room) = true ->
  0 <= pending ->
  Client.canPlaceBet panel = true ->
  Client.getPlaceBetButtonText panel = "PLACE BET (" +:+ pretty amount +:+ ")"
  /\ Client.getBettingStatus panel = "BETTING OPEN"
  /\ exists bet room1,
       snd (handlePlaceBet sock ty value amount w)
       = [(ToRoom "GLOBAL", room_updated room1);
          (ToSocket sock, bet_placed bet (chips row - amount) false)]
       /\ betAmount bet = amount /\ betType bet = ty /\ playerId bet = d.
Proof.
  intros room panel Hp Hd Hd0 Hrow Hrid Hty Hgid Hpend Hcan.
  apply canPlaceBet_true in Hcan. destruct Hcan as (Hs & Ht & Hsel & Ha & Hav).
  subst panel. cbn in Hs, Ht, Hsel, Ha, Hav.
  assert (status room = countdown) as Hst.
  { destruct (status room); cbn in Hs; try discriminate; reflexivity. }
  split; [|split].
  - unfold Client.getPlaceBetButtonText, panelOf. cbn. rewrite Hst. cbn.
    apply String.eqb_neq in Hsel. rewrite Hsel.
    assert ((chips row - pending <? amount) = false) as -> by (apply Z.ltb_ge; lia).
    assert ((countdownTime room <=? 10) = false) as -> by (apply Z.leb_gt; lia).
    reflexivity.
  - unfold Client.getBettingStatus, panelOf. cbn. rewrite Hst. cbn.
    assert ((10 <? countdownTime room) = true) as -> by (apply Z.ltb_lt; lia).
    reflexivity.
  - rewrite (handlePlaceBet_world sock ty value amount w player d row
               (conj Hst Ht) Hp Hd Hd0 Hrow Hrid Hty ltac:(lia) Hgid).
    cbn [snd]. eexists _, _. split; [reflexivity|]. repeat split.
Qed.

Lemma client_gate_implies_server_accepts_witness :
  let w := fst (run hash0 seedWorld
                  [start_timer 1000; join_room "s1"; update_player_auth "s1" 7 "ann"]) in
  Client.canPlaceBet (panelOf (globalRoom (manager w)) 1000 0 "red" 50) = true
  /\ Client.getPlaceBetButtonText (panelOf (globalRoom (manager w)) 1000 0 "red" 50)
     = "PLACE BET (50)".
Proof.
  intros w. split; [vm_compute; reflexivity|].
  destruct (client_gate_implies_server_accepts "s1" "red" None 50 0 w
              (annPlayer 1000) 1 (annRow 1000 0)) as (H & _).
  - vm_compute. reflexivity.
  - reflexivity.
  - lia.
  - vm_compute. reflexivity.
  - reflexivity.
  - reflexivity.
  - reflexivity.
  - lia.
  - vm_compute. reflexivity.
  - exact H.
Defined.

Lemma fold_left_sum {A} (f : A -> Z) (l : list A) (a : Z) :
  fold_left (fun sum x => sum + f x) l a = a + sumZ (map f l).
Proof.
  revert a. induction l as [|x l IH]; intros a; unfold sumZ; cbn [fold_left map foldr].
  - lia.
  - rewrite IH. unfold sumZ. lia.
Qed.

Lemma fold_left_mapped {A B C} (f : A -> B -> A) (g : C -> B) (l : list C) (a : A) :
  fold_left f (map g l) a = fold_left (fun a x => f a (g x)) l a.
Proof. revert a. induction l as [|x l IH]; intros a; [reflexivity|]. cbn. apply IH. Qed.

Lemma client_calculateWinAmount (ty : string) (a : Z) :
  Client.calculateWinAmount ty a = calculateWinAmount ty a.
Proof.
  unfold Client.calculateWinAmount, calculateWinAmount, payoutMultiplier. cbv zeta.
  rewrite roundToCents_integer. reflexivity.
Qed.

(** X16. The result popup shows what the server settled.  For the wagers of
    one index entry (distinct ids, positive stakes, none settled before),
    the client's [showBetResults] opens the popup with one row per wager
    whose won flag and win amount are exactly the arguments of the
    [storage.resolveBet] call the settlement loop makes for that wager, and
    the popup's total equals what the loop adds to the round's paid-out
    amount. *)
Theorem popup_matches_settlement (card : Card) (sock : string)
    (bets : list ActiveBet) (acc : Settlement) :
  bets <> [] ->
  Forall (fun b => 0 < ab_betAmount b) bets ->
  NoDup (map ab_id bets) ->
  (forall b, b ∈ bets -> ab_id b ∉ processedBetIds acc) ->
  let final := fold_left (resolveOne card sock) bets acc in
  let popup := Client.showBetResults card (map mirror bets) in
  fst (fst popup) = true
  /\ resolveCalls final
     = resolveCalls acc
       ++ map (fun '(b, r) => (ab_id b, Client.br_won r, Client.br_winAmount r))
              (zip bets (snd (fst popup)))
  /\ snd popup = roundPaidOut final - roundPaidOut acc.
Proof.
  intros Hne Hpos Hnd Hfresh final popup.
  destruct (resolveFold_fresh card (map (pair sock) bets) acc) as (_ & G2 & G3).
  { rewrite map_map. exact Hnd. }
  { intros sb Hsb. apply list_elem_of_fmap in Hsb as (b & -> & Hb). apply Hfresh, Hb. }
  cbv zeta in G2, G3. rewrite fold_left_mapped in G2, G3. cbn [fst snd] in G2, G3.
  change (fold_left (fun a x => resolveOne card sock a x) bets acc) with final in G2, G3.
  rewrite map_map in G2, G3. cbn [snd] in G2, G3.
  set (results :=
         map (fun bet =>
                let won := Client.isBetWinner (Client.type bet) card in
                let winAmount :=
                  if won
                  then Client.calculateWinAmount (Client.type bet) (Client.amount bet)
                  else 0 in
                Client.mkBetResult (Client.type bet) (Client.value bet)
                                   (Client.amount bet) won winAmount)
             (map mirror bets)).
  assert (sumZ (map Client.br_amount results) = sumZ (map ab_betAmount bets)) as Hstakes.
  { unfold results. rewrite !map_map. reflexivity. }
  assert (0 < sumZ (map ab_betAmount bets)) as Hsum.
  { destruct bets as [|b bets]; [congruence|].
    apply Forall_cons in Hpos as [Hb Hpos]. unfold sumZ. cbn [map foldr].
    assert (0 <= foldr Z.add 0 (map ab_betAmount bets)); [|lia].
    clear -Hpos. induction Hpos; cbn [map foldr]; lia. }
  assert (popup = (true, results,
                   fold_left (fun sum r => sum + Client.br_winAmount r) results 0))
    as Hpopup.
  { unfold popup, Client.showBetResults. cbv zeta. fold results.
    destruct bets as [|b bets]; [congruence|]. cbn [map length Nat.eqb].
    rewrite fold_left_sum, Z.add_0_l.
    change (map Client.br_amount (_ :: _)) with (map Client.br_amount results).
    rewrite Hstakes.
    assert ((0 <? sumZ (map ab_betAmount (b :: bets))) = true) as ->
      by (apply Z.ltb_lt; exact Hsum).
    reflexivity. }
  rewrite Hpopup. cbn [fst snd].
  assert (map (fun '(b, r) => (ab_id b, Client.br_won r, Client.br_winAmount r))
              (zip bets results)
          = map (callOf card) bets) as Hrows.
  { unfold results. clear. induction bets as [|b bets IH]; [reflexivity|].
    cbn [map zip zip_with]. rewrite IH. f_equal.
    unfold callOf, mirror. cbn. rewrite client_calculateWinAmount. reflexivity. }
  split; [reflexivity|]. split.
  - rewrite Hrows. exact G3.
  - rewrite fold_left_sum, G2, Z.add_0_l.
    assert (map Client.br_winAmount results = map (fun b => snd (callOf card b)) bets)
      as ->; [|lia].
    unfold results. rewrite !map_map. apply map_ext. intros b.
    unfold callOf, mirror. cbn. rewrite client_calculateWinAmount. reflexivity.
Qed.

Lemma popup_matches_settlement_witness :
  let bets := [mkActiveBet 1 "red" 50; mkActiveBet 2 "low" 100] in
  let card := mkCard 3 hearts red true in
  let acc := mkSettlement ∅ 0 0 emptyDatabase [] [] in
  Client.showBetResults card (map mirror bets)
  = (true, [Client.mkBetResult "red" "red" 50 true 100;
            Client.mkBetResult "low" "low" 100 true 200], 300)
  /\ snd (Client.showBetResults card (map mirror bets))
     = roundPaidOut (fold_left (resolveOne card "s1") bets acc) - roundPaidOut acc.
Proof.
  intros bets card acc. split; [vm_compute; reflexivity|].
  destruct (popup_matches_settlement card "s1" bets acc) as (_ & _ & H).
  - discriminate.
  - repeat constructor.
  - apply (bool_decide_unpack _). vm_compute. reflexivity.
  - intros b _. apply not_elem_of_empty.
  - exact H.
Defined.

(** ** Locking and cancelling *)

(** X17. Locking and then cancelling the locked bets is a round trip too.
    An accepted [lock-bet] moves the socket's unlocked bets to the account's
    locked partition without touching the database; a following
    [cancel-bet] with [cancelLocked] deletes those bet rows, refunds the sum
    of their stakes to the account, and removes the locked entry, so the
    account holds no wager in either partition. *)
Theorem lock_then_cancel_locked_round_trip (sock : string) (w : World)
    (player : Player) (d : Z) (row : PlayerRow) (bets : list TrackedBet) :
  let m := manager w in
  let room := globalRoom m in
  bettingOpen room ->
  findPlayer room sock = Some player -> dbId player = Some d -> d <> 0 ->
  lockedBets m !! d = None ->
  unlockedBets m !! sock = Some bets -> bets <> [] ->
  players_table (storage w) !! d = Some row -> 0 <= chips row ->
  Forall (fun b => 0 < tb_amount b) bets ->
  let w1 := fst (handleLockBet sock w) in
  let res := handleCancelBet sock true w1 in
  lockedBets (manager w1) !! d = Some bets
  /\ unlockedBets (manager w1) !! sock = None
  /\ storage w1 = storage w
  /\ snd res = [(ToSocket sock,
                 locked_bets_cancelled (length bets)
                                       (Some (chips row + sumAmounts bets)))]
  /\ lockedBets (manager (fst res)) !! d = None
  /\ unlockedBets (manager (fst res)) !! sock = None
  /\ (forall b, b ∈ bets -> bets_table (storage (fst res)) !! tb_betId b = None)
  /\ (exists row', players_table (storage (fst res)) !! d = Some row'
                   /\ chips row' = chips row + sumAmounts bets).
Proof.
  intros m room [Hs Ht] Hfind Hd Hd0 Hlocked Hunlocked Hne Hrow Hchips Hpos w1 res.
  assert (truthy (Some d) = true) as Htruthy by (apply truthy_Some; eauto).
  assert (w1 = mkWorld
                 (mkGameManager room (playerRooms m) (countdownIntervals m)
                    (adminOverrides m) (<[d := bets]> (lockedBets m))
                    (delete sock (unlockedBets m)))
                 (storage w)) as Hw1.
  { unfold w1, handleLockBet. cbv zeta. fold m. fold room.
    rewrite Hfind, Hd, Htruthy, Hs. cbn [negb orb Status_eqb orZero].
    assert ((countdownTime room <=? 10) = false) as -> by (apply Z.leb_gt; lia).
    rewrite Hlocked, Hunlocked.
    destruct bets as [|b0 rest]; [congruence|]. reflexivity. }
  split; [rewrite Hw1; apply lookup_insert_eq|].
  split; [rewrite Hw1; apply lookup_delete_eq|].
  split; [rewrite Hw1; reflexivity|].
  unfold res. rewrite Hw1.
  unfold handleCancelBet, handleCancelLockedBets. cbv zeta.
  cbn [manager globalRoom storage lockedBets unlockedBets].
  fold m. fold room. rewrite Hfind, Hd, Htruthy. cbn [negb orZero].
  rewrite lookup_insert_eq.
  destruct bets as [|b0 rest] eqn:Ebets; [congruence|]. rewrite <- Ebets in *.
  unfold cancelAndRefund. cbv zeta.
  cbn [manager globalRoom storage lockedBets unlockedBets].
  unfold cancelLoop. rewrite cancelLoop_from. rewrite Z.add_0_l. rewrite Hd. cbn [orZero].
  destruct (deleteAll_tables bets (storage w)) as (Hplayers & Hdeleted & _).
  cbv zeta in Hplayers, Hdeleted.
  set (db1 := fold_left (fun db b => deleteBet db (tb_betId b)) bets (storage w)) in *.
  unfold getPlayer. rewrite Hplayers, Hrow.
  unfold updatePlayerChips. rewrite Hplayers, Hrow.
  destruct (sumAmounts_nonneg bets Hpos) as [Hnn _].
  destruct (chips row + sumAmounts bets <? 0) eqn:Hneg; [apply Z.ltb_lt in Hneg; lia|].
  cbn [fst snd manager storage lockedBets unlockedBets with_room with_players
       players_table bets_table globalRoom playerRooms countdownIntervals adminOverrides].
  split; [reflexivity|].
  split; [rewrite lookup_delete_eq; reflexivity|].
  split; [apply lookup_delete_eq|]. split; [exact Hdeleted|].
  rewrite lookup_insert_eq. eexists. split; reflexivity.
Qed.

Lemma lock_then_cancel_locked_round_trip_witness :
  let w := fst (run hash0 seedWorld
                  [start_timer 1000; join_room "s1"; update_player_auth "s1" 7 "ann";
                   place_bet "s1" "red" None 50; place_bet "s1" "low" None 100]) in
  let res := handleCancelBet "s1" true (fst (handleLockBet "s1" w)) in
  bettingOpen (globalRoom (manager w))
  /\ exists row', players_table (storage (fst res)) !! 1 = Some row'
                  /\ chips row' = 1000.
Proof.
  intros w res.
  assert (bettingOpen (globalRoom (manager w))) as Hopen.
  { split; [reflexivity|]. vm_compute. reflexivity. }
  split; [exact Hopen|].
  destruct (lock_then_cancel_locked_round_trip "s1" w (annPlayer 850) 1 (annRow 850 0)
              [mkTrackedBet "red" 50 1; mkTrackedBet "low" 100 2])
    as (_ & _ & _ & _ & _ & _ & _ & row' & H1 & H2).
  - exact Hopen.
  - vm_compute. reflexivity.
  - reflexivity.
  - lia.
  - vm_compute. reflexivity.
  - vm_compute. reflexivity.
  - discriminate.
  - vm_compute. reflexivity.
  - cbn. lia.
  - repeat constructor.
  - exists row'. split; [exact H1|]. rewrite H2. reflexivity.
Defined.

(** ** Joining, signing in and leaving *)

(** X18. Signing in never changes a balance.  Over a database whose serial
    numbers are ahead of its rows, [handlePlayerAuth] leaves the chips, the
    win and loss counters and the owner of every existing player row as they
    were and leaves the bets table alone; the only row it can add is the one
    for a user seen for the first time, created with zero chips under the
    next serial id. *)
Theorem sign_in_keeps_balances (sock : string) (uid : Z) (username : string)
    (w : World) :
  serialsAhead (storage w) ->
  let db := storage w in
  let db' := storage (fst (handlePlayerAuth sock uid username w)) in
  (forall id row,
      players_table db !! id = Some row ->
      exists row', players_table db' !! id = Some row'
        /\ chips row' = chips row /\ userId row' = userId row
        /\ totalWins row' = totalWins row /\ totalLosses row' = totalLosses row)
  /\ (forall id row',
        players_table db' !! id = Some row' -> players_table db !! id = None ->
        id = players_serial db /\ chips row' = 0 /\ userId row' = uid)
  /\ bets_table db' = bets_table db.
Proof.
  intros (_ & _ & Hp). cbv zeta. unfold handlePlayerAuth. cbv zeta.
  destruct (findPlayer (globalRoom (manager w)) sock).
  2:{ cbn [fst]. split; [eauto 10|]. split; [congruence|reflexivity]. }
  destruct (createOrUpdatePlayerByUserId (storage w) uid sock username)
    as [db1 dbPlayer] eqn:E.
  assert (storage (fst (let '(room2, out) :=
                          match lockedBets (manager w) !! row_id dbPlayer with
                          | Some locked => _
                          | None => _
                          end in _)) = db1) as ->.
  { destruct (lockedBets (manager w) !! row_id dbPlayer); reflexivity. }
  unfold createOrUpdatePlayerByUserId in E.
  destruct (getPlayerByUserId (storage w) uid); injection E as <- _.
  - split; [|split; [|reflexivity]].
    + intros id row Hrow. cbn. rewrite lookup_fmap, Hrow. cbn.
      eexists. split; [reflexivity|]. case_bool_decide; cbn; auto.
    + intros id row'. cbn. rewrite lookup_fmap.
      intros H1 H2. rewrite H2 in H1. discriminate.
  - split; [|split; [|reflexivity]].
    + intros id row Hrow. cbn.
      destruct (Hp _ _ Hrow) as [_ Hlt].
      rewrite lookup_insert_ne by lia. eauto 10.
    + intros id row'. cbn. intros H1 H2.
      destruct (decide (id = players_serial (storage w))) as [->|Hne].
      * rewrite lookup_insert_eq in H1. injection H1 as <-. auto.
      * rewrite lookup_insert_ne in H1 by congruence. congruence.
Qed.

Lemma sign_in_keeps_balances_witness :
  serialsAhead (storage seedWorld)
  /\ players_table (storage (fst (handlePlayerAuth "s1" 7 "ann"
                                    (fst (joinRoom "s1" seedWorld))))) !! 1
     = Some (annRow 1000 0).
Proof.
  assert (serialsAhead (storage seedWorld)) as H.
  { split; [|split]; intros i r Hl; cbn in Hl.
    - rewrite lookup_empty in Hl. discriminate.
    - rewrite lookup_empty in Hl. discriminate.
    - apply lookup_singleton_Some in Hl as [<- <-]. cbn. lia. }
  split; [exact H|].
  destruct (sign_in_keeps_balances "s1" 7 "ann" (fst (joinRoom "s1" seedWorld)) H)
    as (H1 & _).
  destruct (H1 1 (annRow 1000 0)) as (row' & Hrow' & _); [reflexivity|].
  rewrite Hrow'. vm_compute in Hrow'. injection Hrow' as <-. reflexivity.
Defined.

Lemma leaveRoom_unmapped (sock : string) (w : World) :
  playerRooms (manager (fst (leaveRoom sock w))) !! sock = None.
Proof.
  unfold leaveRoom. destruct (playerRooms (manager w) !! sock) eqn:E; [|exact E].
  repeat case_match; cbn; apply lookup_delete_eq.
Qed.

(** X19. Disconnecting is idempotent.  After [leaveRoom] the socket is no
    longer mapped to a room, so a second disconnect of the same socket
    changes nothing and emits nothing: no wager is refunded twice. *)
Theorem disconnect_is_idempotent (sock : string) (w : World) :
  let w1 := fst (leaveRoom sock w) in
  playerRooms (manager w1) !! sock = None
  /\ leaveRoom sock w1 = (w1, []).
Proof.
  cbv zeta. pose proof (leaveRoom_unmapped sock w) as H.
  split; [exact H|].
  unfold leaveRoom at 1. rewrite H. reflexivity.
Qed.

Lemma find_app_None {A} (f : A -> bool) (l l' : list A) :
  find f l = None -> find f (l ++ l') = find f l'.
Proof.
  induction l as [|x l IH]; [reflexivity|].
  cbn. destruct (f x); [discriminate|]. exact IH.
Qed.

Lemma find_filter_negb {A} (f : A -> bool) (l : list A) :
  find f (List.filter (fun x => negb (f x)) l) = None.
Proof.
  induction l as [|x l IH]; [reflexivity|].
  cbn. destruct (f x) eqn:E; cbn; [exact IH|]. rewrite E. exact IH.
Qed.

(** X20. Locked wagers stay in play when their owner disconnects.  After an
    accepted [lock-bet], a disconnect of the socket removes the player from
    the room but refunds nothing: the database, the wager index and the
    account's locked partition are exactly as the lock left them, so the
    wagers are still settled at the reveal. *)
Theorem lock_then_disconnect_keeps_wagers (sock roomId : string) (w : World)
    (player : Player) (d : Z) (bets : list TrackedBet) :
  let m := manager w in
  let room := globalRoom m in
  bettingOpen room ->
  playerRooms m !! sock = Some roomId ->
  findPlayer room sock = Some player -> dbId player = Some d -> d <> 0 ->
  lockedBets m !! d = None ->
  unlockedBets m !! sock = Some bets -> bets <> [] ->
  let w2 := fst (leaveRoom sock (fst (handleLockBet sock w))) in
  storage w2 = storage w
  /\ activeBets (globalRoom (manager w2)) = activeBets room
  /\ lockedBets (manager w2) !! d = Some bets
  /\ unlockedBets (manager w2) !! sock = None
  /\ findPlayer (globalRoom (manager w2)) sock = None.
Proof.
  intros m room [Hs Ht] Hmap Hfind Hd Hd0 Hlocked Hunlocked Hne w2.
  assert (truthy (Some d) = true) as Htruthy by (apply truthy_Some; eauto).
  assert (fst (handleLockBet sock w)
          = mkWorld
              (mkGameManager room (playerRooms m) (countdownIntervals m)
                 (adminOverrides m) (<[d := bets]> (lockedBets m))
                 (delete sock (unlockedBets m)))
              (storage w)) as Hw1.
  { unfold handleLockBet. cbv zeta. fold m. fold room.
    rewrite Hfind, Hd, Htruthy, Hs. cbn [negb orb Status_eqb orZero].
    assert ((countdownTime room <=? 10) = false) as -> by (apply Z.leb_gt; lia).
    rewrite Hlocked, Hunlocked.
    destruct bets as [|b0 rest]; [congruence|]. reflexivity. }
  subst w2. rewrite Hw1. unfold leaveRoom. cbv zeta.
  cbn [manager globalRoom storage playerRooms unlockedBets lockedBets].
  rewrite Hmap, lookup_delete_eq.
  cbn [fst manager globalRoom storage lockedBets unlockedBets with_activeBets
       with_players_list activeBets].
  split; [reflexivity|]. split; [reflexivity|].
  split; [apply lookup_insert_eq|]. split; [apply lookup_delete_eq|].
  unfold findPlayer. cbn. apply find_filter_negb.
Qed.

Lemma lock_then_disconnect_keeps_wagers_witness :
  let w := fst (run hash0 seedWorld
                  [start_timer 1000; join_room "s1"; update_player_auth "s1" 7 "ann";
                   place_bet "s1" "red" None 50]) in
  let w2 := fst (leaveRoom "s1" (fst (handleLockBet "s1" w))) in
  bettingOpen (globalRoom (manager w))
  /\ storage w2 = storage w
  /\ lockedBets (manager w2) !! 1 = Some [mkTrackedBet "red" 50 1].
Proof.
  intros w w2.
  assert (bettingOpen (globalRoom (manager w))) as Hopen.
  { split; [reflexivity|]. vm_compute. reflexivity. }
  split; [exact Hopen|].
  destruct (lock_then_disconnect_keeps_wagers "s1" "GLOBAL" w (annPlayer 950) 1
              [mkTrackedBet "red" 50 1]) as (H1 & _ & H3 & _).
  - exact Hopen.
  - vm_compute. reflexivity.
  - vm_compute. reflexivity.
  - reflexivity.
  - lia.
  - vm_compute. reflexivity.
  - vm_compute. reflexivity.
  - discriminate.
  - split; [exact H1|exact H3].
Defined.

Lemma leaveRoom_players (sock : string) (w : World) :
  (playerRooms (manager w) !! sock = None ->
   findPlayer (globalRoom (manager w)) sock = None) ->
  findPlayer (globalRoom (manager (fst (leaveRoom sock w)))) sock = None.
Proof.
  intros Hcons. unfold leaveRoom.
  destruct (playerRooms (manager w) !! sock) eqn:E; [|apply Hcons; reflexivity].
  repeat case_match; unfold findPlayer; cbn; apply find_filter_negb.
Qed.

(** X21. A player who has joined but not signed in cannot wager.  Right
    after [joinRoom] (on a state where a socket that is not mapped to a room
    is not listed in it), the new player has no account id: every
    [place-bet], [lock-bet] and [cancel-bet] from that socket is rejected
    with an error to the sender and changes nothing. *)
Theorem unauthenticated_joiner_cannot_bet (sock ty : string)
    (value : option string) (amount : Z) (cancelLocked : bool) (w : World) :
  (playerRooms (manager w) !! sock = None ->
   findPlayer (globalRoom (manager w)) sock = None) ->
  let w1 := fst (joinRoom sock w) in
  (exists p, findPlayer (globalRoom (manager w1)) sock = Some p
             /\ dbId p = None /\ player_chips p = Some 0)
  /\ rejected sock w1 (handlePlaceBet sock ty value amount w1)
  /\ rejected sock w1 (handleLockBet sock w1)
  /\ rejected sock w1 (handleCancelBet sock cancelLocked w1).
Proof.
  intros Hcons w1.
  assert (exists p, findPlayer (globalRoom (manager w1)) sock = Some p
                    /\ dbId p = None /\ player_chips p = Some 0) as (p & Hp & Hd & Hc).
  { unfold w1, joinRoom. pose proof (leaveRoom_players sock w Hcons) as Hl.
    destruct (leaveRoom sock w) as [w0 out0]. cbn [fst] in Hl.
    unfold findPlayer in *. cbn. rewrite find_app_None by exact Hl.
    cbn. rewrite String.eqb_refl. eexists. repeat split. }
  split; [eauto|]. split; [|split].
  - unfold handlePlaceBet. cbv zeta.
    destruct (negb (Status_eqb (status (globalRoom (manager w1))) countdown)
              || (countdownTime (globalRoom (manager w1)) <=? 10)).
    + split; [reflexivity|]. eexists. right. reflexivity.
    + rewrite Hp, Hd. cbn. split; [reflexivity|]. eexists. right. reflexivity.
  - unfold handleLockBet. cbv zeta. rewrite Hp, Hd. cbn.
    split; [reflexivity|]. eexists. left. reflexivity.
  - unfold handleCancelBet. cbv zeta. rewrite Hp, Hd. cbn.
    split; [reflexivity|]. eexists. left. reflexivity.
Qed.

Lemma unauthenticated_joiner_cannot_bet_witness :
  (playerRooms (manager seedWorld) !! "s1" = None ->
   findPlayer (globalRoom (manager seedWorld)) "s1" = None)
  /\ rejected "s1" (fst (joinRoom "s1" seedWorld))
       (handlePlaceBet "s1" "red" None 50 (fst (joinRoom "s1" seedWorld))).
Proof.
  assert (playerRooms (manager seedWorld) !! "s1" = None ->
          findPlayer (globalRoom (manager seedWorld)) "s1" = None) as H.
  { intros _. reflexivity. }
  split; [exact H|].
  destruct (unauthenticated_joiner_cannot_bet "s1" "red" None 50 false seedWorld H)
    as (_ & H1 & _).
  exact H1.
Defined.

(** ** Administrative funds adjustment *)

(** X22. [updatePlayerFunds] never stores a negative balance.  It throws,
    producing no new database, when the user has no player row or when the
    adjustment would take the balance read from the user's first row below
    zero; otherwise every row of that user receives that balance plus the
    adjustment (which is not negative), rows of other users and the bets
    table are untouched, and non-negative balances stay non-negative. *)
Theorem funds_adjustment_never_negative (db : Database) (uid chipsToAdd : Z) :
  nonnegBalances db ->
  match updatePlayerFunds db uid chipsToAdd with
  | Throw _ =>
      getPlayerByUserId db uid = None
      \/ exists p, getPlayerByUserId db uid = Some p /\ chips p + chipsToAdd < 0
  | Ok (db', row) =>
      exists p,
        getPlayerByUserId db uid = Some p
        /\ 0 <= chips p + chipsToAdd
        /\ chips row = chips p + chipsToAdd
        /\ nonnegBalances db'
        /\ bets_table db' = bets_table db
        /\ (forall id r, players_table db !! id = Some r ->
              exists r', players_table db' !! id = Some r'
                /\ chips r' = if bool_decide (userId r = uid)
                              then chips p + chipsToAdd else chips r)
  end.
Proof.
  intros Hnn. unfold updatePlayerFunds.
  destruct (getPlayerByUserId db uid) as [p|] eqn:Ep; [|left; reflexivity].
  cbv zeta. destruct (chips p + chipsToAdd <? 0) eqn:Eneg.
  - right. exists p. split; [reflexivity|]. apply Z.ltb_lt. exact Eneg.
  - apply Z.ltb_ge in Eneg. exists p.
    split; [reflexivity|]. split; [exact Eneg|]. split.
    { case_bool_decide; [reflexivity|].
      exfalso. unfold getPlayerByUserId in Ep.
      destruct (list_find _ _) as [[i [k r]]|] eqn:Ef; [|discriminate].
      cbn in Ep. injection Ep as <-.
      apply list_find_Some in Ef as (_ & Hu & _). cbn in Hu. contradiction. }
    split; [|split; [reflexivity|]].
    + intros id r. cbn. rewrite lookup_fmap.
      destruct (players_table db !! id) as [r0|] eqn:E; [|discriminate].
      intros [= <-]. pose proof (Hnn _ _ E). case_bool_decide; cbn; assumption.
    + intros id r Hr. cbn. rewrite lookup_fmap, Hr. cbn.
      eexists. split; [reflexivity|]. case_bool_decide; reflexivity.
Qed.

Lemma funds_adjustment_never_negative_witness :
  nonnegBalances (storage seedWorld)
  /\ (exists db' row, updatePlayerFunds (storage seedWorld) 7 (-400) = Ok (db', row)
                      /\ chips row = 600)
  /\ updatePlayerFunds (storage seedWorld) 7 (-1001)
     = Throw "Cannot reduce chips below zero".
Proof.
  assert (nonnegBalances (storage seedWorld)) as H.
  { intros id row Hl.
    change (players_table (storage seedWorld))
      with ({[ 1 := annRow 1000 0 ]} : gmap Z PlayerRow) in Hl.
    apply lookup_singleton_Some in Hl as [_ <-]. simpl. lia. }
  split; [exact H|].
  pose proof (funds_adjustment_never_negative (storage seedWorld) 7 (-400) H) as Hok.
  split; [|vm_compute; reflexivity].
  destruct (updatePlayerFunds (storage seedWorld) 7 (-400)) as [[db' row]|msg] eqn:E.
  - exists db', row. split; [reflexivity|].
    vm_compute in E. injection E as _ <-. reflexivity.
  - vm_compute in E. discriminate.
Defined.

(** ** Betting history *)

Lemma betsWithBalance_cons (c : Z) (b : HistoryBet) (bs : list HistoryBet) :
  betsWithBalance c (b :: bs)
  = mkHistoryEntry b c (if hb_won b then hb_winAmount b - hb_betAmount b
                        else - hb_betAmount b)
    :: betsWithBalance
         (if hb_won b then c + hb_betAmount b - hb_winAmount b else c + hb_betAmount b)
         bs.
Proof.
  unfold betsWithBalance. cbn [fold_left app].
  set (f := fun '(currentBalance, out) bet => _).
  assert (forall l c0 out,
            snd (fold_left f l (c0, out)) = out ++ snd (fold_left f l (c0, []))) as Hgen.
  { induction l as [|x l IH]; intros c0 out; cbn [fold_left].
    - cbn. rewrite app_nil_r. reflexivity.
    - unfold f at 2 4. rewrite IH. rewrite (IH _ ([] ++ _)).
      rewrite app_assoc. reflexivity. }
  rewrite Hgen. reflexivity.
Qed.

(** X23. The balance column of the betting history is a consistent replay.
    [getAllPlayerBetsWithBalance] lists the bets newest first: the first
    entry's balance is the player's current chips, every entry carries the
    profit or loss of its bet (win amount minus stake for a won bet, minus
    the stake otherwise), and each older entry's balance is the newer
    entry's balance minus the newer entry's profit or loss. *)
Theorem history_balances_chain (playerChips : Z) (allBets : list HistoryBet) :
  let entries := betsWithBalance playerChips allBets in
  map he_bet entries = allBets
  /\ (forall e, entries !! 0%nat = Some e -> balanceAfter e = playerChips)
  /\ (forall e, e ∈ entries ->
        profitLoss e = if hb_won (he_bet e)
                       then hb_winAmount (he_bet e) - hb_betAmount (he_bet e)
                       else - hb_betAmount (he_bet e))
  /\ (forall i e1 e2,
        entries !! i = Some e1 -> entries !! S i = Some e2 ->
        balanceAfter e2 = balanceAfter e1 - profitLoss e1).
Proof.
  cbv zeta. revert playerChips.
  induction allBets as [|b bs IH]; intros c.
  - unfold betsWithBalance. cbn. split; [reflexivity|].
    split; [discriminate|]. split; [|discriminate].
    intros e He. apply elem_of_nil in He. contradiction.
  - rewrite betsWithBalance_cons.
    set (c' := if hb_won b then c + hb_betAmount b - hb_winAmount b
               else c + hb_betAmount b).
    destruct (IH c') as (I1 & I2 & I3 & I4).
    split; [cbn; rewrite I1; reflexivity|].
    split; [intros e [= <-]; reflexivity|]. split.
    + intros e He. apply elem_of_cons in He as [->|He]; [reflexivity|auto].
    + intros [|i] e1 e2; cbn.
      * intros [= <-] H2. apply I2 in H2. rewrite H2. cbn. unfold c'.
        destruct (hb_won b); lia.
      * apply I4.
Qed.

(** ** Win conditions *)

(** X24. The number bets partition the deck and a 7 beats both colours.  For
    a card numbered 1 to 13 exactly one of 'low', 'high' and 'lucky7' wins;
    on a 7 neither 'red' nor 'black' wins whatever the card's colour; on any
    other number exactly one of 'red' and 'black' wins; a bet of any other
    type never wins. *)
Theorem number_bets_partition (c : Card) :
  1 <= number c <= 13 ->
  length (List.filter (fun ty => isBetWinner ty c) ["low"; "high"; "lucky7"]) = 1%nat
  /\ (number c = 7 ->
      isBetWinner "red" c = false /\ isBetWinner "black" c = false
      /\ isBetWinner "lucky7" c = true)
  /\ (number c <> 7 ->
      isBetWinner "red" c = negb (isBetWinner "black" c)
      /\ isBetWinner "lucky7" c = false)
  /\ (forall ty, includes validBetTypes ty = false -> isBetWinner ty c = false).
Proof.
  intros Hrange. unfold isBetWinner. cbn [String.eqb Ascii.eqb Bool.eqb List.filter].
  split; [|split; [|split]].
  - cbn.
    destruct (Z.leb_spec 1 (number c)), (Z.leb_spec (number c) 6),
             (Z.leb_spec 8 (number c)), (Z.eqb_spec (number c) 7);
      cbn; try reflexivity; lia.
  - intros H7. rewrite H7. cbn. rewrite !andb_false_r. auto.
  - intros H7. cbn.
    destruct (Z.eqb_spec (number c) 7); [contradiction|].
    destruct (color c); cbn; auto.
  - intros ty Hty. unfold includes, validBetTypes in Hty. cbn [existsb] in Hty.
    rewrite !orb_false_iff in Hty. destruct Hty as (E1 & E2 & E3 & E4 & E5 & _).
    rewrite E1, E2, E3, E4, E5. reflexivity.
Qed.

Lemma number_bets_partition_witness :
  1 <= number (mkCard 7 hearts red true) <= 13
  /\ isBetWinner "red" (mkCard 7 hearts red true) = false.
Proof.
  split; [cbn; lia|].
  destruct (number_bets_partition (mkCard 7 hearts red true)) as (_ & H & _).
  - cbn. lia.
  - destruct H as (H & _); reflexivity || exact H.
Defined.

(** ** The administrator's view during the countdown *)

(** X25. The administrator sees the card before the players do.  While the
    room is in [countdown] with a card generated and a game id set,
    [getCurrentRoundData] returns that card, face down, together with the
    remaining time, although the room object broadcast to players carries no
    card; so an override can be chosen knowing the card and every wager. *)
Theorem admin_sees_card_before_reveal (w : World) (c : Card) :
  let room := globalRoom (manager w) in
  status room = countdown -> currentCard room = Some c ->
  truthy (currentGameId room) = true ->
  (exists d, getCurrentRoundData w = Some d
             /\ rd_currentCard d = Some c
             /\ rd_timeRemaining d = Some (countdownTime room)
             /\ rd_status d = countdown)
  /\ currentCard (sanitizeRoomForBroadcast room) = None.
Proof.
  intros room Hs Hc Hgid. split.
  - unfold getCurrentRoundData. cbv zeta. fold room. rewrite Hgid. cbn [negb].
    match goal with |- context [let '(totalBets0, betsByType0) := ?x in _] =>
      destruct x as [total byType] end.
    rewrite Hs, Hc. cbn [Status_eqb andb orb]. rewrite andb_false_r.
    eexists. split; [reflexivity|]. cbn. destruct c; auto.
  - unfold sanitizeRoomForBroadcast. cbn. rewrite Hc, Hs. reflexivity.
Qed.

Lemma admin_sees_card_before_reveal_witness :
  status (globalRoom (manager closedWindowWorld)) = countdown
  /\ exists d, getCurrentRoundData closedWindowWorld = Some d
               /\ rd_currentCard d = Some (mkCard 1 spades black false).
Proof.
  split; [reflexivity|].
  destruct (admin_sees_card_before_reveal closedWindowWorld (mkCard 1 spades black false))
    as ((d & H1 & H2 & _) & _).
  - reflexivity.
  - reflexivity.
  - reflexivity.
  - exists d. split; [exact H1|exact H2].
Defined.

(** ** A wager placed after locking *)

(** X26. A wager placed after locking cannot be undone on its own.
    [handlePlaceBet] does not look at the locked partition, so an account
    with locked bets can still place a bet during the betting window; but
    then [lock-bet] is rejected because locked bets exist and [cancel-bet]
    for the unlocked bets is rejected for the same reason: the new wager
    stays in play unless the locked bets are cancelled first. *)
Theorem wager_after_lock_is_stuck (sock ty : string) (value : option string)
    (amount : Z) (w : World) (player : Player) (d : Z) (row : PlayerRow)
    (locked : list TrackedBet) :
  let m := manager w in
  let room := globalRoom m in
  bettingOpen room ->
  findPlayer room sock = Some player -> dbId player = Some d -> d <> 0 ->
  players_table (storage w) !! d = Some row -> row_id row = d ->
  includes validBetTypes ty = true -> 0 < amount <= chips row ->
  truthy (currentGameId room) = true ->
  lockedBets m !! d = Some locked ->
  let w1 := fst (handlePlaceBet sock ty value amount w) in
  unlockedBets (manager w1) !! sock
    = Some (default [] (unlockedBets m !! sock)
            ++ [mkTrackedBet ty amount (bets_serial (storage w))])
  /\ (exists row1, players_table (storage w1) !! d = Some row1
                   /\ chips row1 = chips row - amount)
  /\ handleLockBet sock w1
     = (w1, [(ToSocket sock,
              bet_error "You already have locked bets. Locked bets cannot be changed.")])
  /\ handleCancelBet sock false w1
     = (w1, [(ToSocket sock,
              bet_error "Cannot cancel unlocked bets when you have locked bets. Cancel locked bets first.")]).
Proof.
  intros m room Hopen Hp Hd Hd0 Hrow Hrid Hty Ha Hgid Hlock w1.
  assert (truthy (Some d) = true) as Htruthy by (apply truthy_Some; eauto).
  subst w1.
  rewrite (handlePlaceBet_world sock ty value amount w player d row
             Hopen Hp Hd Hd0 Hrow Hrid Hty Ha Hgid).
  cbn [fst]. fold m. fold room.
  match goal with |- context [handleLockBet sock ?x] => set (w1 := x) end.
  assert (findPlayer (globalRoom (manager w1)) sock
          = Some (set_player_chips (Some (chips row - amount)) player)) as Hp1.
  { unfold findPlayer, w1. cbn. rewrite find_updateFirst by reflexivity.
    fold (findPlayer room sock). rewrite Hp. reflexivity. }
  split; [unfold w1; cbn; apply lookup_insert_eq|].
  split; [eexists; split; [unfold w1; cbn; apply lookup_insert_eq|reflexivity]|].
  destruct Hopen as [Hs Ht]. split.
  - unfold handleLockBet. cbv zeta. rewrite Hp1. cbn [dbId set_player_chips].
    rewrite Hd, Htruthy. cbn [negb orZero].
    assert (status (globalRoom (manager w1)) = countdown) as -> by exact Hs.
    assert ((countdownTime (globalRoom (manager w1)) <=? 10) = false) as ->.
    { apply Z.leb_gt. exact Ht. }
    cbn [Status_eqb negb orb].
    assert (lockedBets (manager w1) !! d = Some locked) as -> by exact Hlock.
    reflexivity.
  - unfold handleCancelBet. cbv zeta. rewrite Hp1. cbn [dbId set_player_chips].
    rewrite Hd, Htruthy. cbn [negb orZero].
    assert (lockedBets (manager w1) !! d = Some locked) as -> by exact Hlock.
    reflexivity.
Qed.

Lemma wager_after_lock_is_stuck_witness :
  let w := fst (run hash0 seedWorld
                  [start_timer 1000; join_room "s1"; update_player_auth "s1" 7 "ann";
                   place_bet "s1" "red" None 50; lock_bet "s1"]) in
  let w1 := fst (handlePlaceBet "s1" "low" None 100 w) in
  bettingOpen (globalRoom (manager w))
  /\ unlockedBets (manager w1) !! "s1" = Some [mkTrackedBet "low" 100 2]
  /\ snd (handleCancelBet "s1" false w1)
     = [(ToSocket "s1",
         bet_error "Cannot cancel unlocked bets when you have locked bets. Cancel locked bets first.")].
Proof.
  intros w w1.
  assert (bettingOpen (globalRoom (manager w))) as Hopen.
  { split; [reflexivity|]. vm_compute. reflexivity. }
  split; [exact Hopen|].
  destruct (wager_after_lock_is_stuck "s1" "low" None 100 w (annPlayer 950) 1
              (annRow 950 0) [mkTrackedBet "red" 50 1]) as (H1 & _ & _ & H4).
  - exact Hopen.
  - vm_compute. reflexivity.
  - reflexivity.
  - lia.
  - vm_compute. reflexivity.
  - reflexivity.
  - reflexivity.
  - cbn. lia.
  - reflexivity.
  - vm_compute. reflexivity.
  - unfold w1. split; [rewrite H1; vm_compute; reflexivity|].
    rewrite H4. cbn [snd]. reflexivity.
Defined.

(** ** Admissible wagers *)

Section IndexForall.

Variable P : ActiveBet -> Prop.

Lemma Map_set_Forall (m : BetIndex) (k : string) (v : list ActiveBet) :
  Forall P (concat (map snd m)) -> Forall P v ->
  Forall P (concat (map snd (Map_set m k v))).
Proof.
  intros Hm Hv. induction m as [|[k' v'] m IH]; cbn.
  - rewrite app_nil_r. exact Hv.
  - cbn in Hm. apply Forall_app in Hm as [H1 H2].
    destruct (String.eqb k' k); cbn; apply Forall_app; auto.
Qed.

Lemma Map_delete_Forall (m : BetIndex) (k : string) :
  Forall P (concat (map snd m)) -> Forall P (concat (map snd (Map_delete m k))).
Proof.
  intros Hm. induction m as [|[k' v'] m IH]; cbn; [constructor|].
  cbn in Hm. apply Forall_app in Hm as [H1 H2].
  destruct (String.eqb k' k); cbn; [exact H2|]. apply Forall_app; auto.
Qed.

Lemma Map_get_Forall (m : BetIndex) (k : string) (v : list ActiveBet) :
  Forall P (concat (map snd m)) -> Map_get m k = Some v -> Forall P v.
Proof.
  intros Hm. induction m as [|[k' v'] m IH]; cbn; [discriminate|].
  cbn in Hm. apply Forall_app in Hm as [H1 H2].
  destruct (String.eqb k' k); [intros [= <-]; exact H1|auto].
Qed.

Lemma spliceBet_Forall (id : Z) (l : list ActiveBet) :
  Forall P l -> Forall P (spliceBet id l).
Proof.
  intros Hl. apply Forall_forall. intros a Ha.
  apply spliceBet_sub in Ha. exact (proj1 (Forall_forall _ _) Hl a Ha).
Qed.

Lemma removeActiveBet_Forall (index : option BetIndex) (sock : string) (id : Z) :
  Forall P (indexBets index) -> Forall P (indexBets (removeActiveBet index sock id)).
Proof.
  unfold indexBets, removeActiveBet. destruct index as [m|]; [|auto]. cbn.
  intros Hm. destruct (Map_get m sock) as [bets|] eqn:E; cbn; [|exact Hm].
  apply Map_set_Forall; [exact Hm|].
  apply spliceBet_Forall. eapply Map_get_Forall; eassumption.
Qed.

Lemma dropEmptyEntry_Forall (index : option BetIndex) (sock : string) :
  Forall P (indexBets index) -> Forall P (indexBets (dropEmptyEntry index sock)).
Proof.
  unfold indexBets, dropEmptyEntry. destruct index as [m|]; [|auto]. cbn.
  intros Hm. destruct (Map_get m sock) as [[|b l]|]; cbn; auto.
  apply Map_delete_Forall, Hm.
Qed.

Lemma cancelLoop_Forall sock bets db index db1 index1 refund :
  cancelLoop sock bets db index = (db1, index1, refund) ->
  Forall P (indexBets index) -> Forall P (indexBets index1).
Proof.
  unfold cancelLoop. rewrite cancelLoop_from. intros [= _ <- _].
  revert index. induction bets as [|b bets IH]; intros index H; cbn; [exact H|].
  apply IH, removeActiveBet_Forall, H.
Qed.

Lemma removeStale_Forall (ids : gset Z) (index : BetIndex) :
  Forall P (concat (map snd index)) ->
  Forall P (concat (map snd (removeStale ids index))).
Proof.
  intros H. unfold removeStale.
  assert (forall l acc,
            Forall P (concat (map snd acc)) -> Forall P (concat (map snd l)) ->
            Forall P (concat (map snd (fold_left (removeStaleStep ids) l acc)))) as Hgen.
  { induction l as [|[k bets] l IH]; intros acc Hacc Hl; cbn [fold_left]; [exact Hacc|].
    cbn in Hl. apply Forall_app in Hl as [Hb Hl]. apply IH; [|exact Hl].
    unfold removeStaleStep. cbv zeta. cbn [fst snd].
    repeat case_match.
    - apply Map_delete_Forall, Hacc.
    - apply Map_set_Forall; [exact Hacc|].
      apply Forall_forall. intros a Ha.
      apply list_elem_of_In, filter_In in Ha as [Ha _].
      exact (proj1 (Forall_forall _ _) Hb a (proj2 (list_elem_of_In _ _) Ha)).
    - exact Hacc. }
  apply Hgen; exact H.
Qed.

End IndexForall.

Lemma partition_insert {K} `{Countable K} (m : gmap K (list TrackedBet)) (k : K)
    (v : list TrackedBet) :
  (forall k' l, m !! k' = Some l -> Forall admissibleTracked l) ->
  Forall admissibleTracked v ->
  forall k' l, <[k := v]> m !! k' = Some l -> Forall admissibleTracked l.
Proof.
  intros Hm Hv k' l. destruct (decide (k' = k)) as [->|Hne].
  - rewrite lookup_insert_eq. intros [= <-]. exact Hv.
  - rewrite lookup_insert_ne by congruence. apply Hm.
Qed.

Lemma partition_delete {K} `{Countable K} (m : gmap K (list TrackedBet)) (k : K) :
  (forall k' l, m !! k' = Some l -> Forall admissibleTracked l) ->
  forall k' l, delete k m !! k' = Some l -> Forall admissibleTracked l.
Proof.
  intros Hm k' l. rewrite lookup_delete_Some. intros [_ Hl]. eauto.
Qed.

Lemma leaveRoom_admissible (sock : string) (w : World) :
  wagersAdmissible (manager w) -> wagersAdmissible (manager (fst (leaveRoom sock w))).
Proof.
  intros (Hi & Hl & Hu). unfold leaveRoom.
  destruct (playerRooms (manager w) !! sock); [|exact (conj Hi (conj Hl Hu))].
  cbv zeta. destruct (unlockedBets (manager w) !! sock) as [bets|] eqn:E.
  - destruct (cancelLoop sock bets (storage w) (activeBets (globalRoom (manager w))))
      as [[db1 index1] total] eqn:Ec.
    split; [|split]; cbn.
    + apply dropEmptyEntry_Forall. eapply cancelLoop_Forall; eassumption.
    + exact Hl.
    + apply partition_delete, Hu.
  - split; [|split]; cbn; assumption.
Qed.

Lemma joinRoom_admissible (sock : string) (w : World) :
  wagersAdmissible (manager w) -> wagersAdmissible (manager (fst (joinRoom sock w))).
Proof.
  intros H. unfold joinRoom. pose proof (leaveRoom_admissible sock w H) as Hl.
  destruct (leaveRoom sock w) as [w1 out1]. exact Hl.
Qed.

Lemma handlePlayerAuth_admissible sock uid username (w : World) :
  wagersAdmissible (manager w) ->
  wagersAdmissible (manager (fst (handlePlayerAuth sock uid username w))).
Proof.
  intros (Hi & Hl & Hu). unfold handlePlayerAuth. cbv zeta.
  destruct (findPlayer (globalRoom (manager w)) sock); [|exact (conj Hi (conj Hl Hu))].
  destruct (createOrUpdatePlayerByUserId (storage w) uid sock username)
    as [db dbPlayer].
  destruct (lockedBets (manager w) !! row_id dbPlayer) as [locked|] eqn:El.
  - split; [|split]; cbn; [|exact Hl|exact Hu].
    apply Map_set_Forall.
    + unfold indexBets in Hi.
      destruct (activeBets (globalRoom (manager w))); cbn in *; [|constructor].
      apply removeStale_Forall, Hi.
    + specialize (Hl _ _ El). apply Forall_forall. intros a Ha.
      apply list_elem_of_fmap in Ha as (b & -> & Hb).
      exact (proj1 (Forall_forall _ _) Hl b Hb).
  - split; [|split]; cbn; assumption.
Qed.

Lemma handlePlaceBet_admissible sock ty value amount (w : World) :
  wagersAdmissible (manager w) ->
  wagersAdmissible (manager (fst (handlePlaceBet sock ty value amount w))).
Proof.
  intros (Hi & Hl & Hu). pose proof (conj Hi (conj Hl Hu)) as H.
  unfold handlePlaceBet. cbv zeta.
  destruct (negb _ || _); [exact H|].
  destruct (findPlayer _ _) as [player|]; [|exact H].
  destruct (negb (truthy (dbId player))); [exact H|].
  destruct (getPlayer _ _) as [dbPlayer|]; [|exact H].
  destruct (negb (includes validBetTypes ty)) eqn:Ety; [exact H|].
  destruct ((amount <=? 0) || (chips dbPlayer <? amount)) eqn:Eam; [exact H|].
  destruct (negb (truthy _)); [exact H|].
  destruct (placeBet _ _ _ _ _ _) as [[[db bet] up]|msg] eqn:Epl; [|exact H].
  apply negb_false_iff in Ety. apply orb_false_iff in Eam as [Eam _].
  apply Z.leb_gt in Eam.
  assert (activeBetOfRow bet = mkActiveBet (bet_id bet) ty amount) as Hbet.
  { unfold placeBet in Epl. repeat case_match; try discriminate.
    injection Epl as _ <- _. reflexivity. }
  split; [|split]; cbn; [|exact Hl|].
  - unfold indexBets in Hi. apply Map_set_Forall.
    + destruct (activeBets (globalRoom (manager w))); cbn in *; [exact Hi|constructor].
    + apply Forall_app. split.
      * destruct (activeBets (globalRoom (manager w))) as [index|]; cbn in *;
          [|constructor].
        destruct (Map_get index sock) eqn:Eg; [|constructor].
        eapply Map_get_Forall; eassumption.
      * rewrite Hbet. constructor; [|constructor]. split; [exact Ety|exact Eam].
  - apply partition_insert; [exact Hu|].
    apply Forall_app. split.
    + destruct (unlockedBets (manager w) !! sock) eqn:Eu; [|constructor]. eauto.
    + constructor; [|constructor]. split; [exact Ety|exact Eam].
Qed.

Lemma handleLockBet_admissible sock (w : World) :
  wagersAdmissible (manager w) -> wagersAdmissible (manager (fst (handleLockBet sock w))).
Proof.
  intros (Hi & Hl & Hu). pose proof (conj Hi (conj Hl Hu)) as H.
  unfold handleLockBet. cbv zeta.
  destruct (findPlayer _ _) as [player|]; [|exact H].
  destruct (negb (truthy (dbId player))); [exact H|].
  destruct (negb _ || _); [exact H|].
  destruct (lockedBets _ !! _); [exact H|].
  destruct (unlockedBets (manager w) !! sock) as [[|b l]|] eqn:Eu; try exact H.
  split; [|split]; cbn; [exact Hi| |].
  - apply partition_insert; [exact Hl|]. eauto.
  - apply partition_delete, Hu.
Qed.

Lemma cancelAndRefund_admissible sock player bets clear done (w : World) :
  (forall m, wagersAdmissible m -> wagersAdmissible (clear m)) ->
  wagersAdmissible (manager w) ->
  wagersAdmissible (manager (fst (cancelAndRefund sock player bets clear done w))).
Proof.
  intros Hclear (Hi & Hl & Hu). unfold cancelAndRefund. cbv zeta.
  destruct (cancelLoop sock bets (storage w) (activeBets (globalRoom (manager w))))
    as [[db1 index1] total] eqn:Ec.
  assert (Forall admissibleBet (indexBets (dropEmptyEntry index1 sock))) as Hidx.
  { apply dropEmptyEntry_Forall. eapply cancelLoop_Forall; eassumption. }
  destruct (getPlayer db1 _) as [dbPlayer|].
  - destruct (updatePlayerChips db1 _ _) as [[db2 r]|msg]; cbn [fst manager].
    + apply Hclear. split; [|split]; cbn; assumption.
    + split; [|split]; cbn; assumption.
  - cbn [fst manager]. apply Hclear. split; [|split]; cbn; assumption.
Qed.

Lemma handleCancelLockedBets_admissible sock (w : World) :
  wagersAdmissible (manager w) ->
  wagersAdmissible (manager (fst (handleCancelLockedBets sock w))).
Proof.
  intros H. unfold handleCancelLockedBets. cbv zeta.
  destruct (findPlayer _ _) as [player|]; [|exact H].
  destruct (negb (truthy (dbId player))); [exact H|].
  destruct (lockedBets (manager w) !! _) as [[|b l]|]; try exact H.
  apply cancelAndRefund_admissible; [|exact H].
  intros m (Hi & Hl & Hu). split; [|split]; cbn; [exact Hi| |exact Hu].
  apply partition_delete, Hl.
Qed.

Lemma handleCancelBet_admissible sock cancelLocked (w : World) :
  wagersAdmissible (manager w) ->
  wagersAdmissible (manager (fst (handleCancelBet sock cancelLocked w))).
Proof.
  intros H. unfold handleCancelBet. cbv zeta.
  destruct (findPlayer _ _) as [player|]; [|exact H].
  destruct (negb (truthy (dbId player))); [exact H|].
  destruct cancelLocked; [apply handleCancelLockedBets_admissible, H|].
  destruct (lockedBets (manager w) !! _); [exact H|].
  destruct (unlockedBets (manager w) !! sock) as [[|b l]|]; try exact H.
  apply cancelAndRefund_admissible; [|exact H].
  intros m (Hi & Hl & Hu). split; [|split]; cbn; [exact Hi|exact Hl|].
  apply partition_delete, Hu.
Qed.

Lemma resolveBets_admissible (w : World) :
  wagersAdmissible (manager w) -> wagersAdmissible (manager (fst (resolveBets w))).
Proof.
  unfold resolveBets. repeat case_match; try (intros Hadm; exact Hadm);
    (intros (Hi & Hl & Hu); split; [|split]; [apply Forall_nil_2| |exact Hu];
     intros d l Hd; cbn in Hd; rewrite lookup_empty in Hd; discriminate).
Qed.

Lemma revealCard_admissible (g : Rng) (w : World) :
  wagersAdmissible (manager w) -> wagersAdmissible (manager (fst (revealCard g w))).
Proof.
  intros H. unfold revealCard. cbv zeta.
  destruct (currentCard (globalRoom (manager w))); [|exact H].
  match goal with |- context [let '(card, overrides) := ?x in _] =>
    destruct x as [card overrides] end.
  match goal with |- context [resolveBets ?x] =>
    pose proof (resolveBets_admissible x) as Hr; destruct (resolveBets x) as [w2 calls] end.
  cbn [fst manager] in *. apply Hr. exact H.
Qed.

Lemma countdownTick_admissible sha256_u32 (g : Rng) (w : World) :
  wagersAdmissible (manager w) ->
  wagersAdmissible (manager (fst (countdownTick sha256_u32 g w))).
Proof.
  intros H. unfold countdownTick. cbv zeta.
  destruct (negb (bool_decide ("GLOBAL" ∈ countdownIntervals (manager w)))); [exact H|].
  set (room := globalRoom (manager w)).
  set (room1 := with_countdownTime room (countdownTime room - 1)).
  set (room2 := match currentCard room1 with
                | Some _ => room1
                | None => _
                end).
  assert (activeBets room2 = activeBets room) as E.
  { unfold room2, room1. repeat case_match; reflexivity. }
  destruct (countdownTime room2 <=? 0).
  - match goal with |- context [revealCard g ?x] =>
      pose proof (revealCard_admissible g x) as Hr;
      destruct (revealCard g x) as [w2 out] end.
    cbn [fst manager] in *. apply Hr.
    destruct H as (Hi & Hl & Hu). split; [|split]; cbn; [rewrite E; exact Hi|auto|auto].
  - destruct H as (Hi & Hl & Hu). split; [|split]; cbn; [rewrite E; exact Hi|auto|auto].
Qed.

Lemma admissible_step sha256_u32 (w : World) (i : Input) :
  wagersAdmissible (manager w) ->
  wagersAdmissible (manager (fst (step sha256_u32 w i))).
Proof.
  intros H. destruct i; cbn [step].
  - apply joinRoom_admissible, H.
  - apply leaveRoom_admissible, H.
  - apply handlePlayerAuth_admissible, H.
  - apply handlePlaceBet_admissible, H.
  - apply handleLockBet_admissible, H.
  - apply handleCancelBet_admissible, H.
  - destruct (startGame_round now w) as (_ & _ & Hsame & Hstart).
    destruct (Status_eqb (status (globalRoom (manager w))) waiting) eqn:E.
    + apply Status_eqb_eq in E.
      destruct (Hstart E) as (_ & _ & _ & _ & _ & _ & G7 & G8 & G9).
      destruct H as (Hi & Hl & Hu). split; [|split].
      * rewrite G7. exact Hi.
      * rewrite G8. exact Hl.
      * rewrite G9. exact Hu.
    + rewrite Hsame; [exact H|]. intros Hw. apply Status_eqb_eq in Hw. congruence.
  - apply countdownTick_admissible, H.
  - destruct (startNextRound_round now w) as (_ & _ & _ & _ & _ & _ & _ & G6 & G7 & G8).
    split; [|split].
    + unfold allBets in G6. unfold indexBets.
      destruct (activeBets _); cbn; [rewrite G6|]; constructor.
    + rewrite G7. intros d l Hd. rewrite lookup_empty in Hd. discriminate.
    + rewrite G8. intros s l Hs. rewrite lookup_empty in Hs. discriminate.
  - unfold setAdminOverride. repeat case_match; exact H.
Qed.

(** X27. Every wager the manager tracks is well formed.  In any run from the
    server's initial state, each bet in the wager index and each bet in the
    locked and unlocked partitions has one of the five enumerated types and a
    strictly positive stake: the checks of [handlePlaceBet] are never
    bypassed by the paths that move, restore or remove wagers. *)
Theorem tracked_wagers_always_admissible (sha256_u32 : Z -> N)
    (inputs : list Input) :
  wagersAdmissible (manager (fst (run sha256_u32 initialWorld inputs))).
Proof.
  assert (forall w, wagersAdmissible (manager w) ->
                    wagersAdmissible (manager (fst (run sha256_u32 w inputs)))) as Hrun.
  { induction inputs as [|i inputs IH]; intros w H; [exact H|].
    cbn [run]. pose proof (admissible_step sha256_u32 w i H) as Hstep.
    destruct (step sha256_u32 w i) as [w1 out1].
    specialize (IH w1 Hstep). destruct (run sha256_u32 w1 inputs) as [w2 out2].
    exact IH. }
  apply Hrun. split; [|split]; cbn.
  - constructor.
  - intros d l Hd. rewrite lookup_empty in Hd. discriminate.
  - intros s l Hs. rewrite lookup_empty in Hs. discriminate.
Qed.

(** ** Game history *)

Lemma resolveBets_games (w : World) :
  games_table (storage (fst (resolveBets w))) = games_table (storage w).
Proof.
  apply (resolveBets_storage (fun db => games_table db = games_table (storage w))).
  - intros db id won a db' b p H. unfold resolveBet.
    repeat case_match; intros [= <- _ _]; exact H.
  - reflexivity.
Qed.

(** X28. The game history records the card that was shown.  When
    [revealCard] runs for a game whose row exists (a card having been
    generated, the game id non-zero), the row ends up marked 'completed'
    with the number and colour of the card now face up on the table: the
    overridden card if an override was set, the generated one otherwise.
    Rows of other games are untouched. *)
Theorem history_records_revealed_card (g : Rng) (w : World) (gid : Z)
    (row : GameRow) :
  let room := globalRoom (manager w) in
  is_Some (currentCard room) ->
  currentGameId room = Some gid -> gid <> 0 ->
  games_table (storage w) !! gid = Some row ->
  let w' := fst (revealCard g w) in
  exists c row',
    currentCard (globalRoom (manager w')) = Some c
    /\ revealed c = true
    /\ games_table (storage w') !! gid = Some row'
    /\ game_status row' = "completed"
    /\ cardNumber row' = number c /\ cardColor row' = color c
    /\ game_id row' = game_id row /\ game_roomId row' = game_roomId row
    /\ (forall other, other <> gid ->
          games_table (storage w') !! other = games_table (storage w) !! other).
Proof.
  intros room [c0 Hc0] Hgid Hgid0 Hrow w'.
  assert (truthy (Some gid) = true) as Htruthy by (apply truthy_Some; eauto).
  pose proof (revealCard_reveals g w c0 Hc0) as (_ & c & Hc & Hrev & _).
  pose proof (revealCard_round g w) as (Hg & _).
  cbv zeta in Hc, Hg. fold w' in Hc, Hg.
  exists c. subst w'. revert Hc Hg. unfold revealCard. cbv zeta. fold room.
  rewrite Hc0. cbv iota beta.
  match goal with |- context [let '(card, overrides) := ?x in _] =>
    destruct x as [card overrides] end.
  match goal with |- context [resolveBets ?x] =>
    pose proof (resolveBets_games x) as Hgames;
    destruct (resolveBets x) as [w2 calls] end.
  cbn [fst snd manager storage] in *. intros Hc Hg.
  rewrite Hc, Hg, Hgid, Htruthy.
  unfold markGameCompleted, updateGameCard. cbn [games_table with_games].
  rewrite Hgames.
  eexists. split; [reflexivity|]. split; [exact Hrev|]. split.
  { rewrite !lookup_alter_eq, Hrow. reflexivity. }
  cbn. repeat (split; [reflexivity|]).
  intros other Hne. rewrite !lookup_alter_ne by congruence. reflexivity.
Qed.

Lemma history_records_revealed_card_witness :
  is_Some (currentCard (globalRoom (manager closedWindowWorld)))
  /\ exists row',
       games_table (storage (fst (revealCard entropy0 closedWindowWorld))) !! 1
       = Some row'
       /\ game_status row' = "completed" /\ cardNumber row' = 1.
Proof.
  split; [eexists; reflexivity|].
  destruct (history_records_revealed_card entropy0 closedWindowWorld 1
              (mkGameRow 1 "GLOBAL" 0 red 0 0 "in_progress"))
    as (c & row' & H1 & _ & H3 & H4 & H5 & _).
  - eexists. reflexivity.
  - reflexivity.
  - lia.
  - reflexivity.
  - exists row'. split; [exact H3|]. split; [exact H4|].
    rewrite H5. vm_compute in H1. injection H1 as <-. reflexivity.
Defined.
